(** * MediaVault backend: media ingestion, re-optimization and deletion

  A shallow embedding of the media pipeline of the MediaVault backend
  (controllers/media.controller.ts, controllers/external.controller.ts,
  middleware/upload.middleware.ts, routes/external.routes.ts,
  models/Media.ts, utils/index.ts) together with the properties its
  specification states about it.

  Strings are [string]; the filesystem and the Media collection are finite
  maps ([gmap]); request handlers are computations in a state-and-exception
  monad over a [World] holding the filesystem, the collection, the
  launched background encoder jobs and a trace of the effects performed. *)

From Stdlib Require Import Ascii String NArith Bool List.
From stdpp Require Import base option list strings gmap.

Local Open Scope list_scope.

(** ** JavaScript string primitives *)

Module Js.

(** [s.startsWith(p)] *)
Definition startsWith (s p : string) : bool := String.prefix p s.

(** [s.includes(sub)] *)
Fixpoint includes (s sub : string) : bool :=
  String.prefix sub s ||
  match s with
  | EmptyString => false
  | String _ s' => includes s' sub
  end.

(** [s.endsWith(suf)] *)
Definition endsWith (s suf : string) : bool :=
  let n := String.length s in
  let m := String.length suf in
  (m <=? n)%nat &&
  bool_decide (String.substring (n - m) m s = suf).

(** Truthiness of a string value: only the empty string is falsy. *)
Definition truthy (s : string) : bool := negb (bool_decide (s = "")).

(** Truthiness of a possibly absent (null / undefined) string. *)
Definition truthy_opt (o : option string) : bool :=
  match o with
  | Some s => truthy s
  | None => false
  end.

End Js.

(** ** Node's POSIX [path] module

  [path.join], [path.basename], [path.extname] and [path.parse(..).name]
  with the behaviour Node documents for POSIX paths: [join] concatenates
  its non-empty arguments with "/" and normalises the result, resolving
  "." and ".." segments and collapsing repeated separators. *)

Module Path.

Definition slash : ascii := "/"%char.
Definition dot : ascii := "."%char.

(** The segments of a path: the pieces between separators. *)
Fixpoint segments (s : string) : list string :=
  match s with
  | EmptyString => [EmptyString]
  | String c s' =>
      if bool_decide (c = slash) then EmptyString :: segments s'
      else match segments s' with
           | h :: t => String c h :: t
           | [] => [String c EmptyString]
           end
  end.

(** [segs.join("/")] *)
Fixpoint unsegments (l : list string) : string :=
  match l with
  | [] => EmptyString
  | [x] => x
  | x :: l' => x +:+ "/" +:+ unsegments l'
  end.

(** One step of [normalizeString]: [stack] holds the segments kept so
    far, innermost first. *)
Definition norm_step (allowAboveRoot : bool) (stack : list string)
    (seg : string) : list string :=
  if bool_decide (seg = "") || bool_decide (seg = ".") then stack
  else if bool_decide (seg = "..") then
    match stack with
    | top :: rest =>
        if bool_decide (top = "..") then
          (if allowAboveRoot then ".." :: stack else stack)
        else rest
    | [] => if allowAboveRoot then [".."] else []
    end
  else seg :: stack.

Definition norm_segments (allowAboveRoot : bool) (segs : list string)
    : list string :=
  rev (fold_left (norm_step allowAboveRoot) segs []).

Definition isAbsolute (p : string) : bool :=
  match p with
  | String c _ => bool_decide (c = slash)
  | EmptyString => false
  end.

Fixpoint lastChar (p : string) : option ascii :=
  match p with
  | EmptyString => None
  | String c EmptyString => Some c
  | String _ p' => lastChar p'
  end.

Definition trailingSeparator (p : string) : bool :=
  bool_decide (lastChar p = Some slash).

(** [path.normalize(p)] *)
Definition normalize (p : string) : string :=
  if bool_decide (p = "") then "."
  else
    let abs := isAbsolute p in
    let trail := trailingSeparator p in
    let body := unsegments (norm_segments (negb abs) (segments p)) in
    if bool_decide (body = "") then
      (if abs then "/" else if trail then "./" else ".")
    else
      (if abs then "/" else "") +:+ body +:+ (if trail then "/" else "").

(** [path.join(...args)] *)
Definition join (args : list string) : string :=
  match filter (fun a => a ≠ "") args with
  | [] => "."
  | parts => normalize (unsegments parts)
  end.

(** [path.basename(p)]: the last non-empty segment, trailing separators
    ignored. *)
Definition basename (p : string) : string :=
  match rev (filter (fun a => a ≠ "") (segments p)) with
  | b :: _ => b
  | [] => ""
  end.

(** Position of the last "." of [b], if any. *)
Fixpoint lastDot (b : string) : option nat :=
  match b with
  | EmptyString => None
  | String c b' =>
      match lastDot b' with
      | Some i => Some (S i)
      | None => if bool_decide (c = dot) then Some 0 else None
      end
  end.

(** The extension of a base name [b]: from its last "." to the end, and
    empty when there is no ".", when the only "." is the first character,
    or when [b] is "..". *)
Definition ext_of_base (b : string) : string :=
  match lastDot b with
  | None => ""
  | Some 0 => ""
  | Some i =>
      if bool_decide (b = "..") then ""
      else String.substring i (String.length b - i) b
  end.

(** [path.extname(p)] *)
Definition extname (p : string) : string := ext_of_base (basename p).

(** [path.parse(p).name]: the base name without its extension. *)
Definition parse_name (p : string) : string :=
  let b := basename p in
  String.substring 0 (String.length b - String.length (ext_of_base b)) b.

(** A string without separator. *)
Fixpoint slashFree (s : string) : bool :=
  match s with
  | EmptyString => true
  | String c s' => negb (bool_decide (c = slash)) && slashFree s'
  end.

(** A plain segment: a non-empty name without separator, other than "."
    and "..".  ObjectId strings, the media type directories and the file
    names the disk storage generates are plain. *)
Definition plain (s : string) : bool :=
  slashFree s && negb (bool_decide (s = "")) && negb (bool_decide (s = "."))
  && negb (bool_decide (s = "..")).

(** [dirs [d1; ...; dn]] is "d1/.../dn/". *)
Fixpoint dirs (l : list string) : string :=
  match l with
  | [] => EmptyString
  | d :: l' => d +:+ "/" +:+ dirs l'
  end.

(** The directory [b] as [join] renders it in front of further segments:
    normalised, with its trailing separator ("uploads/" for "./uploads",
    empty for "." and for the empty string, "/" for the root). *)
Definition dirOf (b : string) : string :=
  let abs := isAbsolute b in
  (if abs then "/" else "") +:+ dirs (norm_segments (negb abs) (segments b)).

End Path.


(** ** File classifier (utils/index.ts) *)

Definition isImage (fileType : string) : bool := Js.startsWith fileType "image/".

Definition isVideo (fileType : string) : bool := Js.startsWith fileType "video/".

Inductive Category := Image | Video | Document.

#[global] Instance Category_eq_dec : EqDecision Category.
Proof. solve_decision. Defined.

(** The dispatch of the handlers:
    [if (isImage(t)) ... else if (isVideo(t)) ... else ...]. *)
Definition classify (mimeType : string) : Category :=
  if isImage mimeType then Image
  else if isVideo mimeType then Video
  else Document.

(** [isImage(t) ? 'images' : isVideo(t) ? 'videos' : 'documents'], the media
    type directory as deleteMedia and optimizeMedia compute it. *)
Definition mediaTypeOf (fileType : string) : string :=
  if isImage fileType then "images"
  else if isVideo fileType then "videos"
  else "documents".

(** [mimetype.startsWith('image') ? 'images' :
     mimetype.startsWith('video') ? 'videos' : 'documents'], the media type
    directory as both uploadMedia handlers compute it. *)
Definition uploadMediaType (mimetype : string) : string :=
  if Js.startsWith mimetype "image" then "images"
  else if Js.startsWith mimetype "video" then "videos"
  else "documents".

(** The media type directory chosen by the disk storage of
    upload.middleware.ts. *)
Definition storageMediaType (mimetype : string) : string :=
  if Js.startsWith mimetype "image/" then "images"
  else if Js.startsWith mimetype "video/" then "videos"
  else "documents".

(** The category a media type directory stands for. *)
Definition categoryOfDir (dir : string) : Category :=
  if bool_decide (dir = "images") then Image
  else if bool_decide (dir = "videos") then Video
  else Document.

(** [fileFilter] of upload.middleware.ts (route /api/media). *)
Definition allowedImages : list string :=
  ["image/jpeg"; "image/jpg"; "image/png"; "image/gif"; "image/webp";
   "image/svg+xml"].

Definition allowedVideos : list string :=
  ["video/mp4"; "video/mpeg"; "video/webm"; "video/mov"; "video/quicktime"].

Definition allowedDocuments : list string :=
  ["application/pdf";
   "application/msword";
   "application/vnd.openxmlformats-officedocument.wordprocessingml.document";
   "application/vnd.ms-excel";
   "application/vnd.openxmlformats-officedocument.spreadsheetml.sheet";
   "text/plain";
   "text/csv"].

Definition fileFilter (mimetype : string) : bool :=
  bool_decide (mimetype ∈ allowedImages ++ allowedVideos ++ allowedDocuments).

(** [fileFilter] of routes/external.routes.ts (route /api/external/media). *)
Definition externalFileFilter (mimetype : string) : bool :=
  Js.startsWith mimetype "image/" || Js.startsWith mimetype "video/".

(** ** ObjectIds and uuids

    An ObjectId is modelled by its canonical string: 24 lower-case
    hexadecimal digits.  Casting a string to an ObjectId, as mongoose does
    for [_id] and [userId] in queries and documents, succeeds exactly on
    strings of 24 hexadecimal digits. *)

Definition isHexDigit (c : ascii) : bool :=
  let n := nat_of_ascii c in
  ((48 <=? n) && (n <=? 57) || (97 <=? n) && (n <=? 102)
   || (65 <=? n) && (n <=? 70))%nat.

Definition toLowerHex (c : ascii) : ascii :=
  let n := nat_of_ascii c in
  if ((65 <=? n) && (n <=? 70))%nat then ascii_of_nat (n + 32) else c.

Fixpoint string_forallb (f : ascii -> bool) (s : string) : bool :=
  match s with
  | EmptyString => true
  | String c s' => f c && string_forallb f s'
  end.

Fixpoint string_map (f : ascii -> ascii) (s : string) : string :=
  match s with
  | EmptyString => EmptyString
  | String c s' => String (f c) (string_map f s')
  end.

Definition isObjectIdString (s : string) : bool :=
  (String.length s =? 24)%nat && string_forallb isHexDigit s.

Definition castObjectId (s : string) : option string :=
  if isObjectIdString s then Some (string_map toLowerHex s) else None.

(** The format of the strings [uuidv4()] returns:
    xxxxxxxx-xxxx-xxxx-xxxx-xxxxxxxxxxxx, 36 characters. *)
Definition isUuidChar (i : nat) (c : ascii) : bool :=
  if bool_decide (i ∈ [8; 13; 18; 23]%nat) then bool_decide (c = "-"%char)
  else isHexDigit c.

Fixpoint uuid_chars (i : nat) (s : string) : bool :=
  match s with
  | EmptyString => true
  | String c s' => isUuidChar i c && uuid_chars (S i) s'
  end.

Definition isUuid (s : string) : bool :=
  (String.length s =? 36)%nat && uuid_chars 0 s.

(** ** The Media collection (models/Media.ts) *)

Record Media := {
  _id : string;
  fileName : string;
  originalFileName : string;
  fileType : string;
  fileSize : N;
  fileUrl : string;
  thumbnailUrl : option string;
  userId : string;
  optimizedFileUrl : option string;
  isOptimized : bool
}.

#[global] Instance Media_eq_dec : EqDecision Media.
Proof. solve_decision. Defined.

(** The fields an update call may set; [None] leaves a field as it is. *)
Record Patch := {
  set_optimizedFileUrl : option string;
  set_isOptimized : option bool;
  set_fileSize : option N;
  set_fileUrl : option string
}.

Definition applyPatch (p : Patch) (m : Media) : Media :=
  {| _id := _id m;
     fileName := fileName m;
     originalFileName := originalFileName m;
     fileType := fileType m;
     fileSize := default (fileSize m) (set_fileSize p);
     fileUrl := default (fileUrl m) (set_fileUrl p);
     thumbnailUrl := thumbnailUrl m;
     userId := userId m;
     optimizedFileUrl :=
       match set_optimizedFileUrl p with
       | Some u => Some u
       | None => optimizedFileUrl m
       end;
     isOptimized := default (isOptimized m) (set_isOptimized p) |}.

(** The modified paths of a document: the fields in which the in-memory
    document [doc] differs from the state [loaded] it was last synchronised
    with.  [save()] sends exactly these. *)
Definition modifiedPaths (loaded doc : Media) : Patch :=
  {| set_optimizedFileUrl :=
       if bool_decide (optimizedFileUrl loaded = optimizedFileUrl doc)
       then None else optimizedFileUrl doc;
     set_isOptimized :=
       if bool_decide (isOptimized loaded = isOptimized doc)
       then None else Some (isOptimized doc);
     set_fileSize :=
       if bool_decide (fileSize loaded = fileSize doc)
       then None else Some (fileSize doc);
     set_fileUrl :=
       if bool_decide (fileUrl loaded = fileUrl doc)
       then None else Some (fileUrl doc) |}.

Definition emptyPatch : Patch :=
  {| set_optimizedFileUrl := None; set_isOptimized := None;
     set_fileSize := None; set_fileUrl := None |}.

#[global] Instance Patch_eq_dec : EqDecision Patch.
Proof. solve_decision. Defined.

(** ** The world: filesystem, collection, background jobs, trace *)

Inductive Node := FileNode (bytes : N) | DirNode.

#[global] Instance Node_eq_dec : EqDecision Node.
Proof. solve_decision. Defined.

(** A launched ffmpeg job together with what its handlers close over. *)
Inductive Job :=
| Screenshot (src folder filename : string)
| TranscodeUpload (src optimizedPath dbRecordId optimizedUrl
                   originalPath uploadedName : string)
| TranscodeReopt (sourcePath optimizedPath optimizedUrl : string)
                 (media : Media).

#[global] Instance Job_eq_dec : EqDecision Job.
Proof. solve_decision. Defined.

Inductive Event :=
| EvMkdir (p : string)
| EvWrite (p : string) (size : N)
| EvUnlink (p : string)
| EvRename (src dst : string)
| EvDbCreate (doc : Media)
| EvDbUpdate (id : string) (patch : Patch) (persisted : Media)
| EvDbDelete (id : string)
| EvLaunch (j : Job)
| EvLog (msg : string).

Record World := {
  fs : gmap string Node;
  db : gmap string Media;
  users : gset string;
  jobs : list Job;
  trace : list Event
}.

Definition with_fs (f : gmap string Node) (w : World) : World :=
  {| fs := f; db := db w; users := users w; jobs := jobs w;
     trace := trace w |}.

Definition with_db (d : gmap string Media) (w : World) : World :=
  {| fs := fs w; db := d; users := users w; jobs := jobs w;
     trace := trace w |}.

Definition with_jobs (j : list Job) (w : World) : World :=
  {| fs := fs w; db := db w; users := users w; jobs := j;
     trace := trace w |}.

Definition emit (e : Event) (w : World) : World :=
  {| fs := fs w; db := db w; users := users w; jobs := jobs w;
     trace := trace w ++ [e] |}.

(** ** Exceptions and the handler monad

    [ApiError] is the exception class of middleware/error.middleware.ts,
    which is not part of the sources; it is modelled from its uses,
    [new ApiError(message, statusCode)].  Every other exception (node's fs,
    sharp, mongoose) carries a message and no [statusCode]. *)

Inductive Error :=
| ApiError (message : string) (statusCode : nat)
| LibError (message : string).

Inductive Result (A : Type) :=
| Ok (a : A)
| Throw (e : Error).

Arguments Ok {A} a.
Arguments Throw {A} e.

Definition M (A : Type) : Type := World -> Result A * World.

Definition ret {A} (a : A) : M A := fun w => (Ok a, w).

Definition throw {A} (e : Error) : M A := fun w => (Throw e, w).

Definition bind {A B} (m : M A) (k : A -> M B) : M B :=
  fun w =>
    match m w with
    | (Ok a, w') => k a w'
    | (Throw e, w') => (Throw e, w')
    end.

Declare Scope handler_scope.
Delimit Scope handler_scope with handler.

Notation "x <- m ;; k" := (bind m (fun x => k))
  (at level 100, m at next level, right associativity) : handler_scope.
Notation "m ;;; k" := (bind m (fun _ => k))
  (at level 100, right associativity) : handler_scope.

Local Open Scope handler_scope.

(** [try { body } catch (err) { handler(err) }] *)
Definition tryCatch {A} (body : M A) (handler : Error -> M A) : M A :=
  fun w =>
    match body w with
    | (Ok a, w') => (Ok a, w')
    | (Throw e, w') => handler e w'
    end.

Definition when (b : bool) (m : M unit) : M unit :=
  if b then m else ret tt.

Definition modify (f : World -> World) : M unit := fun w => (Ok tt, f w).

Definition console_log (msg : string) : M unit := modify (emit (EvLog msg)).

(** *** Node's [fs] *)

Definition existsSync (p : string) : M bool :=
  fun w => (Ok (bool_decide (is_Some (fs w !! p))), w).

Definition unlinkSync (p : string) : M unit :=
  fun w =>
    match fs w !! p with
    | Some (FileNode _) => (Ok tt, emit (EvUnlink p) (with_fs (delete p (fs w)) w))
    | Some DirNode => (Throw (LibError "EISDIR: illegal operation on a directory"), w)
    | None => (Throw (LibError "ENOENT: no such file or directory"), w)
    end.

(** [fs.mkdirSync(p, { recursive: true })]; the parent relation between
    paths is not tracked, a directory is an entry of its own. *)
Definition mkdirSync (p : string) : M unit :=
  fun w =>
    match fs w !! p with
    | Some (FileNode _) => (Throw (LibError "EEXIST: file already exists"), w)
    | _ => (Ok tt, emit (EvMkdir p) (with_fs (<[p := DirNode]> (fs w)) w))
    end.

(** [fs.statSync(p).size]; the size of a directory entry is not tracked. *)
Definition statSync_size (p : string) : M N :=
  fun w =>
    match fs w !! p with
    | Some (FileNode n) => (Ok n, w)
    | Some DirNode => (Ok 0%N, w)
    | None => (Throw (LibError "ENOENT: no such file or directory"), w)
    end.

Definition renameSync (src dst : string) : M unit :=
  fun w =>
    match fs w !! src with
    | None => (Throw (LibError "ENOENT: no such file or directory"), w)
    | Some node =>
        match fs w !! dst with
        | Some DirNode => (Throw (LibError "EISDIR: illegal operation on a directory"), w)
        | _ => (Ok tt, emit (EvRename src dst)
                         (with_fs (<[dst := node]> (delete src (fs w))) w))
        end
    end.

(** *** Encoders (sharp, ffmpeg)

    An encoder run reads the file [src] and writes the file [dst].  What
    the encoder makes of the bytes it reads is not determined by the
    program: [outcome] is [Some n] when the run succeeds and writes [n]
    bytes, [None] when it fails (undecodable input, disk full, missing
    output directory, ...).  A run never succeeds on a missing source, and
    sharp refuses to write onto its own input. *)
Definition encode (src dst : string) (outcome : option N) : M unit :=
  fun w =>
    match fs w !! src with
    | Some (FileNode _) =>
        match outcome, fs w !! dst with
        | Some n, Some DirNode => (Throw (LibError "EISDIR: output is a directory"), w)
        | Some n, _ =>
            (Ok tt, emit (EvWrite dst n) (with_fs (<[dst := FileNode n]> (fs w)) w))
        | None, _ => (Throw (LibError "encoder failed"), w)
        end
    | _ => (Throw (LibError "Input file is missing"), w)
    end.

(** [await sharp(src)....toFile(dst)] *)
Definition sharp_toFile (src dst : string) (outcome : option N) : M unit :=
  if bool_decide (src = dst)
  then throw (LibError "Cannot use same file for input and output")
  else encode src dst outcome.

(** Launching an ffmpeg job: the handlers do not wait for it. *)
Definition launch (j : Job) : M unit :=
  modify (fun w => emit (EvLaunch j) (with_jobs (jobs w ++ [j]) w)).

(** *** mongoose *)

(** The validators of the Media schema: the [required] string fields are
    non-empty and [userId] casts to an ObjectId. *)
Definition validateMedia (m : Media) : option Media :=
  if Js.truthy (fileName m) && Js.truthy (originalFileName m)
     && Js.truthy (fileType m) && Js.truthy (fileUrl m)
  then
    match castObjectId (userId m) with
    | Some uid =>
        Some {| _id := _id m; fileName := fileName m;
                originalFileName := originalFileName m;
                fileType := fileType m; fileSize := fileSize m;
                fileUrl := fileUrl m; thumbnailUrl := thumbnailUrl m;
                userId := uid; optimizedFileUrl := optimizedFileUrl m;
                isOptimized := isOptimized m |}
    | None => None
    end
  else None.

(** [await Media.create(fields)]; [_id fields] is the ObjectId the driver
    generates for the new document. *)
Definition Media_create (fields : Media) : M Media :=
  fun w =>
    match validateMedia fields with
    | None => (Throw (LibError "Media validation failed"), w)
    | Some doc =>
        match db w !! _id doc with
        | Some _ => (Throw (LibError "E11000 duplicate key error"), w)
        | None =>
            (Ok doc, emit (EvDbCreate doc) (with_db (<[_id doc := doc]> (db w)) w))
        end
    end.

(** [await Media.findOne({ _id: mediaId, userId })] *)
Definition Media_findOne (mediaId userId' : string) : M (option Media) :=
  fun w =>
    match castObjectId mediaId, castObjectId userId' with
    | Some id, Some uid =>
        match db w !! id with
        | Some m =>
            if bool_decide (userId m = uid) then (Ok (Some m), w)
            else (Ok None, w)
        | None => (Ok None, w)
        end
    | _, _ => (Throw (LibError "Cast to ObjectId failed"), w)
    end.

(** One update call on the record [id]. *)
Definition updateRecord (id : string) (p : Patch) (m : Media) (w : World)
    : World :=
  emit (EvDbUpdate id p (applyPatch p m))
       (with_db (<[id := applyPatch p m]> (db w)) w).

(** [await Media.findByIdAndUpdate(id, patch)] *)
Definition Media_findByIdAndUpdate (id : string) (p : Patch) : M unit :=
  fun w =>
    match castObjectId id with
    | None => (Throw (LibError "Cast to ObjectId failed"), w)
    | Some oid =>
        match db w !! oid with
        | Some m => (Ok tt, updateRecord oid p m w)
        | None => (Ok tt, w)
        end
    end.

(** [await doc.save()] on a document loaded (or last saved) as [loaded] and
    since modified in memory to [doc]: one update call that sets the
    modified paths, no call at all when nothing is modified. *)
Definition Media_save (loaded doc : Media) : M unit :=
  fun w =>
    let p := modifiedPaths loaded doc in
    if bool_decide (p = emptyPatch) then (Ok tt, w)
    else
      match db w !! _id doc with
      | Some m => (Ok tt, updateRecord (_id doc) p m w)
      | None => (Throw (LibError "DocumentNotFoundError"), w)
      end.

(** [await media.deleteOne()] *)
Definition Media_deleteOne (doc : Media) : M unit :=
  modify (fun w => emit (EvDbDelete (_id doc))
                        (with_db (delete (_id doc) (db w)) w)).

(** ** Requests and responses *)

(** The uploaded part of a multipart request. *)
Record Part := {
  part_originalname : string;
  part_mimetype : string;
  part_bytes : N
}.

(** [req.file], as multer's disk storage fills it. *)
Module File.
Record t := {
  originalname : string;
  mimetype : string;
  size : N;
  destination : string;
  filename : string;
  path : string
}.
End File.

(** What the handlers read of a request: [req.file], [req.user] (by
    [req.user._id.toString()]), [req.userId], [req.protocol],
    [req.get('host')] and [req.params.id]. *)
Module Req.
Record t := {
  file : option File.t;
  user : option string;
  userId : option string;
  protocol : string;
  host : string;
  id : string
}.
End Req.

(** What the environment decides during one request: the outcomes of the
    two sharp runs, the string [uuidv4()] returns in the storage's
    [filename] callback, the string it returns in the handler and the
    ObjectId the driver gives a created document. *)
Module Env.
Record t := {
  encoded : option N;
  thumbnail : option N;
  fileUuid : string;
  uuid : string;
  objectId : string
}.
End Env.

Inductive Body :=
| BError (message : string)
| BUploaded (media : Media)
| BDeleted (id : string)
| BAlreadyOptimized (id : string) (optimizedFileUrl : option string)
                    (isOptimized : bool)
| BImageOptimized (id fileUrl : string) (optimizedFileUrl : option string)
                  (isOptimized : bool) (fileSize : N)
| BImageAlreadyWebp (id fileUrl : string) (isOptimized : bool)
| BVideoStarted (id : string).

Record Response := { status : nat; body : Body }.

#[global] Instance Body_eq_dec : EqDecision Body.
Proof. solve_decision. Defined.

#[global] Instance Response_eq_dec : EqDecision Response.
Proof. solve_decision. Defined.

(** [res.status(error.statusCode || 500).json({ error: true,
     message: error.message || fallback })] *)
Definition errorResponse (fallback : string) (e : Error) : Response :=
  match e with
  | ApiError msg code =>
      {| status := if (code =? 0)%nat then 500 else code;
         body := BError (if Js.truthy msg then msg else fallback) |}
  | LibError msg =>
      {| status := 500;
         body := BError (if Js.truthy msg then msg else fallback) |}
  end.

(** A handler body wrapped in its [try { ... } catch (error) { ... }]. *)
Definition handler (fallback : string) (body : M Response)
    : World -> Response * World :=
  fun w =>
    match body w with
    | (Ok r, w') => (r, w')
    | (Throw e, w') => (errorResponse fallback e, w')
    end.

(** What becomes of a request on a route: a handler responded, or a
    middleware passed an error on to the error handler of
    middleware/error.middleware.ts (not part of the sources). *)
Inductive Outcome :=
| Responded (r : Response)
| NextError (e : Error).

Section Config.

(** [process.env.UPLOAD_PATH] *)
Variable UPLOAD_PATH : option string.

(** [const BASE_UPLOAD_PATH = process.env.UPLOAD_PATH || './uploads'] *)
Definition BASE_UPLOAD_PATH : string :=
  match UPLOAD_PATH with
  | Some p => if Js.truthy p then p else "./uploads"
  | None => "./uploads"
  end.

(** ** Storage layout resolver (middleware/upload.middleware.ts) *)

Definition getUserFilePath (userId mediaType filename : string) : string :=
  Path.join [BASE_UPLOAD_PATH; userId; mediaType; filename].

Definition getThumbnailPath (userId filename : string) : string :=
  Path.join [BASE_UPLOAD_PATH; userId; "thumbnails"; filename].

Definition getOptimizedPath (userId mediaType filename : string) : string :=
  Path.join [BASE_UPLOAD_PATH; userId; mediaType; "optimized"; filename].

Definition ensureDir (dir : string) : M unit :=
  ex <- existsSync dir ;; when (negb ex) (mkdirSync dir).

Definition ensureUserDirExists (userId : string) (subDir : option string)
    : M string :=
  let userDir := Path.join [BASE_UPLOAD_PATH; userId] in
  ensureDir userDir ;;;
  if Js.truthy_opt subDir then
    let fullPath := Path.join [userDir; default "" subDir] in
    ensureDir fullPath ;;;
    ret fullPath
  else ret userDir.

(** ** multer (middleware/upload.middleware.ts, routes/external.routes.ts) *)

Fixpoint forEach {A} (l : list A) (f : A -> M unit) : M unit :=
  match l with
  | [] => ret tt
  | x :: l' => f x ;;; forEach l' f
  end.

(** [destination] of the disk storage of upload.middleware.ts. *)
Definition storageDestination (reqUserId : option string) (mimetype : string)
    : M string :=
  if negb (Js.truthy_opt reqUserId)
  then throw (LibError "User not authenticated")
  else
    let userId := default "" reqUserId in
    let userDir := Path.join [BASE_UPLOAD_PATH; userId] in
    let mediaType := storageMediaType mimetype in
    let mediaTypeDir := Path.join [userDir; mediaType] in
    forEach [BASE_UPLOAD_PATH; userDir; mediaTypeDir] ensureDir ;;;
    forEach [Path.join [userDir; "thumbnails"];
             Path.join [userDir; "images"; "optimized"];
             Path.join [userDir; "videos"; "optimized"]] ensureDir ;;;
    ret mediaTypeDir.

(** [destination] of the disk storage of routes/external.routes.ts. *)
Definition externalUploadDir : string := "./uploads".

Definition externalDestination (mimetype : string) : M string :=
  if Js.startsWith mimetype "image/"
  then ret (Path.join [externalUploadDir; "images"])
  else if Js.startsWith mimetype "video/"
  then ret (Path.join [externalUploadDir; "videos"])
  else ret externalUploadDir.

(** [filename] of both disk storages:
    [`${uuidv4()}${path.extname(file.originalname)}`]. *)
Definition storageFilename (uuid originalname : string) : string :=
  uuid +:+ Path.extname originalname.

(** [limits: { fileSize: 50 * 1024 * 1024 }] *)
Definition fileSizeLimit : N := (50 * 1024 * 1024)%N.

(** [upload.single('file')]: filter the part, choose destination and file
    name, store the bytes at [path.join(destination, filename)]. *)
Definition multerSingle (filter : string -> bool)
    (destination : string -> M string) (uuid : string) (part : option Part)
    : M (option File.t) :=
  match part with
  | None => ret None
  | Some p =>
      if negb (filter (part_mimetype p))
      then throw (LibError "File type not allowed")
      else
        dest <- destination (part_mimetype p) ;;
        let filename := storageFilename uuid (part_originalname p) in
        let finalPath := Path.join [dest; filename] in
        if (fileSizeLimit <? part_bytes p)%N
        then throw (LibError "File too large")
        else
          modify (fun w => emit (EvWrite finalPath (part_bytes p))
                     (with_fs (<[finalPath := FileNode (part_bytes p)]> (fs w)) w)) ;;;
          ret (Some {| File.originalname := part_originalname p;
                       File.mimetype := part_mimetype p;
                       File.size := part_bytes p;
                       File.destination := dest;
                       File.filename := filename;
                       File.path := finalPath |})
  end.

(** ** Ingestion (uploadMedia of both controllers) *)

(** The variables an upload branch assigns before the record is created. *)
Record Computed := {
  c_fileUrl : string;
  c_thumbnailUrl : option string;
  c_optimizedFileUrl : option string;
  c_isOptimized : bool;
  c_optimizedSize : N;
  c_newFileName : string
}.

(** The image branch, the same text in both controllers. *)
Definition ingestImage (userId baseUrl mediaType : string) (file : File.t)
    (env : Env.t) : M Computed :=
  let webpFilename := Path.parse_name (File.filename file) +:+ ".webp" in
  let optimizedPath := getOptimizedPath userId mediaType webpFilename in
  ensureUserDirExists userId (Some (mediaType +:+ "/optimized")) ;;;
  sharp_toFile (File.path file) optimizedPath (Env.encoded env) ;;;
  optimizedSize <- statSync_size optimizedPath ;;
  let optimizedFileUrl :=
    baseUrl +:+ "/uploads/" +:+ userId +:+ "/" +:+ mediaType
            +:+ "/optimized/" +:+ webpFilename in
  let thumbnailFilename := "thumb_" +:+ webpFilename in
  let thumbnailPath := getThumbnailPath userId thumbnailFilename in
  sharp_toFile (File.path file) thumbnailPath (Env.thumbnail env) ;;;
  let thumbnailUrl :=
    baseUrl +:+ "/uploads/" +:+ userId +:+ "/thumbnails/"
            +:+ thumbnailFilename in
  ex <- existsSync (File.path file) ;;
  when ex (unlinkSync (File.path file)) ;;;
  ret {| c_fileUrl := optimizedFileUrl;
         c_thumbnailUrl := Some thumbnailUrl;
         c_optimizedFileUrl := Some optimizedFileUrl;
         c_isOptimized := true;
         c_optimizedSize := optimizedSize;
         c_newFileName := webpFilename |}.

(** The video branch of media.controller.ts. *)
Definition ingestVideo (userId baseUrl mediaType : string) (file : File.t)
    (env : Env.t) : M Computed :=
  let fileUrl :=
    baseUrl +:+ "/uploads/" +:+ userId +:+ "/" +:+ mediaType +:+ "/"
            +:+ File.filename file in
  let thumbnailFilename :=
    "thumb_" +:+ Path.parse_name (File.filename file) +:+ ".jpg" in
  ensureUserDirExists userId (Some "thumbnails") ;;;
  launch (Screenshot (File.path file)
            (Path.join [BASE_UPLOAD_PATH; userId; "thumbnails"])
            thumbnailFilename) ;;;
  let thumbnailUrl :=
    baseUrl +:+ "/uploads/" +:+ userId +:+ "/thumbnails/"
            +:+ thumbnailFilename in
  let optimizedFilename :=
    "opt_" +:+ Path.parse_name (File.filename file) +:+ ".mp4" in
  let optimizedPath := getOptimizedPath userId mediaType optimizedFilename in
  ensureUserDirExists userId (Some (mediaType +:+ "/optimized")) ;;;
  let dbRecordId := Env.uuid env in
  let optimizedUrl :=
    baseUrl +:+ "/uploads/" +:+ userId +:+ "/" +:+ mediaType
            +:+ "/optimized/" +:+ optimizedFilename in
  launch (TranscodeUpload (File.path file) optimizedPath dbRecordId
            optimizedUrl (File.path file) (File.filename file)) ;;;
  ret {| c_fileUrl := fileUrl;
         c_thumbnailUrl := Some thumbnailUrl;
         c_optimizedFileUrl := None;
         c_isOptimized := false;
         c_optimizedSize := File.size file;
         c_newFileName := File.filename file |}.

(** The video branch of external.controller.ts: the upload is moved into
    the owner's directory before the transcode is launched. *)
Definition externalIngestVideo (userId baseUrl mediaType : string)
    (file : File.t) (env : Env.t) : M Computed :=
  let fileUrl :=
    baseUrl +:+ "/uploads/" +:+ userId +:+ "/" +:+ mediaType +:+ "/"
            +:+ File.filename file in
  let thumbnailFilename :=
    "thumb_" +:+ Path.parse_name (File.filename file) +:+ ".jpg" in
  ensureUserDirExists userId (Some "thumbnails") ;;;
  ensureUserDirExists userId (Some mediaType) ;;;
  launch (Screenshot (File.path file)
            (Path.join [BASE_UPLOAD_PATH; userId; "thumbnails"])
            thumbnailFilename) ;;;
  let thumbnailUrl :=
    baseUrl +:+ "/uploads/" +:+ userId +:+ "/thumbnails/"
            +:+ thumbnailFilename in
  let userVideoPath := getUserFilePath userId mediaType (File.filename file) in
  renameSync (File.path file) userVideoPath ;;;
  let optimizedFilename :=
    "opt_" +:+ Path.parse_name (File.filename file) +:+ ".mp4" in
  let optimizedPath := getOptimizedPath userId mediaType optimizedFilename in
  ensureUserDirExists userId (Some (mediaType +:+ "/optimized")) ;;;
  let dbRecordId := Env.uuid env in
  let optimizedUrl :=
    baseUrl +:+ "/uploads/" +:+ userId +:+ "/" +:+ mediaType
            +:+ "/optimized/" +:+ optimizedFilename in
  launch (TranscodeUpload userVideoPath optimizedPath dbRecordId
            optimizedUrl userVideoPath (File.filename file)) ;;;
  ret {| c_fileUrl := fileUrl;
         c_thumbnailUrl := Some thumbnailUrl;
         c_optimizedFileUrl := None;
         c_isOptimized := false;
         c_optimizedSize := File.size file;
         c_newFileName := File.filename file |}.

(** The document branch, the same text in both controllers. *)
Definition ingestDocument (userId baseUrl mediaType : string) (file : File.t)
    : M Computed :=
  ret {| c_fileUrl :=
           baseUrl +:+ "/uploads/" +:+ userId +:+ "/" +:+ mediaType +:+ "/"
                   +:+ File.filename file;
         c_thumbnailUrl := None;
         c_optimizedFileUrl := None;
         c_isOptimized := false;
         c_optimizedSize := File.size file;
         c_newFileName := File.filename file |}.

(** [Media.create({...})] and the 201 response, the same text in both
    controllers. *)
Definition createAndRespond (userId : string) (file : File.t) (env : Env.t)
    (c : Computed) : M Response :=
  media <- Media_create
             {| _id := Env.objectId env;
                fileName := c_newFileName c;
                originalFileName := File.originalname file;
                fileType := File.mimetype file;
                fileSize := c_optimizedSize c;
                fileUrl := c_fileUrl c;
                thumbnailUrl := c_thumbnailUrl c;
                userId := userId;
                optimizedFileUrl := c_optimizedFileUrl c;
                isOptimized := c_isOptimized c |} ;;
  ret {| status := 201; body := BUploaded media |}.

(** [uploadMedia] of media.controller.ts (POST /api/media). *)
Definition uploadMedia (req : Req.t) (env : Env.t)
    : World -> Response * World :=
  handler "An error occurred uploading media"
    match Req.file req with
    | None => throw (ApiError "No file uploaded" 400)
    | Some file =>
        match Req.user req with
        | None =>
            ret {| status := 401; body := BError "User not authenticated" |}
        | Some userId =>
            let baseUrl := "https://" +:+ Req.host req in
            let mediaType := uploadMediaType (File.mimetype file) in
            c <- (if isImage (File.mimetype file)
                  then ingestImage userId baseUrl mediaType file env
                  else if isVideo (File.mimetype file)
                  then ingestVideo userId baseUrl mediaType file env
                  else ingestDocument userId baseUrl mediaType file) ;;
            createAndRespond userId file env c
        end
    end.

(** [await User.findById(userId)], as far as the handler uses it: is there
    such a user. *)
Definition User_findById (userId : string) : M bool :=
  fun w =>
    match castObjectId userId with
    | Some uid => (Ok (bool_decide (uid ∈ users w)), w)
    | None => (Throw (LibError "Cast to ObjectId failed"), w)
    end.

(** [uploadMedia] of external.controller.ts (POST /api/external/media). *)
Definition externalUploadMedia (req : Req.t) (env : Env.t)
    : World -> Response * World :=
  handler "An error occurred uploading media"
    match Req.file req with
    | None => throw (ApiError "No file uploaded" 400)
    | Some file =>
        let baseUrl := "https://" +:+ Req.host req in
        if negb (Js.truthy_opt (Req.userId req))
        then throw (ApiError "User ID is required" 401)
        else
          let userId := default "" (Req.userId req) in
          user <- User_findById userId ;;
          if negb user
          then throw (ApiError "User associated with this API key not found" 401)
          else
            let mediaType := uploadMediaType (File.mimetype file) in
            c <- (if isImage (File.mimetype file)
                  then ingestImage userId baseUrl mediaType file env
                  else if isVideo (File.mimetype file)
                  then externalIngestVideo userId baseUrl mediaType file env
                  else ingestDocument userId baseUrl mediaType file) ;;
            createAndRespond userId file env c
    end.

(** ** Deletion (deleteMedia of both controllers) *)

Definition unlinkIfExists (p : string) : M unit :=
  ex <- existsSync p ;; when ex (unlinkSync p).

(** From the lookup on, the same text in both controllers. *)
Definition deleteFound (userId mediaId : string) (media : Media)
    : M Response :=
  let mediaType := mediaTypeOf (fileType media) in
  when (Js.truthy (fileUrl media)
        && negb (Js.includes (fileUrl media) "/optimized/"))
       (let filePath := getUserFilePath userId mediaType (fileName media) in
        unlinkIfExists filePath) ;;;
  when (Js.truthy_opt (thumbnailUrl media))
       (let thumbnailFilename :=
          Path.basename (default "" (thumbnailUrl media)) in
        let thumbnailPath := getThumbnailPath userId thumbnailFilename in
        unlinkIfExists thumbnailPath) ;;;
  when (Js.truthy_opt (optimizedFileUrl media)
        || Js.includes (fileUrl media) "/optimized/")
       (let fileUrl' :=
          if Js.truthy_opt (optimizedFileUrl media)
          then default "" (optimizedFileUrl media)
          else fileUrl media in
        let optimizedFilename := Path.basename fileUrl' in
        let optimizedPath :=
          getOptimizedPath userId mediaType optimizedFilename in
        unlinkIfExists optimizedPath) ;;;
  Media_deleteOne media ;;;
  ret {| status := 200; body := BDeleted mediaId |}.

(** [deleteMedia] of media.controller.ts (DELETE /api/media/:id). *)
Definition deleteMedia (req : Req.t) : World -> Response * World :=
  handler "An error occurred deleting media"
    (let mediaId := Req.id req in
     match Req.user req with
     | None =>
         ret {| status := 401; body := BError "User not authenticated" |}
     | Some userId =>
         found <- Media_findOne mediaId userId ;;
         match found with
         | None => throw (ApiError "Media not found" 404)
         | Some media => deleteFound userId mediaId media
         end
     end).

(** [deleteMedia] of external.controller.ts
    (DELETE /api/external/media/:id). *)
Definition externalDeleteMedia (req : Req.t) : World -> Response * World :=
  handler "An error occurred deleting media"
    (let mediaId := Req.id req in
     if negb (Js.truthy_opt (Req.userId req))
     then throw (ApiError "User ID is required" 401)
     else
       let userId := default "" (Req.userId req) in
       found <- Media_findOne mediaId userId ;;
       match found with
       | None => throw (ApiError "Media not found" 404)
       | Some media => deleteFound userId mediaId media
       end).

(** ** Re-optimization (optimizeMedia of media.controller.ts) *)

Definition setOptimized (optimizedUrl : string) (size : N) (m : Media)
    : Media :=
  {| _id := _id m; fileName := fileName m;
     originalFileName := originalFileName m; fileType := fileType m;
     fileSize := size; fileUrl := fileUrl m;
     thumbnailUrl := thumbnailUrl m; userId := userId m;
     optimizedFileUrl := Some optimizedUrl; isOptimized := true |}.

Definition setFileUrl (url : string) (m : Media) : Media :=
  {| _id := _id m; fileName := fileName m;
     originalFileName := originalFileName m; fileType := fileType m;
     fileSize := fileSize m; fileUrl := url;
     thumbnailUrl := thumbnailUrl m; userId := userId m;
     optimizedFileUrl := optimizedFileUrl m; isOptimized := isOptimized m |}.

Definition setIsOptimized (b : bool) (m : Media) : Media :=
  {| _id := _id m; fileName := fileName m;
     originalFileName := originalFileName m; fileType := fileType m;
     fileSize := fileSize m; fileUrl := fileUrl m;
     thumbnailUrl := thumbnailUrl m; userId := userId m;
     optimizedFileUrl := optimizedFileUrl m; isOptimized := b |}.

(** The image branch for a file that is not yet WebP. *)
Definition reoptimizeImage (userId baseUrl mediaType : string)
    (media : Media) (outcome : option N) : M Response :=
  let webpFilename :=
    "opt_" +:+ Path.parse_name (fileName media) +:+ ".webp" in
  let optimizedPath := getOptimizedPath userId mediaType webpFilename in
  let optimizedUrl :=
    baseUrl +:+ "/uploads/" +:+ userId +:+ "/" +:+ mediaType
            +:+ "/optimized/" +:+ webpFilename in
  let sourcePath := getUserFilePath userId mediaType (fileName media) in
  ensureUserDirExists userId (Some (mediaType +:+ "/optimized")) ;;;
  sharp_toFile sourcePath optimizedPath outcome ;;;
  optimizedSize <- statSync_size optimizedPath ;;
  let media1 := setOptimized optimizedUrl optimizedSize media in
  Media_save media media1 ;;;
  ex <- existsSync sourcePath ;;
  media2 <- (if ex && bool_decide (sourcePath ≠ optimizedPath)
             then
               unlinkSync sourcePath ;;;
               let media2 := setFileUrl optimizedUrl media1 in
               Media_save media1 media2 ;;;
               ret media2
             else ret media1) ;;
  ret {| status := 200;
         body := BImageOptimized (_id media2) (fileUrl media2)
                   (optimizedFileUrl media2) (isOptimized media2)
                   (fileSize media2) |}.

(** The image branch for a file that is already WebP. *)
Definition markOptimized (media : Media) : M Response :=
  let media1 := setIsOptimized true media in
  Media_save media media1 ;;;
  ret {| status := 200;
         body := BImageAlreadyWebp (_id media1) (fileUrl media1)
                   (isOptimized media1) |}.

(** The video branch: the transcode is launched, not awaited. *)
Definition reoptimizeVideo (userId baseUrl mediaType : string)
    (media : Media) : M Response :=
  let optimizedFilename :=
    "opt_" +:+ Path.parse_name (fileName media) +:+ ".mp4" in
  let optimizedPath := getOptimizedPath userId mediaType optimizedFilename in
  let optimizedUrl :=
    baseUrl +:+ "/uploads/" +:+ userId +:+ "/" +:+ mediaType
            +:+ "/optimized/" +:+ optimizedFilename in
  let sourcePath := getUserFilePath userId mediaType (fileName media) in
  ensureUserDirExists userId (Some (mediaType +:+ "/optimized")) ;;;
  launch (TranscodeReopt sourcePath optimizedPath optimizedUrl media) ;;;
  ret {| status := 202; body := BVideoStarted (_id media) |}.

(** [optimizeMedia] (POST /api/media/:id/optimize); [Env.encoded env] is
    the outcome of the one sharp run of the image branch. *)
Definition optimizeMedia (req : Req.t) (env : Env.t)
    : World -> Response * World :=
  handler "An error occurred optimizing media"
    (let mediaId := Req.id req in
     match Req.user req with
     | None =>
         ret {| status := 401; body := BError "User not authenticated" |}
     | Some userId =>
         found <- Media_findOne mediaId userId ;;
         match found with
         | None => throw (ApiError "Media not found" 404)
         | Some media =>
             if isOptimized media && Js.truthy_opt (optimizedFileUrl media)
             then ret {| status := 200;
                         body := BAlreadyOptimized (_id media)
                                   (optimizedFileUrl media)
                                   (isOptimized media) |}
             else
               let mediaType := mediaTypeOf (fileType media) in
               let baseUrl := Req.protocol req +:+ "://" +:+ Req.host req in
               if isImage (fileType media) then
                 if negb (Js.endsWith (fileName media) ".webp")
                 then reoptimizeImage userId baseUrl mediaType media
                        (Env.encoded env)
                 else markOptimized media
               else if isVideo (fileType media) then
                 reoptimizeVideo userId baseUrl mediaType media
               else
                 throw (ApiError "File type not supported for optimization" 400)
         end
     end).

(** ** Completion of background jobs

    [complete j outcome] is what happens when the ffmpeg run of the launched
    job [j] ends with [outcome]: the output file is written and the ['end']
    handler runs, or the ['error'] handler runs. *)

Definition run {A} (m : M A) (w : World) : World := snd (m w).

(** ['end'] handler of the transcode launched by an upload. *)
Definition onUploadTranscodeEnd
    (optimizedPath dbRecordId optimizedUrl originalPath uploadedName : string)
    : M unit :=
  tryCatch
    (size <- statSync_size optimizedPath ;;
     Media_findByIdAndUpdate dbRecordId
       {| set_optimizedFileUrl := Some optimizedUrl;
          set_isOptimized := Some true;
          set_fileSize := Some size;
          set_fileUrl := None |} ;;;
     console_log ("Video optimized: " +:+ uploadedName) ;;;
     unlinkIfExists originalPath)
    (fun _ => console_log "Error updating media record after optimization:").

(** ['end'] handler of the transcode launched by optimizeMedia; [media] is
    the document the handler closed over. *)
Definition onReoptTranscodeEnd (sourcePath optimizedPath optimizedUrl : string)
    (media : Media) : M unit :=
  tryCatch
    (size <- statSync_size optimizedPath ;;
     let media1 := setFileUrl optimizedUrl
                     (setOptimized optimizedUrl size media) in
     Media_save media media1 ;;;
     ex <- existsSync sourcePath ;;
     when (ex && bool_decide (sourcePath ≠ optimizedPath))
          (unlinkSync sourcePath) ;;;
     console_log ("Video optimized: " +:+ fileName media1))
    (fun _ => console_log "Error updating media record after optimization:").

Definition complete (j : Job) (outcome : option N) (w : World) : World :=
  match j with
  | Screenshot src folder filename =>
      match encode src (Path.join [folder; filename]) outcome w with
      | (Ok _, w') => w'
      | (Throw _, w') =>
          run (console_log "Error generating video thumbnail:") w'
      end
  | TranscodeUpload src optimizedPath dbRecordId optimizedUrl originalPath
      uploadedName =>
      match encode src optimizedPath outcome w with
      | (Ok _, w') =>
          run (onUploadTranscodeEnd optimizedPath dbRecordId optimizedUrl
                 originalPath uploadedName) w'
      | (Throw _, w') => run (console_log "Error optimizing video:") w'
      end
  | TranscodeReopt sourcePath optimizedPath optimizedUrl media =>
      match encode sourcePath optimizedPath outcome w with
      | (Ok _, w') =>
          run (onReoptTranscodeEnd sourcePath optimizedPath optimizedUrl
                 media) w'
      | (Throw _, w') => run (console_log "Error optimizing video:") w'
      end
  end.

(** ** Routes and runs of the system *)

(** POST /api/media: [protect] has set [req.userId] and [req.user] to the
    authenticated account, [upload.single('file')] stores the part, then
    the handler runs. *)
Definition routeUpload (account host : string) (part : option Part)
    (env : Env.t) (w : World) : Outcome * World :=
  match multerSingle fileFilter (storageDestination (Some account))
          (Env.fileUuid env) part w with
  | (Throw e, w') => (NextError e, w')
  | (Ok file, w') =>
      let (r, w'') :=
        uploadMedia {| Req.file := file; Req.user := Some account;
                       Req.userId := Some account; Req.protocol := "https";
                       Req.host := host; Req.id := "" |} env w' in
      (Responded r, w'')
  end.

(** POST /api/external/media: [validateApiKey] has set [req.userId]. *)
Definition externalRouteUpload (account host : string) (part : option Part)
    (env : Env.t) (w : World) : Outcome * World :=
  match multerSingle externalFileFilter externalDestination
          (Env.fileUuid env) part w with
  | (Throw e, w') => (NextError e, w')
  | (Ok file, w') =>
      let (r, w'') :=
        externalUploadMedia {| Req.file := file; Req.user := None;
                               Req.userId := Some account;
                               Req.protocol := "https";
                               Req.host := host; Req.id := "" |} env w' in
      (Responded r, w'')
  end.

(** One step of the system: a request is handled, or a launched job
    completes.  The handlers are taken on their routes and also on their
    own, with arbitrary requests. *)
Inductive step : World -> World -> Prop :=
| step_upload req env w :
    step w (snd (uploadMedia req env w))
| step_externalUpload req env w :
    step w (snd (externalUploadMedia req env w))
| step_delete req w :
    step w (snd (deleteMedia req w))
| step_externalDelete req w :
    step w (snd (externalDeleteMedia req w))
| step_optimize req env w :
    step w (snd (optimizeMedia req env w))
| step_routeUpload account host part env w :
    step w (snd (routeUpload account host part env w))
| step_externalRouteUpload account host part env w :
    step w (snd (externalRouteUpload account host part env w))
| step_complete j outcome l1 l2 w :
    jobs w = l1 ++ j :: l2 ->
    step w (complete j outcome (with_jobs (l1 ++ l2) w)).

(** The worlds the system reaches from an empty collection. *)
Inductive reachable : World -> Prop :=
| reachable_init w : db w = ∅ -> jobs w = [] -> reachable w
| reachable_step w w' : reachable w -> step w w' -> reachable w'.

(** ** The storage layout of the specification *)

(** The base directory as the resolver renders it ("uploads/" for the
    default "./uploads"). *)
Definition baseDir : string := Path.dirOf BASE_UPLOAD_PATH.

(** The directory of an owner. *)
Definition ownerDir (ownerId : string) : string :=
  baseDir +:+ ownerId +:+ "/".

(** [under dir p]: the path [p] lies in the directory [dir]. *)
Definition under (dir p : string) : bool := Js.startsWith p dir.

(** The shapes base/ownerId/category/filename,
    base/ownerId/category/optimized/filename and
    base/ownerId/thumbnails/filename. *)
Definition layout (ownerId category filename : string) : Prop :=
  getUserFilePath ownerId category filename
    = baseDir +:+ ownerId +:+ "/" +:+ category +:+ "/" +:+ filename
  /\ getOptimizedPath ownerId category filename
    = baseDir +:+ ownerId +:+ "/" +:+ category +:+ "/optimized/" +:+ filename
  /\ getThumbnailPath ownerId filename
    = baseDir +:+ ownerId +:+ "/thumbnails/" +:+ filename.

Definition resolvedPaths (ownerId category filename : string) : list string :=
  [getUserFilePath ownerId category filename;
   getOptimizedPath ownerId category filename;
   getThumbnailPath ownerId filename].

(** Every resolved path lies under the owner's directory and under the
    directory of no other owner. *)
Definition isolated (ownerId category filename : string) : Prop :=
  forall p, p ∈ resolvedPaths ownerId category filename ->
    under (ownerDir ownerId) p = true
    /\ forall other, Path.plain other = true -> other <> ownerId ->
         under (ownerDir other) p = false.

(** ** The artifacts of a record, as the specification lists them *)

(** The locator lies in the optimized subtree. *)
Definition inOptimizedSubtree (locator : string) : bool :=
  Js.includes locator "/optimized/".

(** The canonical artifact, unless its locator lies in the optimized
    subtree; the thumbnail, when thumbnailUrl is set; the optimized
    artifact, when optimizedUrl is set or the canonical locator lies in the
    optimized subtree. *)
Definition artifacts (ownerId : string) (media : Media) : list string :=
  let category := mediaTypeOf (fileType media) in
  (if inOptimizedSubtree (fileUrl media) then []
   else [getUserFilePath ownerId category (fileName media)])
  ++ (if Js.truthy_opt (thumbnailUrl media)
      then [getThumbnailPath ownerId
              (Path.basename (default "" (thumbnailUrl media)))]
      else [])
  ++ (if Js.truthy_opt (optimizedFileUrl media)
      then [getOptimizedPath ownerId category
              (Path.basename (default "" (optimizedFileUrl media)))]
      else if inOptimizedSubtree (fileUrl media)
      then [getOptimizedPath ownerId category (Path.basename (fileUrl media))]
      else []).

(** The map without the keys of a list. *)
Definition deleteAll {A} (keys : list string) (m : gmap string A)
    : gmap string A :=
  foldl (fun m k => delete k m) m keys.

(** Two filesystems with the same files (directories may differ). *)
Definition sameFiles (f f' : gmap string Node) : Prop :=
  forall p n, f' !! p = Some (FileNode n) <-> f !! p = Some (FileNode n).

(** What an accepted image upload leaves behind. *)
Definition imageUploaded (owner host : string) (file : File.t)
    (r : Response) (w' : World) : Prop :=
  exists media,
    body r = BUploaded media
    /\ db w' !! _id media = Some media
    /\ isOptimized media = true
    /\ optimizedFileUrl media = Some (fileUrl media)
    /\ fileUrl media = "https://" +:+ host +:+ "/uploads/" +:+ owner
                         +:+ "/images/optimized/" +:+ fileName media
    /\ fs w' !! getOptimizedPath owner "images" (fileName media)
       = Some (FileNode (fileSize media))
    /\ fs w' !! File.path file = None.

(** What a failed image upload leaves behind: the failure is reported with
    status 500 and a message, no record is created and no job launched, the
    original upload is still on disk, and no file is changed other than the
    optimized file the attempt may have written. *)
Definition ingestionAborted (file : File.t) (optimizedPath : string)
    (w : World) (r : Response) (w' : World) : Prop :=
  status r = 500
  /\ (exists msg, body r = BError msg /\ msg <> "")
  /\ db w' = db w /\ jobs w' = jobs w
  /\ (forall k, fs w !! File.path file = Some (FileNode k) ->
                fs w' !! File.path file = Some (FileNode k))
  /\ (forall p, p <> optimizedPath ->
        forall k, fs w' !! p = Some (FileNode k)
                  <-> fs w !! p = Some (FileNode k)).

(** ** What the video branches launch and compute *)

(** The jobs the video branches launch. *)
Definition screenshotJob (owner : string) (file : File.t) : Job :=
  Screenshot (File.path file)
    (Path.join [BASE_UPLOAD_PATH; owner; "thumbnails"])
    ("thumb_" +:+ Path.parse_name (File.filename file) +:+ ".jpg").

Definition transcodeJob (owner baseUrl mediaType source : string)
    (file : File.t) (env : Env.t) : Job :=
  TranscodeUpload source
    (getOptimizedPath owner mediaType
       ("opt_" +:+ Path.parse_name (File.filename file) +:+ ".mp4"))
    (Env.uuid env)
    (baseUrl +:+ "/uploads/" +:+ owner +:+ "/" +:+ mediaType
             +:+ "/optimized/"
             +:+ "opt_" +:+ Path.parse_name (File.filename file) +:+ ".mp4")
    source (File.filename file).

(** What the video branches compute. *)
Definition videoComputed (owner baseUrl mediaType : string) (file : File.t)
    : Computed :=
  {| c_fileUrl := baseUrl +:+ "/uploads/" +:+ owner +:+ "/" +:+ mediaType
                          +:+ "/" +:+ File.filename file;
     c_thumbnailUrl :=
       Some (baseUrl +:+ "/uploads/" +:+ owner +:+ "/thumbnails/"
                     +:+ "thumb_" +:+ Path.parse_name (File.filename file)
                     +:+ ".jpg");
     c_optimizedFileUrl := None;
     c_isOptimized := false;
     c_optimizedSize := File.size file;
     c_newFileName := File.filename file |}.

(** What an accepted video upload leaves behind: the returned record is
    persisted under the ObjectId the driver gave it, not yet optimized, with
    its thumbnail URL already set; the screenshot job and the transcode job
    are launched, the latter carrying the uuid as [dbRecordId]. *)
Definition videoUploaded (owner host source : string) (file : File.t)
    (env : Env.t) (r : Response) (w' : World) : Prop :=
  exists media,
    body r = BUploaded media
    /\ _id media = Env.objectId env
    /\ db w' !! _id media = Some media
    /\ isOptimized media = false
    /\ optimizedFileUrl media = None
    /\ thumbnailUrl media
       = Some ("https://" +:+ host +:+ "/uploads/" +:+ owner
               +:+ "/thumbnails/" +:+ "thumb_"
               +:+ Path.parse_name (File.filename file) +:+ ".jpg")
    /\ screenshotJob owner file ∈ jobs w'
    /\ transcodeJob owner ("https://" +:+ host) "videos" source file env
       ∈ jobs w'.

(** The update calls among some events. *)
Definition isDbUpdate (e : Event) : bool :=
  match e with
  | EvDbUpdate _ _ _ => true
  | _ => false
  end.

Definition dbUpdates (evs : list Event) : list Event :=
  List.filter isDbUpdate evs.

(** The one update call of a completed transcode carries every field the
    completion changes: for the transcode of optimizeMedia the four
    assignments to the document, for the transcode of an upload the three
    fields of its update. *)
Definition carriesAll (j : Job) (p : Patch) : Prop :=
  match j with
  | Screenshot _ _ _ => False
  | TranscodeUpload _ _ _ optimizedUrl _ _ =>
      exists size,
        p = {| set_optimizedFileUrl := Some optimizedUrl;
               set_isOptimized := Some true;
               set_fileSize := Some size;
               set_fileUrl := None |}
  | TranscodeReopt _ _ optimizedUrl media =>
      exists size,
        applyPatch p media
        = setFileUrl optimizedUrl (setOptimized optimizedUrl size media)
  end.

(** The completion of a job is atomic on the collection: it performs no
    update call and leaves the collection as it is, or exactly one, which
    takes the collection from its state before to its state after. *)
Definition atomicCompletion (j : Job) (w w' : World) : Prop :=
  exists evs,
    trace w' = trace w ++ evs
    /\ ((dbUpdates evs = [] /\ db w' = db w)
        \/ (exists id p m,
              dbUpdates evs = [EvDbUpdate id p (applyPatch p m)]
              /\ db w !! id = Some m
              /\ db w' = <[id := applyPatch p m]> (db w)
              /\ carriesAll j p)).

(** Between two worlds, at most one update call was made. *)
Definition singleUpdateCall (w w' : World) : Prop :=
  exists evs, trace w' = trace w ++ evs /\ length (dbUpdates evs) <= 1.

(** ** Program logic and the invariant of the collection *)

(** [triple P m Q E]: from a world satisfying [P], the computation [m]
    returns a value and a world satisfying [Q], or throws in a world
    satisfying [E]. *)
Definition triple {A} (P : World -> Prop) (m : M A)
    (Q : A -> World -> Prop) (E : World -> Prop) : Prop :=
  forall w, P w ->
    match m w with
    | (Ok a, w') => Q a w'
    | (Throw _, w') => E w'
    end.

(** A computation that touches neither the collection nor the jobs. *)
Definition fsOnly {A} (m : M A) : Prop :=
  forall w, db (snd (m w)) = db w /\ jobs (snd (m w)) = jobs w.

(** A property of the collection and the jobs alone. *)
Definition stable (P : World -> Prop) : Prop :=
  forall w w', db w' = db w -> jobs w' = jobs w -> P w -> P w'.

(** What holds of every record of the collection: it is stored under its
    own [_id], it has a file URL, its optimized URL is only set on an
    optimized record, and an optimized record has an optimized URL or is an
    image whose file is WebP. *)
Definition recordOk (id : string) (m : Media) : Prop :=
  _id m = id
  /\ fileUrl m <> ""
  /\ (Js.truthy_opt (optimizedFileUrl m) = true -> isOptimized m = true)
  /\ (isOptimized m = true ->
      Js.truthy_opt (optimizedFileUrl m) = true
      \/ (isImage (fileType m) = true
          /\ Js.endsWith (fileName m) ".webp" = true)).

(** What holds of every launched job: the URL a transcode will store is
    not empty, and optimizeMedia launched its transcode for a record that
    was not optimized. *)
Definition jobOk (j : Job) : Prop :=
  match j with
  | Screenshot _ _ _ => True
  | TranscodeUpload _ _ _ optimizedUrl _ _ => optimizedUrl <> ""
  | TranscodeReopt _ _ optimizedUrl media =>
      optimizedUrl <> "" /\ isOptimized media = false
      /\ Js.truthy_opt (optimizedFileUrl media) = false
  end.

Definition worldOk (w : World) : Prop :=
  (forall id m, db w !! id = Some m -> recordOk id m)
  /\ Forall jobOk (jobs w).

(** A computation that performs no update call: it leaves the collection
    as it is and adds no update to the trace. *)
Definition quiet {A} (m : M A) : Prop :=
  forall w, exists evs,
    trace (snd (m w)) = trace w ++ evs
    /\ dbUpdates evs = []
    /\ db (snd (m w)) = db w.

(** What the upload branches compute fits the invariant. *)
Definition computedOk (c : Computed) : Prop :=
  (c_isOptimized c = true /\ Js.truthy_opt (c_optimizedFileUrl c) = true)
  \/ (c_isOptimized c = false /\ c_optimizedFileUrl c = None).


(** ** A concrete run, for the instances at the end *)

Definition exOwner : string := "64b7f0c2a1d3e4f5a6b7c8d9".
Definition exOther : string := "64b7f0c2a1d3e4f5a6b7c8da".
Definition exFileUuid : string := "123e4567-e89b-42d3-a456-426614174000".
Definition exUuid : string := "9f1c2b3a-4d5e-4f60-8a7b-0c1d2e3f4a5b".
Definition exId : string := "64b7f0c2a1d3e4f5a6b7c8e0".
Definition exHost : string := "media.example".

(** An empty installation with one account. *)
Definition exEmpty : World :=
  {| fs := ∅; db := ∅; users := {[exOwner]}; jobs := []; trace := [] |}.

Definition exImagePart : Part :=
  {| part_originalname := "photo.png"; part_mimetype := "image/png";
     part_bytes := 1000 |}.

Definition exVideoPart : Part :=
  {| part_originalname := "clip.mp4"; part_mimetype := "video/mp4";
     part_bytes := 9000 |}.

(** Both sharp runs succeed. *)
Definition exEnv : Env.t :=
  {| Env.encoded := Some 700%N; Env.thumbnail := Some 50%N;
     Env.fileUuid := exFileUuid; Env.uuid := exUuid; Env.objectId := exId |}.

(** The first sharp run succeeds, the thumbnail run fails. *)
Definition exEnvThumbFails : Env.t :=
  {| Env.encoded := Some 700%N; Env.thumbnail := None;
     Env.fileUuid := exFileUuid; Env.uuid := exUuid; Env.objectId := exId |}.

(** The request of the owner for the record [exId]. *)
Definition exReq : Req.t :=
  {| Req.file := None; Req.user := Some exOwner; Req.userId := Some exOwner;
     Req.protocol := "https"; Req.host := exHost; Req.id := exId |}.

(** The world after photo.png went through POST /api/media. *)
Definition exAfterImage : World :=
  snd (routeUpload exOwner exHost (Some exImagePart) exEnv exEmpty).

(** The world after clip.mp4 went through POST /api/media. *)
Definition exAfterVideo : World :=
  snd (routeUpload exOwner exHost (Some exVideoPart) exEnv exEmpty).

(** The record the image upload created. *)
Definition exImageRecord : Media :=
  {| _id := exId;
     fileName := "123e4567-e89b-42d3-a456-426614174000.webp";
     originalFileName := "photo.png";
     fileType := "image/png";
     fileSize := 700;
     fileUrl := "https://media.example/uploads/64b7f0c2a1d3e4f5a6b7c8d9/images/optimized/123e4567-e89b-42d3-a456-426614174000.webp";
     thumbnailUrl := Some "https://media.example/uploads/64b7f0c2a1d3e4f5a6b7c8d9/thumbnails/thumb_123e4567-e89b-42d3-a456-426614174000.webp";
     userId := exOwner;
     optimizedFileUrl := Some "https://media.example/uploads/64b7f0c2a1d3e4f5a6b7c8d9/images/optimized/123e4567-e89b-42d3-a456-426614174000.webp";
     isOptimized := true |}.

(** The record the video upload created. *)
Definition exVideoRecord : Media :=
  {| _id := exId;
     fileName := "123e4567-e89b-42d3-a456-426614174000.mp4";
     originalFileName := "clip.mp4";
     fileType := "video/mp4";
     fileSize := 9000;
     fileUrl := "https://media.example/uploads/64b7f0c2a1d3e4f5a6b7c8d9/videos/123e4567-e89b-42d3-a456-426614174000.mp4";
     thumbnailUrl := Some "https://media.example/uploads/64b7f0c2a1d3e4f5a6b7c8d9/thumbnails/thumb_123e4567-e89b-42d3-a456-426614174000.jpg";
     userId := exOwner;
     optimizedFileUrl := None;
     isOptimized := false |}.

(** photo.png as the disk storage of POST /api/media stored it. *)
Definition exImageFile : File.t :=
  {| File.originalname := "photo.png";
     File.mimetype := "image/png";
     File.size := 1000;
     File.destination := "uploads/64b7f0c2a1d3e4f5a6b7c8d9/images";
     File.filename := "123e4567-e89b-42d3-a456-426614174000.png";
     File.path := "uploads/64b7f0c2a1d3e4f5a6b7c8d9/images/123e4567-e89b-42d3-a456-426614174000.png" |}.

(** The world after multer stored photo.png, before the handler runs. *)
Definition exStoredImage : World :=
  run (multerSingle fileFilter (storageDestination (Some exOwner)) exFileUuid
         (Some exImagePart)) exEmpty.

(** The upload request the handler then receives. *)
Definition exUploadReq : Req.t :=
  {| Req.file := Some exImageFile; Req.user := Some exOwner;
     Req.userId := Some exOwner; Req.protocol := "https";
     Req.host := exHost; Req.id := "" |}.

Definition exOptimizedPath : string :=
  "uploads/64b7f0c2a1d3e4f5a6b7c8d9/images/optimized/123e4567-e89b-42d3-a456-426614174000.webp".

(** clip.mp4 as the disk storage of POST /api/media stored it. *)
Definition exVideoFile : File.t :=
  {| File.originalname := "clip.mp4";
     File.mimetype := "video/mp4";
     File.size := 9000;
     File.destination := "uploads/64b7f0c2a1d3e4f5a6b7c8d9/videos";
     File.filename := "123e4567-e89b-42d3-a456-426614174000.mp4";
     File.path := "uploads/64b7f0c2a1d3e4f5a6b7c8d9/videos/123e4567-e89b-42d3-a456-426614174000.mp4" |}.

Definition exStoredVideo : World :=
  run (multerSingle fileFilter (storageDestination (Some exOwner)) exFileUuid
         (Some exVideoPart)) exEmpty.

Definition exVideoUploadReq : Req.t :=
  {| Req.file := Some exVideoFile; Req.user := Some exOwner;
     Req.userId := Some exOwner; Req.protocol := "https";
     Req.host := exHost; Req.id := "" |}.

Definition exVideoPath : string :=
  "uploads/64b7f0c2a1d3e4f5a6b7c8d9/videos/123e4567-e89b-42d3-a456-426614174000.mp4".

Definition exVideoOptimizedPath : string :=
  "uploads/64b7f0c2a1d3e4f5a6b7c8d9/videos/optimized/opt_123e4567-e89b-42d3-a456-426614174000.mp4".

Definition exThumbnailPath : string :=
  "uploads/64b7f0c2a1d3e4f5a6b7c8d9/thumbnails/thumb_123e4567-e89b-42d3-a456-426614174000.jpg".

(** The two jobs the video upload launched. *)
Definition exScreenshot : Job :=
  Screenshot exVideoPath "uploads/64b7f0c2a1d3e4f5a6b7c8d9/thumbnails"
    "thumb_123e4567-e89b-42d3-a456-426614174000.jpg".

Definition exTranscode : Job :=
  TranscodeUpload exVideoPath exVideoOptimizedPath exUuid
    "https://media.example/uploads/64b7f0c2a1d3e4f5a6b7c8d9/videos/optimized/opt_123e4567-e89b-42d3-a456-426614174000.mp4"
    exVideoPath "123e4567-e89b-42d3-a456-426614174000.mp4".

(** The world after the transcode of the upload completed successfully,
    writing 4000 bytes, while the screenshot job is still pending. *)
Definition exAfterTranscode : World :=
  complete exTranscode (Some 4000%N) (with_jobs [exScreenshot] exAfterVideo).

(** The world after the screenshot job failed. *)
Definition exAfterScreenshotFailed : World :=
  complete exScreenshot None (with_jobs [exTranscode] exAfterVideo).

(** A collection holding an image record that is not optimized (a record
    written before uploads converted images), with its file on disk. *)
Definition exLegacyRecord : Media :=
  {| _id := exId;
     fileName := "old.png";
     originalFileName := "old.png";
     fileType := "image/png";
     fileSize := 5000;
     fileUrl := "https://media.example/uploads/64b7f0c2a1d3e4f5a6b7c8d9/images/old.png";
     thumbnailUrl := None;
     userId := exOwner;
     optimizedFileUrl := None;
     isOptimized := false |}.

Definition exLegacy : World :=
  {| fs := {[ "uploads/64b7f0c2a1d3e4f5a6b7c8d9/images/old.png" := FileNode 5000 ]};
     db := {[ exId := exLegacyRecord ]};
     users := {[exOwner]}; jobs := []; trace := [] |}.

Definition exLegacyOptimizedUrl : string :=
  "https://media.example/uploads/64b7f0c2a1d3e4f5a6b7c8d9/images/optimized/opt_old.webp".

(** ** Further notions used by the properties of the handlers *)

(** The record belongs to the requester: the requester's id casts to the
    [userId] of the record. *)
Definition ownedBy (requester : option string) (m : Media) : Prop :=
  exists owner, requester = Some owner /\ castObjectId owner = Some (userId m).

(** What an upload does to the collection: answered 201, it added the
    returned record under the ObjectId the driver generated, which was
    free; answered otherwise, it reports an error and the collection is as
    it was. *)
Definition uploadOutcome (env : Env.t) (w : World) (r : Response)
    (w' : World) : Prop :=
  (status r = 201
   /\ exists media,
        body r = BUploaded media
        /\ _id media = Env.objectId env
        /\ db w !! _id media = None
        /\ db w' = <[_id media := media]> (db w))
  \/ (status r <> 201
      /\ (exists msg, body r = BError msg)
      /\ db w' = db w).

(** A branch of an upload leaves the collection alone, and fails only with
    an error of a library. *)
Definition branchOk (m : M Computed) (w : World) : Prop :=
  match m w with
  | (Ok _, w1) => db w1 = db w
  | (Throw e, w1) => (exists msg, e = LibError msg) /\ db w1 = db w
  end.

(** What an accepted upload of a document leaves behind: the record
    describes the file as the disk storage stored it, without thumbnail and
    without optimized version; no file is touched and no job launched. *)
Definition documentUploaded (owner host : string) (file : File.t)
    (w : World) (r : Response) (w' : World) : Prop :=
  exists media,
    body r = BUploaded media
    /\ fileName media = File.filename file
    /\ originalFileName media = File.originalname file
    /\ fileType media = File.mimetype file
    /\ fileSize media = File.size file
    /\ fileUrl media
       = "https://" +:+ host +:+ "/uploads/" +:+ owner +:+ "/"
           +:+ uploadMediaType (File.mimetype file) +:+ "/"
           +:+ File.filename file
    /\ thumbnailUrl media = None
    /\ optimizedFileUrl media = None
    /\ isOptimized media = false
    /\ fs w' = fs w /\ jobs w' = jobs w
    /\ db w' = <[_id media := media]> (db w).



(** The record of an image after optimizeMedia converted it to WebP and
    wrote [size] bytes. *)
Definition reoptimizedImage (owner baseUrl : string) (size : N)
    (media : Media) : Media :=
  let url :=
    baseUrl +:+ "/uploads/" +:+ owner +:+ "/" +:+ "images"
            +:+ "/optimized/"
            +:+ "opt_" +:+ Path.parse_name (fileName media) +:+ ".webp" in
  setFileUrl url (setOptimized url size media).

(** ** Invariants of the records *)

(** A property of records holds of every record of the collection. *)
Definition allRecords (I : Media -> Prop) (w : World) : Prop :=
  forall id m, db w !! id = Some m -> I m.

(** What the validators of the schema guarantee of a stored record, in the
    fields no update touches: the required strings are not empty and
    [userId] is an ObjectId in its canonical form. *)
Definition schemaOk (m : Media) : Prop :=
  fileName m <> "" /\ originalFileName m <> "" /\ fileType m <> ""
  /\ castObjectId (userId m) = Some (userId m).

(** A computation keeps a property of the worlds, whether it returns or
    throws. *)
Definition keeps {A} (P : World -> Prop) (m : M A) : Prop :=
  triple P m (fun _ => P) P.



(** ** Listing (getUserMedia and getMediaById of both controllers)

    Strings are sequences of 8-bit code units.  Numbers are integers:
    [parseInt] and the arithmetic of the handlers are exact on them, as
    they are in the language below 2^53. *)

(** The white space [parseInt] skips; of the white space of the language,
    these code units fall in the 8-bit range. *)
Definition isWhiteSpace (c : ascii) : bool :=
  bool_decide (nat_of_ascii c ∈ [9; 10; 11; 12; 13; 32; 160]%nat).

Fixpoint trimStart (s : string) : string :=
  match s with
  | EmptyString => EmptyString
  | String c s' => if isWhiteSpace c then trimStart s' else s
  end.











(** The bodies of the answers of the reading handlers; a record stands for
    the fields the handlers show of it. *)
Inductive ReadBody :=
| RError (message : string)
| RPage (count total page pages : Z) (media : list Media)
| RMedia (media : Media).

Record ReadResponse := { r_status : nat; r_body : ReadBody }.

(** [res.status(error.statusCode || 500).json({ error: true,
     message: error.message || fallback })] *)
Definition readError (fallback : string) (e : Error) : ReadResponse :=
  match e with
  | ApiError msg code =>
      {| r_status := if (code =? 0)%nat then 500 else code;
         r_body := RError (if Js.truthy msg then msg else fallback) |}
  | LibError msg =>
      {| r_status := 500;
         r_body := RError (if Js.truthy msg then msg else fallback) |}
  end.

Definition readHandler (fallback : string) (body : M ReadResponse)
    : World -> ReadResponse * World :=
  fun w =>
    match body w with
    | (Ok r, w') => (r, w')
    | (Throw e, w') => (readError fallback e, w')
    end.




(** The answer to a lookup, the same text in both controllers. *)
Definition respondFound (found : option Media) : M ReadResponse :=
  match found with
  | None => throw (ApiError "Media not found" 404)
  | Some media => ret {| r_status := 200; r_body := RMedia media |}
  end.

(** [getMediaById] of media.controller.ts (GET /api/media/:id). *)
Definition getMediaById (req : Req.t) : World -> ReadResponse * World :=
  readHandler "An error occurred retrieving media"
    (let mediaId := Req.id req in
     match Req.user req with
     | None =>
         ret {| r_status := 401; r_body := RError "User not authenticated" |}
     | Some userId =>
         found <- Media_findOne mediaId userId ;;
         respondFound found
     end).

(** [await Media.findOne({ _id: mediaId, userId })] where [userId] may be
    [undefined]: the driver sends an undefined value as null, and no record
    has a null [userId], the field being required. *)
Definition Media_findOne_by (mediaId : string) (userId' : option string)
    : M (option Media) :=
  match userId' with
  | Some u => Media_findOne mediaId u
  | None =>
      fun w =>
        match castObjectId mediaId with
        | Some _ => (Ok None, w)
        | None => (Throw (LibError "Cast to ObjectId failed"), w)
        end
  end.

(** [getMediaById] of external.controller.ts
    (GET /api/external/media/:id). *)
Definition externalGetMediaById (req : Req.t)
    : World -> ReadResponse * World :=
  readHandler "An error occurred retrieving media"
    (let mediaId := Req.id req in
     found <- Media_findOne_by mediaId (Req.userId req) ;;
     respondFound found).



(** What a lookup by id answers to a requester: the record with that id
    when it belongs to the requester, and "Media not found" both when there
    is no such record and when it belongs to somebody else.  The lookup
    changes nothing. *)
Definition lookupOk (requester : option string) (mediaId : string)
    (w : World) (r : ReadResponse) (w' : World) : Prop :=
  w' = w
  /\ (forall m, r_body r = RMedia m ->
        r_status r = 200 /\ ownedBy requester m
        /\ exists id, castObjectId mediaId = Some id /\ db w !! id = Some m)
  /\ (forall id m,
        castObjectId mediaId = Some id -> db w !! id = Some m ->
        ownedBy requester m ->
        r = {| r_status := 200; r_body := RMedia m |})
  /\ (forall id owner uid,
        requester = Some owner -> castObjectId owner = Some uid ->
        castObjectId mediaId = Some id ->
        (forall m, db w !! id = Some m -> userId m <> uid) ->
        r = {| r_status := 404; r_body := RError "Media not found" |}).


(** ** API keys (models/ApiKey.ts, controllers/apiKey.controller.ts,
    middleware/apiKey.middleware.ts) *)

(** [s.trim()], on 8-bit code units. *)
Fixpoint trimEnd (s : string) : string :=
  match s with
  | EmptyString => EmptyString
  | String c s' =>
      match trimEnd s' with
      | EmptyString => if isWhiteSpace c then EmptyString
                       else String c EmptyString
      | rest => String c rest
      end
  end.

Definition trim (s : string) : string := trimEnd (trimStart s).

(** A document of the ApiKey collection; times are milliseconds. *)
Record ApiKey := {
  k_id : string;
  k_key : string;
  k_name : string;
  k_userId : string;
  k_createdAt : N;
  k_lastUsed : option N
}.

#[global] Instance ApiKey_eq_dec : EqDecision ApiKey.
Proof. solve_decision. Defined.

(** The ApiKey collection is a map from [_id] to document,
    [gmap string ApiKey]. *)

(** [await ApiKey.findOne(filter)]: the first document that satisfies the
    filter, in the order of the collection. *)
Definition ApiKey_findOne (P : ApiKey -> bool) (keys : gmap string ApiKey)
    : option ApiKey :=
  snd <$> list_find (fun k => P k = true) ((map_to_list keys).*2).

(** What the environment decides while a key is created: the string
    [crypto.randomBytes(32).toString('hex')] returns, the ObjectId the
    driver gives the document, and the time. *)
Record KeyEnv := {
  ke_generated : string;
  ke_objectId : string;
  ke_now : N
}.

Inductive KeyBody :=
| KError (message : string)
| KCreated (id name key : string) (createdAt : N)
| KList (count : Z) (apiKeys : list ApiKey)
| KDeleted (id : string).

Record KeyResponse := { k_status : nat; k_body : KeyBody }.

(** [await ApiKey.create({ key, name, userId })]: the [trim] setter of
    [name], the [required] validators, the unique index on [key]. *)
Definition ApiKey_create (key name userId : string) (env : KeyEnv)
    (keys : gmap string ApiKey) : Result ApiKey * gmap string ApiKey :=
  let doc := {| k_id := ke_objectId env; k_key := key;
                k_name := trim name; k_userId := userId;
                k_createdAt := ke_now env; k_lastUsed := None |} in
  if negb (Js.truthy key)
  then (Throw (LibError "ApiKey validation failed: key: API key is required"),
        keys)
  else if negb (Js.truthy (trim name))
  then (Throw (LibError
                 "ApiKey validation failed: name: API key name is required"),
        keys)
  else
    match ApiKey_findOne (fun k => bool_decide (k_key k = key)) keys,
          keys !! k_id doc with
    | None, None => (Ok doc, <[k_id doc := doc]> keys)
    | _, _ => (Throw (LibError "E11000 duplicate key error"), keys)
    end.

(** [res.status(error.statusCode || 500).json({ error: true,
     message: error.message || fallback })] *)
Definition keyError (fallback : string) (e : Error) : KeyResponse :=
  match e with
  | ApiError msg code =>
      {| k_status := if (code =? 0)%nat then 500 else code;
         k_body := KError (if Js.truthy msg then msg else fallback) |}
  | LibError msg =>
      {| k_status := 500;
         k_body := KError (if Js.truthy msg then msg else fallback) |}
  end.

(** [createApiKey] (POST /api/keys); [user] is [req.user._id], [name] is
    [req.body.name].  The setters of the schema run on the filter of a
    query as they do on a document, so the name is looked up trimmed. *)
Definition createApiKey (user : option string) (name : string)
    (env : KeyEnv) (keys : gmap string ApiKey) : KeyResponse * gmap string ApiKey :=
  match user with
  | None =>
      ({| k_status := 401; k_body := KError "User not authenticated" |}, keys)
  | Some userId =>
      match ApiKey_findOne
              (fun k => bool_decide (k_userId k = userId)
                        && bool_decide (k_name k = trim name)) keys with
      | Some _ =>
          (keyError "An error occurred creating API key"
             (ApiError "API key with this name already exists" 400), keys)
      | None =>
          match ApiKey_create (ke_generated env) name userId env keys with
          | (Ok apiKey, keys') =>
              ({| k_status := 201;
                  k_body := KCreated (k_id apiKey) (k_name apiKey)
                              (k_key apiKey) (k_createdAt apiKey) |}, keys')
          | (Throw e, keys') =>
              (keyError "An error occurred creating API key" e, keys')
          end
      end
  end.

(** [`${key.substring(0, 8)}...${key.substring(key.length - 4)}`] *)
Definition maskKey (key : string) : string :=
  let n := String.length key in
  String.substring 0 8 key +:+ "..."
    +:+ String.substring (n - 4) (n - (n - 4)) key.

Definition masked (k : ApiKey) : ApiKey :=
  {| k_id := k_id k; k_key := maskKey (k_key k); k_name := k_name k;
     k_userId := k_userId k; k_createdAt := k_createdAt k;
     k_lastUsed := k_lastUsed k |}.

(** The keys of a user. *)
Definition keysOf (userId : string) (keys : gmap string ApiKey) : list ApiKey :=
  filter (fun k => k_userId k = userId) ((map_to_list keys).*2).

(** [getUserApiKeys] (GET /api/keys); [newestFirst] is the order in which
    the database returns the documents for [sort({ createdAt: -1 })]. *)
Definition getUserApiKeys (newestFirst : list ApiKey -> list ApiKey)
    (user : option string) (keys : gmap string ApiKey) : KeyResponse * gmap string ApiKey :=
  match user with
  | None =>
      ({| k_status := 401; k_body := KError "User not authenticated" |}, keys)
  | Some userId =>
      let apiKeys := newestFirst (keysOf userId keys) in
      ({| k_status := 200;
          k_body := KList (Z.of_nat (length apiKeys))
                      (masked <$> apiKeys) |}, keys)
  end.

(** [deleteApiKey] (DELETE /api/keys/:id) *)
Definition deleteApiKey (user : option string) (keyId : string)
    (keys : gmap string ApiKey) : KeyResponse * gmap string ApiKey :=
  match user with
  | None =>
      ({| k_status := 401; k_body := KError "User not authenticated" |}, keys)
  | Some userId =>
      match castObjectId keyId with
      | None =>
          (keyError "An error occurred deleting API key"
             (LibError "Cast to ObjectId failed"), keys)
      | Some id =>
          match keys !! id with
          | Some k =>
              if bool_decide (k_userId k = userId)
              then ({| k_status := 200; k_body := KDeleted keyId |},
                    delete id keys)
              else (keyError "An error occurred deleting API key"
                      (ApiError "API key not found" 404), keys)
          | None =>
              (keyError "An error occurred deleting API key"
                 (ApiError "API key not found" 404), keys)
          end
      end
  end.

(** What becomes of a request in [validateApiKey]: it is rejected, or
    passed on with [req.userId] set. *)
Inductive Validation :=
| Rejected (status : nat) (message : string)
| Passed (userId : string).

(** The document [k] after [keyDoc.lastUsed = new Date()] at time
    [now]. *)
Definition usedAt (now : N) (k : ApiKey) : ApiKey :=
  {| k_id := k_id k; k_key := k_key k; k_name := k_name k;
     k_userId := k_userId k; k_createdAt := k_createdAt k;
     k_lastUsed := Some now |}.

(** [validateApiKey]; [header] is [req.headers['x-api-key']], [now] the
    time. *)
Definition validateApiKey (header : option string) (now : N) (keys : gmap string ApiKey)
    : Validation * gmap string ApiKey :=
  if negb (Js.truthy_opt header)
  then (Rejected 401 "API key is required", keys)
  else
    let apiKey := default "" header in
    match ApiKey_findOne (fun k => bool_decide (k_key k = apiKey)) keys with
    | None => (Rejected 401 "Invalid API key", keys)
    | Some keyDoc =>
        (Passed (k_userId keyDoc),
         <[k_id keyDoc := usedAt now keyDoc]> keys)
    end.

(** What the collection keeps: every document is stored under its [_id]
    and has a key and a name, no two documents have the same key (the
    unique index), and no two documents of one user have the same name. *)
Definition keysOk (keys : gmap string ApiKey) : Prop :=
  (forall id k, keys !! id = Some k ->
     k_id k = id /\ k_key k <> "" /\ k_name k <> "")
  /\ (forall id1 id2 k1 k2,
        keys !! id1 = Some k1 -> keys !! id2 = Some k2 ->
        k_key k1 = k_key k2 -> id1 = id2)
  /\ (forall id1 id2 k1 k2,
        keys !! id1 = Some k1 -> keys !! id2 = Some k2 ->
        k_userId k1 = k_userId k2 -> k_name k1 = k_name k2 -> id1 = id2).

(** The keys a listing shows. *)
Definition listed (r : KeyResponse) : list ApiKey :=
  match k_body r with
  | KList _ apiKeys => apiKeys
  | _ => []
  end.

(** One request on the ApiKey collection. *)
Inductive keyStep : gmap string ApiKey -> gmap string ApiKey -> Prop :=
| keyStep_create user name env keys :
    keyStep keys (snd (createApiKey user name env keys))
| keyStep_delete user keyId keys :
    keyStep keys (snd (deleteApiKey user keyId keys))
| keyStep_validate header now keys :
    keyStep keys (snd (validateApiKey header now keys)).

Inductive keysReachable : gmap string ApiKey -> Prop :=
| keysReachable_init : keysReachable ∅
| keysReachable_step keys keys' :
    keysReachable keys -> keyStep keys keys' -> keysReachable keys'.


(** ** The other helpers of utils/index.ts *)

(** [truncateText(text, maxLength)], for an integer [maxLength]:
    [text.substring(0, maxLength)] takes a negative length as zero. *)
Definition truncateText (text : string) (maxLength : Z) : string :=
  if (Z.of_nat (String.length text) <=? maxLength)%Z then text
  else String.substring 0 (Z.to_nat maxLength) text +:+ "...".

(** [isAllowedFileType(fileType, allowedTypes)] and the default of its
    second parameter. *)
Definition defaultAllowedTypes : list string :=
  ["image/jpeg"; "image/png"; "image/gif"; "image/webp";
   "video/mp4"; "video/mpeg"; "video/webm";
   "application/pdf"].

Definition isAllowedFileType (fileType : string) (allowedTypes : list string)
    : bool :=
  bool_decide (fileType ∈ allowedTypes).

(** [getMediaTypeLabel(fileType)] *)
Definition getMediaTypeLabel (fileType : string) : string :=
  if isImage fileType then "Image"
  else if isVideo fileType then "Video"
  else if bool_decide (fileType = "application/pdf") then "PDF"
  else if Js.includes fileType "word" then "Document"
  else if Js.includes fileType "excel" || Js.includes fileType "spreadsheet"
  then "Spreadsheet"
  else "File".

(** *** [slugify(text)]

    On 8-bit code units: [toLowerCase] maps A-Z and the capital letters of
    Latin-1 to their small letters, [\s] is the white space [parseInt]
    skips, [\w] is a letter of A-Z or a-z, a digit or "_". *)

Definition toLowerChar (c : ascii) : ascii :=
  let n := nat_of_ascii c in
  if ((65 <=? n) && (n <=? 90)
      || (192 <=? n) && (n <=? 222) && negb (n =? 215))%nat
  then ascii_of_nat (n + 32) else c.

(** [s.toLowerCase()] *)
Definition toLowerCase (s : string) : string := string_map toLowerChar s.

Definition dash : ascii := "-"%char.

(** [s.replace(/\s+/g, '-')]; [inRun] tells that the previous character
    was white space, which the dash already written stands for. *)
Fixpoint dashSpaces (inRun : bool) (s : string) : string :=
  match s with
  | EmptyString => EmptyString
  | String c s' =>
      if isWhiteSpace c
      then (if inRun then dashSpaces true s'
            else String dash (dashSpaces true s'))
      else String c (dashSpaces false s')
  end.

Definition isWordChar (c : ascii) : bool :=
  let n := nat_of_ascii c in
  ((48 <=? n) && (n <=? 57) || (65 <=? n) && (n <=? 90)
   || (97 <=? n) && (n <=? 122) || (n =? 95))%nat.

(** [s.replace(/[^\w\-]+/g, '')] *)
Fixpoint keepWordChars (s : string) : string :=
  match s with
  | EmptyString => EmptyString
  | String c s' =>
      if isWordChar c || bool_decide (c = dash)
      then String c (keepWordChars s')
      else keepWordChars s'
  end.

(** [s.replace(/\-\-+/g, '-')]; [afterDash] tells that the previous
    character was a dash. *)
Fixpoint squeezeDashes (afterDash : bool) (s : string) : string :=
  match s with
  | EmptyString => EmptyString
  | String c s' =>
      if bool_decide (c = dash)
      then (if afterDash then squeezeDashes true s'
            else String dash (squeezeDashes true s'))
      else String c (squeezeDashes false s')
  end.

(** [s.replace(/^-+/, '')] *)
Fixpoint dropLeadingDashes (s : string) : string :=
  match s with
  | EmptyString => EmptyString
  | String c s' => if bool_decide (c = dash) then dropLeadingDashes s' else s
  end.

(** [s.replace(/-+$/, '')] *)
Fixpoint dropTrailingDashes (s : string) : string :=
  match s with
  | EmptyString => EmptyString
  | String c s' =>
      match dropTrailingDashes s' with
      | EmptyString => if bool_decide (c = dash) then EmptyString
                       else String c EmptyString
      | rest => String c rest
      end
  end.

Definition slugify (text : string) : string :=
  dropTrailingDashes
    (dropLeadingDashes
       (squeezeDashes false
          (keepWordChars (dashSpaces false (toLowerCase text))))).

(** A character of a slug: a small letter, a digit, "_" or "-". *)
Definition isSlugChar (c : ascii) : bool :=
  let n := nat_of_ascii c in
  ((48 <=? n) && (n <=? 57) || (97 <=? n) && (n <=? 122)
   || (n =? 95) || (n =? 45))%nat.

(** No two dashes in a row; [afterDash] tells that a dash precedes. *)
Fixpoint noDoubleDash (afterDash : bool) (s : string) : bool :=
  match s with
  | EmptyString => true
  | String c s' =>
      if bool_decide (c = dash)
      then negb afterDash && noDoubleDash true s'
      else noDoubleDash false s'
  end.

Definition startsWithDash (s : string) : bool :=
  match s with
  | String c _ => bool_decide (c = dash)
  | EmptyString => false
  end.

(** The shape of a slug: small letters, digits, "_" and single dashes,
    with no dash at either end. *)
Definition isSlug (s : string) : bool :=
  string_forallb isSlugChar s && noDoubleDash false s
  && negb (startsWithDash s)
  && negb (bool_decide (Path.lastChar s = Some dash)).

(** A character that, if it is kept, is a character of a slug. *)
Definition slugIfKept (c : ascii) : bool :=
  implb (isWordChar c || bool_decide (c = dash)) (isSlugChar c).


(** ** Further concrete data, for the instances at the end *)

Definition exDocPart : Part :=
  {| part_originalname := "report.pdf"; part_mimetype := "application/pdf";
     part_bytes := 2000 |}.

(** report.pdf as the disk storage of POST /api/media stored it. *)
Definition exDocFile : File.t :=
  {| File.originalname := "report.pdf";
     File.mimetype := "application/pdf";
     File.size := 2000;
     File.destination := "uploads/64b7f0c2a1d3e4f5a6b7c8d9/documents";
     File.filename := "123e4567-e89b-42d3-a456-426614174000.pdf";
     File.path := "uploads/64b7f0c2a1d3e4f5a6b7c8d9/documents/123e4567-e89b-42d3-a456-426614174000.pdf" |}.

Definition exDocPath : string :=
  "uploads/64b7f0c2a1d3e4f5a6b7c8d9/documents/123e4567-e89b-42d3-a456-426614174000.pdf".

Definition exDocUrl : string :=
  "https://media.example/uploads/64b7f0c2a1d3e4f5a6b7c8d9/documents/123e4567-e89b-42d3-a456-426614174000.pdf".

Definition exStoredDoc : World :=
  run (multerSingle fileFilter (storageDestination (Some exOwner)) exFileUuid
         (Some exDocPart)) exEmpty.

Definition exDocUploadReq : Req.t :=
  {| Req.file := Some exDocFile; Req.user := Some exOwner;
     Req.userId := Some exOwner; Req.protocol := "https";
     Req.host := exHost; Req.id := "" |}.

(** The record the upload of report.pdf created. *)
Definition exDocRecord : Media :=
  {| _id := exId;
     fileName := "123e4567-e89b-42d3-a456-426614174000.pdf";
     originalFileName := "report.pdf";
     fileType := "application/pdf";
     fileSize := 2000;
     fileUrl := exDocUrl;
     thumbnailUrl := None;
     userId := exOwner;
     optimizedFileUrl := None;
     isOptimized := false |}.

(** The world after report.pdf went through POST /api/media. *)
Definition exAfterDoc : World :=
  snd (routeUpload exOwner exHost (Some exDocPart) exEnv exEmpty).







(** The creation of an API key named ci by the owner. *)
Definition exKey : string :=
  "0f1e2d3c4b5a69780f1e2d3c4b5a69780f1e2d3c4b5a69780f1e2d3c4b5a6978".

Definition exKeyId : string := "64b7f0c2a1d3e4f5a6b7c8f0".

Definition exKeyEnv : KeyEnv :=
  {| ke_generated := exKey; ke_objectId := exKeyId; ke_now := 1700000000000 |}.

Definition exKeys : gmap string ApiKey :=
  snd (createApiKey (Some exOwner) " ci " exKeyEnv ∅).

(** * Properties

    ** Strings and paths *)


Lemma str_app_cons c s t : String c s +:+ t = String c (s +:+ t).
Proof. reflexivity. Qed.

Lemma str_app_nil_l t : "" +:+ t = t.
Proof. reflexivity. Qed.

Lemma str_app_nil_r s : s +:+ "" = s.
Proof. induction s as [|c s IH]; [done|]. by rewrite str_app_cons, IH. Qed.

Lemma str_app_assoc s t u : (s +:+ t) +:+ u = s +:+ t +:+ u.
Proof. induction s as [|c s IH]; [done|]. by rewrite !str_app_cons, IH. Qed.

Lemma str_app_eq_nil s t : s +:+ t = "" -> s = "" /\ t = "".
Proof. destruct s; [done|]. rewrite str_app_cons. discriminate. Qed.

Lemma segments_nonempty s : Path.segments s <> [].
Proof.
  destruct s as [|c s]; simpl; [done|].
  case_bool_decide; [done|]. by destruct (Path.segments s).
Qed.

Lemma segments_app_slash a b :
  Path.segments (a +:+ String Path.slash b) = Path.segments a ++ Path.segments b.
Proof.
  induction a as [|c a IH].
  - rewrite str_app_nil_l. reflexivity.
  - rewrite str_app_cons. simpl. rewrite IH.
    case_bool_decide; [done|].
    pose proof (segments_nonempty a).
    by destruct (Path.segments a).
Qed.

Lemma segments_slashFree s : Path.slashFree s = true -> Path.segments s = [s].
Proof.
  induction s as [|c s IH]; simpl; [done|].
  intros [Hc Hs]%andb_true_iff.
  apply negb_true_iff, bool_decide_eq_false in Hc.
  rewrite bool_decide_eq_false_2 by done. by rewrite IH.
Qed.

Lemma unsegments_cons x y l :
  Path.unsegments (x :: y :: l) = x +:+ String Path.slash (Path.unsegments (y :: l)).
Proof. reflexivity. Qed.

Lemma segments_unsegments l :
  l <> [] -> Forall (fun s => Path.slashFree s = true) l ->
  Path.segments (Path.unsegments l) = l.
Proof.
  induction l as [|x [|y l] IH]; intros Hne Hall; [done| |].
  - simpl. apply segments_slashFree. by inversion Hall.
  - rewrite unsegments_cons, segments_app_slash.
    inversion Hall as [|?? Hx Hrest]; subst.
    rewrite (segments_slashFree x) by done.
    rewrite IH by done. done.
Qed.

Lemma plain_slashFree s : Path.plain s = true -> Path.slashFree s = true.
Proof. unfold Path.plain. rewrite !andb_true_iff. tauto. Qed.

Lemma plain_ne s : Path.plain s = true -> s <> "" /\ s <> "." /\ s <> "..".
Proof.
  unfold Path.plain. rewrite !andb_true_iff, !negb_true_iff, !bool_decide_eq_false.
  tauto.
Qed.

Lemma Forall_plain_slashFree l :
  Forall (fun s => Path.plain s = true) l -> Forall (fun s => Path.slashFree s = true) l.
Proof. induction 1; constructor; auto using plain_slashFree. Qed.

Lemma norm_step_plain allow S s :
  Path.plain s = true -> Path.norm_step allow S s = s :: S.
Proof.
  intros (H1 & H2 & H3)%plain_ne. unfold Path.norm_step.
  by rewrite !bool_decide_eq_false_2 by done.
Qed.

Lemma fold_norm_plain allow l S :
  Forall (fun s => Path.plain s = true) l ->
  fold_left (Path.norm_step allow) l S = rev l ++ S.
Proof.
  revert S. induction l as [|x l IH]; intros S Hall; [done|].
  inversion Hall; subst. simpl.
  rewrite norm_step_plain by done. rewrite IH by done.
  by rewrite <- List.app_assoc.
Qed.

Lemma unsegments_app_dirs S l :
  l <> [] -> Path.unsegments (S ++ l) = Path.dirs S +:+ Path.unsegments l.
Proof.
  intros Hl. induction S as [|x S IH]; [done|].
  simpl app. destruct (S ++ l) as [|y r] eqn:E.
  - by destruct S, l.
  - rewrite unsegments_cons, IH. simpl Path.dirs.
    by rewrite !str_app_assoc.
Qed.

Lemma lastChar_app a b : b <> "" -> Path.lastChar (a +:+ b) = Path.lastChar b.
Proof.
  intros Hb. induction a as [|c a IH]; [done|].
  rewrite str_app_cons. simpl. rewrite IH.
  destruct (a +:+ b) eqn:E; [|done].
  apply str_app_eq_nil in E as [_ ?]. done.
Qed.

Lemma lastChar_slashFree s : Path.slashFree s = true -> Path.lastChar s <> Some Path.slash.
Proof.
  induction s as [|c s IH]; simpl; [done|].
  intros [Hc Hs]%andb_true_iff.
  apply negb_true_iff, bool_decide_eq_false in Hc.
  destruct s; [congruence|]. by apply IH.
Qed.

Lemma unsegments_last_plain l :
  l <> [] -> Forall (fun s => Path.plain s = true) l ->
  Path.unsegments l <> "" /\ Path.trailingSeparator (Path.unsegments l) = false
  /\ Path.isAbsolute (Path.unsegments l) = false.
Proof.
  induction l as [|x [|y l] IH]; intros Hne Hall; [done| |].
  - inversion Hall; subst. simpl.
    pose proof (plain_ne x) as Hp. pose proof (plain_slashFree x) as Hs.
    split; [apply Hp; done|]. split.
    + apply bool_decide_eq_false. apply lastChar_slashFree. auto.
    + destruct x as [|c x]; [done|]. simpl.
      specialize (Hs ltac:(done)). simpl in Hs.
      apply andb_true_iff in Hs as [Hc _].
      by apply negb_true_iff in Hc.
  - inversion Hall as [|?? Hx Hrest]; subst.
    destruct (IH ltac:(done) Hrest) as (IH1 & IH2 & IH3).
    rewrite unsegments_cons.
    pose proof (plain_ne x Hx) as (Hx1 & _). pose proof (plain_slashFree x Hx) as Hs.
    split; [|split].
    + destruct x; [done|]. rewrite str_app_cons. discriminate.
    + unfold Path.trailingSeparator in *.
      rewrite lastChar_app by discriminate.
      change (String Path.slash (Path.unsegments (y :: l))) with ("/" +:+ Path.unsegments (y :: l)).
      rewrite lastChar_app by done. done.
    + destruct x as [|c x]; [done|]. rewrite str_app_cons. simpl.
      simpl in Hs. apply andb_true_iff in Hs as [Hc _].
      by apply negb_true_iff in Hc.
Qed.

Lemma isAbsolute_app b t : b <> "" -> Path.isAbsolute (b +:+ t) = Path.isAbsolute b.
Proof. by destruct b. Qed.

Lemma norm_segments_app_plain allow segs l :
  Forall (fun s => Path.plain s = true) l ->
  Path.norm_segments allow (segs ++ l) = Path.norm_segments allow segs ++ l.
Proof.
  intros Hl. unfold Path.norm_segments.
  rewrite fold_left_app, fold_norm_plain by done.
  by rewrite rev_app_distr, rev_involutive.
Qed.

Lemma normalize_dir_plain b l :
  b <> "" -> l <> [] -> Forall (fun s => Path.plain s = true) l ->
  Path.normalize (b +:+ String Path.slash (Path.unsegments l)) = Path.dirOf b +:+ Path.unsegments l.
Proof.
  intros Hb Hl Hall.
  destruct (unsegments_last_plain l Hl Hall) as (Hu1 & Hu2 & Hu3).
  unfold Path.normalize.
  rewrite bool_decide_eq_false_2; [|destruct b; [done|by rewrite str_app_cons]].
  rewrite isAbsolute_app by done.
  assert (Path.trailingSeparator (b +:+ String Path.slash (Path.unsegments l)) = false) as ->.
  { unfold Path.trailingSeparator in *. rewrite lastChar_app by done.
    change (String Path.slash (Path.unsegments l)) with ("/" +:+ Path.unsegments l).
    by rewrite lastChar_app. }
  rewrite segments_app_slash.
  rewrite (segments_unsegments l) by auto using Forall_plain_slashFree.
  rewrite norm_segments_app_plain by done.
  rewrite unsegments_app_dirs by done.
  rewrite bool_decide_eq_false_2.
  - unfold Path.dirOf. by rewrite str_app_nil_r, !str_app_assoc.
  - intros [_ ?]%str_app_eq_nil. done.
Qed.

Lemma normalize_plain l :
  l <> [] -> Forall (fun s => Path.plain s = true) l ->
  Path.normalize (Path.unsegments l) = Path.unsegments l.
Proof.
  intros Hl Hall.
  destruct (unsegments_last_plain l Hl Hall) as (Hu1 & Hu2 & Hu3).
  unfold Path.normalize.
  rewrite bool_decide_eq_false_2 by done. rewrite Hu2, Hu3.
  rewrite (segments_unsegments l) by auto using Forall_plain_slashFree.
  rewrite (norm_segments_app_plain _ [] l Hall).
  change (Path.norm_segments (negb false) [] ++ l) with l.
  rewrite bool_decide_eq_false_2 by done.
  by rewrite str_app_nil_r.
Qed.

Lemma filter_nonempty_plain (l : list string) :
  Forall (fun s => Path.plain s = true) l ->
  filter (fun a => a <> "") l = l.
Proof.
  induction 1 as [|x l Hx Hl IH]; [done|].
  rewrite filter_cons_True by (by apply plain_ne). by rewrite IH.
Qed.

(** [Path.join] of a directory and Path.plain Path.segments. *)
Lemma join_plain b l :
  l <> [] -> Forall (fun s => Path.plain s = true) l ->
  Path.join (b :: l) = Path.dirOf b +:+ Path.unsegments l.
Proof.
  intros Hl Hall. unfold Path.join.
  destruct (decide (b = "")) as [->|Hb].
  - rewrite filter_cons_False by (intros H; by apply H).
    rewrite filter_nonempty_plain by done.
    destruct l as [|x l]; [done|].
    rewrite normalize_plain by done. done.
  - rewrite filter_cons_True by done.
    rewrite filter_nonempty_plain by done.
    destruct l as [|x l]; [done|].
    rewrite unsegments_cons. by apply normalize_dir_plain.
Qed.

(** ** File classifier *)

Lemma startsWith_spec s p :
  Js.startsWith s p = true <-> exists rest, s = p +:+ rest.
Proof.
  unfold Js.startsWith. revert s.
  induction p as [|c p IH]; intros s.
  - split; [intros _; by exists s|]. intros _. by destruct s.
  - destruct s as [|d s]; simpl.
    + split; [done|]. intros [rest H]. by rewrite str_app_cons in H.
    + destruct (ascii_dec c d) as [->|Hne].
      * rewrite IH. split; intros [rest H]; exists rest.
        -- by rewrite str_app_cons, H.
        -- rewrite str_app_cons in H. congruence.
      * split; [done|]. intros [rest H]. rewrite str_app_cons in H. congruence.
Qed.

Lemma startsWith_app s p q :
  Js.startsWith s (p +:+ q) = true -> Js.startsWith s p = true.
Proof.
  rewrite !startsWith_spec. intros [rest ->]. exists (q +:+ rest).
  by rewrite str_app_assoc.
Qed.

Lemma isImage_not_isVideo m : isImage m = true -> isVideo m = false.
Proof.
  unfold isImage, isVideo. intros [rest ->]%startsWith_spec. reflexivity.
Qed.

(** C8. Classification of a MIME type yields image exactly when the type
    starts with "image/", video exactly when it starts with "video/", and
    document in every other case.  [classify] is a total function of the
    MIME type alone; the media type directory deleteMedia and optimizeMedia
    derive from the stored type is the same classification. *)
Theorem C8_classify_by_prefix (mimeType : string) :
  (classify mimeType = Image <-> exists rest, mimeType = "image/" +:+ rest)
  /\ (classify mimeType = Video <-> exists rest, mimeType = "video/" +:+ rest)
  /\ (classify mimeType = Document <->
        ~ (exists rest, mimeType = "image/" +:+ rest)
        /\ ~ (exists rest, mimeType = "video/" +:+ rest))
  /\ categoryOfDir (mediaTypeOf mimeType) = classify mimeType.
Proof.
  rewrite <- !startsWith_spec.
  change (Js.startsWith mimeType "image/") with (isImage mimeType).
  change (Js.startsWith mimeType "video/") with (isVideo mimeType).
  unfold classify, mediaTypeOf.
  destruct (isImage mimeType) eqn:Hi.
  - rewrite (isImage_not_isVideo _ Hi). intuition congruence.
  - destruct (isVideo mimeType) eqn:Hv; intuition congruence.
Qed.

(** The two prefix tests of the upload handlers differ on MIME types that
    no upload filter lets through. *)
Example uploadMediaType_without_filter :
  uploadMediaType "imagery/x" = "images" /\ classify "imagery/x" = Document
  /\ fileFilter "imagery/x" = false /\ externalFileFilter "imagery/x" = false.
Proof. by vm_compute. Qed.

Lemma externalFileFilter_agree m :
  externalFileFilter m = true ->
  uploadMediaType m = storageMediaType m
  /\ categoryOfDir (uploadMediaType m) = classify m.
Proof.
  unfold externalFileFilter, uploadMediaType, storageMediaType, classify,
    isImage, isVideo.
  intros [H|H]%orb_true_iff.
  - rewrite H. change "image/" with ("image" +:+ "/") in H.
    apply startsWith_app in H. by rewrite H.
  - pose proof (isImage_not_isVideo m) as Hn. unfold isImage, isVideo in Hn.
    destruct (Js.startsWith m "image/") eqn:Hi; [by rewrite Hn in H|].
    rewrite H.
    assert (Js.startsWith m "image" = false) as ->.
    { apply startsWith_spec in H as [rest ->]. done. }
    change "video/" with ("video" +:+ "/") in H.
    apply startsWith_app in H. by rewrite H.
Qed.

Lemma fileFilter_agree m :
  fileFilter m = true ->
  uploadMediaType m = storageMediaType m
  /\ categoryOfDir (uploadMediaType m) = classify m.
Proof.
  unfold fileFilter. intros H%bool_decide_eq_true.
  unfold allowedImages, allowedVideos, allowedDocuments in H. simpl in H.
  repeat (apply elem_of_cons in H as [->|H]; [by vm_compute|]).
  by apply elem_of_nil in H.
Qed.

(** C10. For every MIME type an upload route accepts (the file filter of
    the route lets it through), the media type directory the handler
    chooses by the prefixes "image" and "video" is the directory the disk
    storage chose by "image/" and "video/", and it stands for the branch
    that processes the file: images for the image branch, videos for the
    video branch, documents for the document branch. *)
Theorem C10_directory_agrees_with_branch (mimetype : string) :
  fileFilter mimetype = true \/ externalFileFilter mimetype = true ->
  uploadMediaType mimetype = storageMediaType mimetype
  /\ categoryOfDir (uploadMediaType mimetype) = classify mimetype
  /\ (uploadMediaType mimetype = "images" -> classify mimetype = Image)
  /\ (uploadMediaType mimetype = "videos" -> classify mimetype = Video).
Proof.
  intros H.
  assert (uploadMediaType mimetype = storageMediaType mimetype
          /\ categoryOfDir (uploadMediaType mimetype) = classify mimetype)
    as [H1 H2].
  { destruct H; auto using fileFilter_agree, externalFileFilter_agree. }
  repeat split; [done..| |]; intros E; rewrite E in H2; by rewrite <- H2.
Qed.

(** ** Storage layout resolver *)

Lemma slashFree_split a b x y :
  Path.slashFree a = true -> Path.slashFree b = true ->
  a +:+ String Path.slash x = b +:+ String Path.slash y -> a = b.
Proof.
  revert b. induction a as [|c a IH]; intros [|d b] Ha Hb E.
  - done.
  - rewrite str_app_nil_l, str_app_cons in E. simpl in Hb.
    apply andb_true_iff in Hb as [Hd _]. injection E as <- _. done.
  - rewrite str_app_nil_l, str_app_cons in E. simpl in Ha.
    apply andb_true_iff in Ha as [Hc _]. injection E as -> _. done.
  - rewrite !str_app_cons in E. injection E as -> E. f_equal.
    simpl in Ha, Hb.
    apply andb_true_iff in Ha as [_ Ha]. apply andb_true_iff in Hb as [_ Hb].
    by apply IH.
Qed.

Lemma under_ownerDir_iff owner other rest :
  Path.plain owner = true -> Path.plain other = true ->
  under (ownerDir other) (baseDir +:+ owner +:+ "/" +:+ rest) = true
  <-> other = owner.
Proof.
  intros Ho Hother. unfold under, ownerDir. rewrite startsWith_spec. split.
  - intros [r E]. rewrite !str_app_assoc in E.
    apply (inj (String.app baseDir)) in E.
    symmetry. eapply slashFree_split; [| |exact E];
      by apply plain_slashFree.
  - intros ->. exists rest. by rewrite !str_app_assoc.
Qed.

Lemma getUserFilePath_plain u c f :
  Path.plain u = true -> Path.plain c = true -> Path.plain f = true ->
  getUserFilePath u c f = baseDir +:+ u +:+ "/" +:+ c +:+ "/" +:+ f.
Proof.
  intros Hu Hc Hf. unfold getUserFilePath.
  rewrite join_plain by (done || by repeat constructor). done.
Qed.

Lemma getOptimizedPath_plain u c f :
  Path.plain u = true -> Path.plain c = true -> Path.plain f = true ->
  getOptimizedPath u c f
  = baseDir +:+ u +:+ "/" +:+ c +:+ "/optimized/" +:+ f.
Proof.
  intros Hu Hc Hf. unfold getOptimizedPath.
  rewrite join_plain by (done || by repeat constructor). done.
Qed.

Lemma getThumbnailPath_plain u f :
  Path.plain u = true -> Path.plain f = true ->
  getThumbnailPath u f = baseDir +:+ u +:+ "/thumbnails/" +:+ f.
Proof.
  intros Hu Hf. unfold getThumbnailPath.
  rewrite join_plain by (done || by repeat constructor). done.
Qed.

(** C9, as amended.  For every owner id, category and file name that are
    plain path segments (non-empty, without "/", other than "." and ".."),
    the resolved paths have exactly the shapes base/ownerId/category/filename,
    base/ownerId/category/optimized/filename and
    base/ownerId/thumbnails/filename; each lies under the owner's directory
    and under the directory of no other owner. *)
Theorem C9_layout_of_plain_segments (ownerId category filename : string) :
  Path.plain ownerId = true -> Path.plain category = true ->
  Path.plain filename = true ->
  layout ownerId category filename /\ isolated ownerId category filename.
Proof.
  intros Hu Hc Hf.
  assert (layout ownerId category filename) as HL.
  { unfold layout.
    auto using getUserFilePath_plain, getOptimizedPath_plain,
      getThumbnailPath_plain. }
  split; [exact HL|].
  destruct HL as (E1 & E2 & E3).
  intros p Hp. unfold resolvedPaths in Hp.
  assert (exists rest, p = baseDir +:+ ownerId +:+ "/" +:+ rest) as [rest ->].
  { repeat (apply elem_of_cons in Hp as [->|Hp]); [| | |by apply elem_of_nil in Hp].
    - rewrite E1. eauto.
    - rewrite E2. eauto.
    - rewrite E3. by exists ("thumbnails/" +:+ filename). }
  split.
  - by apply under_ownerDir_iff.
  - intros other Ho Hne.
    destruct (under (ownerDir other) _) eqn:E; [|done].
    apply under_ownerDir_iff in E; done.
Qed.

(** ** The names the handlers pass to the resolver are plain *)

Lemma slashFree_app a b :
  Path.slashFree (a +:+ b) = Path.slashFree a && Path.slashFree b.
Proof.
  induction a as [|c a IH]; [done|].
  rewrite str_app_cons. simpl. rewrite IH. by rewrite andb_assoc.
Qed.

Lemma str_length_app a b :
  String.length (a +:+ b) = String.length a + String.length b.
Proof. induction a as [|c a IH]; [done|]. rewrite str_app_cons. simpl. by f_equal. Qed.

Lemma segments_all_slashFree s :
  Forall (fun x => Path.slashFree x = true) (Path.segments s).
Proof.
  induction s as [|c s IH]; simpl; [by repeat constructor|].
  case_bool_decide as Hc; [by constructor|].
  destruct (Path.segments s) as [|h t]; inversion IH; subst.
  - repeat constructor. simpl. by rewrite bool_decide_eq_false_2.
  - constructor; [|done]. simpl. by rewrite bool_decide_eq_false_2.
Qed.

Lemma basename_slashFree p : Path.slashFree (Path.basename p) = true.
Proof.
  unfold Path.basename.
  pose proof (segments_all_slashFree p) as H.
  assert (Forall (fun x => Path.slashFree x = true)
            (rev (filter (fun a => a <> "") (Path.segments p)))) as H'.
  { apply Forall_forall. intros x Hx%list_elem_of_In%in_rev%list_elem_of_In.
    apply list_elem_of_filter in Hx as [_ Hx].
    by apply (proj1 (Forall_forall _ _) H). }
  destruct (rev _) as [|b l]; [done|]. by inversion H'.
Qed.

Lemma substring_slashFree n m s :
  Path.slashFree s = true -> Path.slashFree (String.substring n m s) = true.
Proof.
  revert n m. induction s as [|c s IH]; intros n m Hs.
  - by destruct n, m.
  - simpl in Hs. apply andb_true_iff in Hs as [Hc Hs].
    destruct n as [|n]; simpl.
    + destruct m as [|m]; [done|]. simpl. by rewrite Hc, IH.
    + by apply IH.
Qed.

Lemma parse_name_slashFree p : Path.slashFree (Path.parse_name p) = true.
Proof. apply substring_slashFree, basename_slashFree. Qed.

(** A slash-free name with a suffix of at least three characters is
    plain. *)
Lemma plain_suffixed prefix name suffix :
  Path.slashFree prefix = true -> Path.slashFree name = true ->
  Path.slashFree suffix = true -> 3 <= String.length suffix ->
  Path.plain (prefix +:+ name +:+ suffix) = true.
Proof.
  intros Hp Hn Hs Hlen. unfold Path.plain.
  rewrite !slashFree_app, Hp, Hn, Hs. simpl.
  assert (3 <= String.length (prefix +:+ name +:+ suffix)) as Hl.
  { rewrite !str_length_app. lia. }
  rewrite !bool_decide_eq_false_2; [done|..];
    intros E; rewrite E in Hl; simpl in Hl; lia.
Qed.

Lemma hex_not_slash c : isHexDigit c = true -> c <> Path.slash.
Proof. intros H ->. done. Qed.

Lemma hex_slashFree s :
  string_forallb isHexDigit s = true -> Path.slashFree s = true.
Proof.
  induction s as [|c s IH]; simpl; [done|].
  intros [Hc Hs]%andb_true_iff. rewrite IH by done.
  rewrite bool_decide_eq_false_2; [done|]. by apply hex_not_slash.
Qed.

Lemma objectId_plain s : isObjectIdString s = true -> Path.plain s = true.
Proof.
  unfold isObjectIdString. intros [Hlen Hhex]%andb_true_iff.
  apply Nat.eqb_eq in Hlen. unfold Path.plain.
  rewrite hex_slashFree by done. simpl.
  rewrite !bool_decide_eq_false_2; [done|..];
    intros E; rewrite E in Hlen; simpl in Hlen; lia.
Qed.

Lemma castObjectId_plain s u : castObjectId s = Some u -> Path.plain s = true.
Proof.
  unfold castObjectId. destruct (isObjectIdString s) eqn:E; [|done].
  intros _. by apply objectId_plain.
Qed.

Lemma webp_name_plain f : Path.plain (Path.parse_name f +:+ ".webp") = true.
Proof.
  change (Path.parse_name f +:+ ".webp")
    with ("" +:+ Path.parse_name f +:+ ".webp").
  apply plain_suffixed; auto using parse_name_slashFree. simpl. lia.
Qed.

Lemma thumb_name_plain f :
  Path.plain ("thumb_" +:+ Path.parse_name f +:+ ".webp") = true.
Proof.
  apply plain_suffixed; auto using parse_name_slashFree. simpl. lia.
Qed.

(** The optimized file and the thumbnail of an image upload are different
    files. *)
Lemma optimized_not_thumbnail u category f :
  Path.plain u = true -> Path.plain category = true ->
  category <> "thumbnails" ->
  getOptimizedPath u category (Path.parse_name f +:+ ".webp")
  <> getThumbnailPath u ("thumb_" +:+ Path.parse_name f +:+ ".webp").
Proof.
  intros Hu Hc Hne.
  rewrite getOptimizedPath_plain by auto using webp_name_plain.
  rewrite getThumbnailPath_plain by auto using thumb_name_plain.
  intros E. apply (inj (String.app baseDir)) in E.
  apply (inj (String.app u)) in E.
  apply (inj (String.app "/")) in E.
  apply Hne. eapply slashFree_split; [| |exact E];
    auto using plain_slashFree.
Qed.

(** ** Program logic *)

Lemma triple_ret {A} (a : A) (Q : A -> World -> Prop) E :
  triple (Q a) (ret a) Q E.
Proof. intros w H. exact H. Qed.

Lemma triple_throw {A} e (Q : A -> World -> Prop) (E : World -> Prop) :
  triple E (throw e) Q E.
Proof. intros w H. exact H. Qed.

Lemma triple_bind {A B} P (m : M A) (k : A -> M B) R Q E :
  triple P m R E -> (forall a, triple (R a) (k a) Q E) ->
  triple P (bind m k) Q E.
Proof.
  intros Hm Hk w HP. unfold bind. specialize (Hm w HP).
  destruct (m w) as [[a|e] w']; [|done]. by apply Hk.
Qed.

Lemma triple_conseq {A} (P P' : World -> Prop) (m : M A)
    (Q Q' : A -> World -> Prop) (E E' : World -> Prop) :
  triple P' m Q' E' ->
  (forall w, P w -> P' w) -> (forall a w, Q' a w -> Q a w) ->
  (forall w, E' w -> E w) ->
  triple P m Q E.
Proof.
  intros Hm HP HQ HE w Hw. specialize (Hm w (HP w Hw)).
  destruct (m w) as [[a|e] w']; auto.
Qed.

Lemma triple_weaken {A} (P P' : World -> Prop) (m : M A) Q E :
  triple P' m Q E -> (forall w, P w -> P' w) -> triple P m Q E.
Proof. intros Hm HP w Hw. by apply Hm, HP. Qed.

Lemma triple_tryCatch {A} P (body : M A) h Q E E' :
  triple P body Q E' -> (forall e, triple E' (h e) Q E) ->
  triple P (tryCatch body h) Q E.
Proof.
  intros Hb Hh w HP. unfold tryCatch. specialize (Hb w HP).
  destruct (body w) as [[a|e] w']; [done|]. by apply Hh.
Qed.

Lemma triple_when P (b : bool) m (E : World -> Prop) :
  (b = true -> triple P m (fun _ => P) E) ->
  triple P (when b m) (fun _ => P) E.
Proof. intros H. destruct b; [by apply H|]. apply (triple_ret tt (fun _ => P)). Qed.

(** *** Computations on the filesystem alone *)

Lemma fsOnly_ret {A} (a : A) : fsOnly (ret a).
Proof. by intros w. Qed.

Lemma fsOnly_throw {A} e : fsOnly (@throw A e).
Proof. by intros w. Qed.

Lemma fsOnly_bind {A B} (m : M A) (k : A -> M B) :
  fsOnly m -> (forall a, fsOnly (k a)) -> fsOnly (bind m k).
Proof.
  intros Hm Hk w. unfold bind. specialize (Hm w).
  destruct (m w) as [[a|e] w']; simpl in *; [|done].
  destruct (Hk a w') as [-> ->]. done.
Qed.

Lemma fsOnly_when b m : fsOnly m -> fsOnly (when b m).
Proof. intros H. destruct b; [done|]. apply fsOnly_ret. Qed.

Lemma fsOnly_existsSync p : fsOnly (existsSync p).
Proof. by intros w. Qed.

Lemma fsOnly_unlinkSync p : fsOnly (unlinkSync p).
Proof. intros w. unfold unlinkSync. by destruct (fs w !! p) as [[]|]. Qed.

Lemma fsOnly_mkdirSync p : fsOnly (mkdirSync p).
Proof. intros w. unfold mkdirSync. by destruct (fs w !! p) as [[]|]. Qed.

Lemma fsOnly_statSync_size p : fsOnly (statSync_size p).
Proof. intros w. unfold statSync_size. by destruct (fs w !! p) as [[]|]. Qed.

Lemma fsOnly_renameSync src dst : fsOnly (renameSync src dst).
Proof.
  intros w. unfold renameSync.
  destruct (fs w !! src); [|done]. by destruct (fs w !! dst) as [[]|].
Qed.

Lemma fsOnly_encode src dst o : fsOnly (encode src dst o).
Proof.
  intros w. unfold encode.
  destruct (fs w !! src) as [[]|]; [|done..].
  destruct o; [|done]. by destruct (fs w !! dst) as [[]|].
Qed.

Lemma fsOnly_sharp_toFile src dst o : fsOnly (sharp_toFile src dst o).
Proof.
  unfold sharp_toFile. case_bool_decide; [apply fsOnly_throw|].
  apply fsOnly_encode.
Qed.

Lemma fsOnly_console_log msg : fsOnly (console_log msg).
Proof. by intros w. Qed.

Lemma fsOnly_ensureDir dir : fsOnly (ensureDir dir).
Proof.
  apply fsOnly_bind; [apply fsOnly_existsSync|]. intros ex.
  apply fsOnly_when, fsOnly_mkdirSync.
Qed.

Lemma fsOnly_ensureUserDirExists userId subDir :
  fsOnly (ensureUserDirExists userId subDir).
Proof.
  unfold ensureUserDirExists.
  apply fsOnly_bind; [apply fsOnly_ensureDir|]. intros _.
  destruct (Js.truthy_opt subDir); [|apply fsOnly_ret].
  apply fsOnly_bind; [apply fsOnly_ensureDir|]. intros _. apply fsOnly_ret.
Qed.

Lemma fsOnly_unlinkIfExists p : fsOnly (unlinkIfExists p).
Proof.
  apply fsOnly_bind; [apply fsOnly_existsSync|]. intros ex.
  apply fsOnly_when, fsOnly_unlinkSync.
Qed.

Lemma fsOnly_forEach {A} (l : list A) f :
  (forall x, fsOnly (f x)) -> fsOnly (forEach l f).
Proof.
  intros Hf. induction l as [|x l IH]; [apply fsOnly_ret|].
  simpl. apply fsOnly_bind; [apply Hf|]. intros _. exact IH.
Qed.

Create HintDb fsOnly.

#[local] Hint Resolve fsOnly_ret fsOnly_throw fsOnly_existsSync
  fsOnly_unlinkSync fsOnly_mkdirSync fsOnly_statSync_size fsOnly_renameSync
  fsOnly_encode fsOnly_sharp_toFile fsOnly_console_log fsOnly_ensureDir
  fsOnly_ensureUserDirExists fsOnly_unlinkIfExists fsOnly_when : fsOnly.

(** A filesystem computation keeps every stable property. *)
Lemma triple_fsOnly {A} (m : M A) P :
  fsOnly m -> stable P -> triple P m (fun _ => P) P.
Proof.
  intros Hm HP w Hw. destruct (Hm w) as [Hdb Hjobs].
  destruct (m w) as [[a|e] w']; simpl in *; eauto.
Qed.

Lemma triple_bind_fs {A B} P (m : M A) (k : A -> M B) Q (E : World -> Prop) :
  fsOnly m -> stable P -> (forall w, P w -> E w) ->
  (forall a, triple P (k a) Q E) ->
  triple P (bind m k) Q E.
Proof.
  intros Hm HP HE Hk.
  eapply triple_bind; [|exact Hk].
  eapply triple_conseq; [by apply triple_fsOnly| | |]; simpl; auto.
Qed.

(** ** The invariant of the collection is kept by every step *)

Lemma truthy_true s : Js.truthy s = true <-> s <> "".
Proof.
  unfold Js.truthy. rewrite negb_true_iff, bool_decide_eq_false. done.
Qed.

Lemma str_app_nonempty_r s t : t <> "" -> s +:+ t <> "".
Proof. intros Ht [_ ?]%str_app_eq_nil. done. Qed.

Lemma stable_worldOk : stable worldOk.
Proof. intros w w' Hdb Hj [H1 H2]. split; by rewrite ?Hdb, ?Hj. Qed.

Lemma stable_lookup id m : stable (fun w => db w !! id = Some m).
Proof. intros w w' Hdb _ H. by rewrite Hdb. Qed.

Lemma stable_and P Q : stable P -> stable Q -> stable (fun w => P w /\ Q w).
Proof. intros HP HQ w w' Hdb Hj [H1 H2]. split; eauto. Qed.

#[local] Hint Resolve stable_worldOk stable_lookup stable_and : fsOnly.

Lemma worldOk_insert w id m :
  worldOk w -> recordOk id m -> worldOk (with_db (<[id := m]> (db w)) w).
Proof.
  intros [H1 H2] Hm. split; [|done]. intros id' m'. simpl.
  rewrite lookup_insert. case_decide; [|by apply H1].
  intros [= <-]. by subst.
Qed.

Lemma worldOk_updateRecord w id p m :
  worldOk w -> recordOk id (applyPatch p m) ->
  worldOk (updateRecord id p m w).
Proof.
  intros Hw Hm. unfold updateRecord.
  eapply stable_worldOk; [| |by apply (worldOk_insert w id)]; done.
Qed.

Lemma triple_Media_create fields :
  triple
    (fun w => worldOk w
       /\ forall doc, validateMedia fields = Some doc -> recordOk (_id doc) doc)
    (Media_create fields) (fun _ => worldOk) worldOk.
Proof.
  intros w [Hw Hdoc]. unfold Media_create.
  destruct (validateMedia fields) as [doc|]; [|done].
  destruct (db w !! _id doc); [done|].
  eapply stable_worldOk; [| |apply (worldOk_insert w (_id doc) doc)]; auto.
Qed.

Lemma triple_Media_findOne mediaId owner P :
  stable P ->
  triple P (Media_findOne mediaId owner)
    (fun found w =>
       P w /\ match found with
              | Some m => exists id, db w !! id = Some m
              | None => True
              end)
    P.
Proof.
  intros _ w HP. unfold Media_findOne.
  destruct (castObjectId mediaId) as [id|]; [|done].
  destruct (castObjectId owner) as [uid|]; [|done].
  destruct (db w !! id) as [m|] eqn:E; [|done].
  case_bool_decide; eauto.
Qed.

Lemma triple_Media_save loaded doc :
  triple
    (fun w => worldOk w
       /\ forall m, db w !! _id doc = Some m ->
            recordOk (_id doc) (applyPatch (modifiedPaths loaded doc) m))
    (Media_save loaded doc) (fun _ => worldOk) worldOk.
Proof.
  intros w [Hw Hm]. unfold Media_save.
  case_bool_decide; [done|].
  destruct (db w !! _id doc) as [m|] eqn:E; [|done].
  apply worldOk_updateRecord; auto.
Qed.

Lemma triple_Media_findByIdAndUpdate id p :
  (forall id' m, recordOk id' m -> recordOk id' (applyPatch p m)) ->
  triple worldOk (Media_findByIdAndUpdate id p) (fun _ => worldOk) worldOk.
Proof.
  intros Hp w Hw. unfold Media_findByIdAndUpdate.
  destruct (castObjectId id) as [oid|]; [|done].
  destruct (db w !! oid) as [m|] eqn:E; [|done].
  apply worldOk_updateRecord; [done|]. apply Hp. by apply Hw.
Qed.

Lemma triple_Media_deleteOne doc :
  triple worldOk (Media_deleteOne doc) (fun _ => worldOk) worldOk.
Proof.
  intros w [H1 H2]. split; [|done]. intros id m. simpl.
  rewrite lookup_delete. case_decide; [done|]. apply H1.
Qed.

Lemma triple_launch j :
  jobOk j -> triple worldOk (launch j) (fun _ => worldOk) worldOk.
Proof.
  intros Hj w [H1 H2]. split; [done|]. simpl.
  apply Forall_app. split; [done|]. by constructor.
Qed.

(** One step of a filesystem computation in a proof about [worldOk]. *)
Ltac fs_step :=
  eapply triple_bind_fs;
  [ eauto 10 with fsOnly | eauto with fsOnly | auto | intros ? ].

Lemma triple_ret' {A} (a : A) (P : World -> Prop) (Q : A -> World -> Prop) E :
  (forall w, P w -> Q a w) -> triple P (ret a) Q E.
Proof. intros H w Hw. by apply H. Qed.

Lemma url_nonempty baseUrl rest : baseUrl +:+ "/uploads/" +:+ rest <> "".
Proof. apply str_app_nonempty_r. discriminate. Qed.

Lemma url_truthy baseUrl rest :
  Js.truthy (baseUrl +:+ "/uploads/" +:+ rest) = true.
Proof. apply truthy_true, url_nonempty. Qed.

Lemma triple_ingestImage userId baseUrl mediaType file env :
  triple worldOk (ingestImage userId baseUrl mediaType file env)
    (fun c w => worldOk w /\ computedOk c) worldOk.
Proof.
  unfold ingestImage. do 6 fs_step.
  apply triple_ret'. intros w Hw. split; [done|]. left. split; [done|]. apply url_truthy.
Qed.

Lemma triple_ingestVideo userId baseUrl mediaType file env :
  triple worldOk (ingestVideo userId baseUrl mediaType file env)
    (fun c w => worldOk w /\ computedOk c) worldOk.
Proof.
  unfold ingestVideo. fs_step.
  eapply triple_bind; [by apply triple_launch|]. intros ?.
  fs_step.
  eapply triple_bind; [apply triple_launch; apply url_nonempty|]. intros ?.
  apply triple_ret'. intros w Hw. split; [done|]. by right.
Qed.

Lemma triple_externalIngestVideo userId baseUrl mediaType file env :
  triple worldOk (externalIngestVideo userId baseUrl mediaType file env)
    (fun c w => worldOk w /\ computedOk c) worldOk.
Proof.
  unfold externalIngestVideo. do 2 fs_step.
  eapply triple_bind; [by apply triple_launch|]. intros ?.
  do 2 fs_step.
  eapply triple_bind; [apply triple_launch; apply url_nonempty|]. intros ?.
  apply triple_ret'. intros w Hw. split; [done|]. by right.
Qed.

Lemma triple_ingestDocument userId baseUrl mediaType file :
  triple worldOk (ingestDocument userId baseUrl mediaType file)
    (fun c w => worldOk w /\ computedOk c) worldOk.
Proof.
  unfold ingestDocument.
  apply triple_ret'. intros w Hw. split; [done|]. by right.
Qed.

Lemma triple_createAndRespond userId file env c :
  computedOk c ->
  triple worldOk (createAndRespond userId file env c)
    (fun _ => worldOk) worldOk.
Proof.
  intros Hc. unfold createAndRespond.
  eapply triple_bind; [|intros media; apply (triple_ret _ (fun _ => worldOk))].
  eapply triple_weaken; [apply triple_Media_create|].
  intros w Hw. split; [done|]. intros doc Hdoc.
  unfold validateMedia in Hdoc. simpl in Hdoc.
  destruct (Js.truthy (c_newFileName c) && _ && _ && Js.truthy (c_fileUrl c))
    eqn:Hreq; [|done].
  apply andb_true_iff in Hreq as [_ Hurl]. apply truthy_true in Hurl.
  destruct (castObjectId userId); [|done]. injection Hdoc as <-.
  unfold recordOk. simpl. split; [done|]. split; [done|].
  destruct Hc as [[-> ->]|[-> ->]]; split; auto.
Qed.

Lemma triple_createAndRespond' userId file env c :
  triple (fun w => worldOk w /\ computedOk c)
    (createAndRespond userId file env c) (fun _ => worldOk) worldOk.
Proof. intros w [Hw Hc]. by apply triple_createAndRespond. Qed.

(** A handler keeps what its body keeps. *)
Lemma handler_keeps fallback body (P Q : World -> Prop) w :
  triple P body (fun _ => Q) Q -> P w -> Q (snd (handler fallback body w)).
Proof.
  intros H Hw. unfold handler. specialize (H w Hw).
  by destruct (body w) as [[r|e] w'].
Qed.

Lemma uploadMedia_keeps req env w :
  worldOk w -> worldOk (snd (uploadMedia req env w)).
Proof.
  apply handler_keeps.
  destruct (Req.file req) as [file|]; [|apply triple_throw].
  destruct (Req.user req) as [userId|];
    [|apply (triple_ret _ (fun _ => worldOk))].
  eapply triple_bind; [|intros c; apply triple_createAndRespond'].
  destruct (isImage _); [apply triple_ingestImage|].
  destruct (isVideo _); [apply triple_ingestVideo|].
  apply triple_ingestDocument.
Qed.

Lemma triple_User_findById userId P :
  stable P -> triple P (User_findById userId) (fun _ => P) P.
Proof.
  intros _ w HP. unfold User_findById. by destruct (castObjectId userId).
Qed.

Lemma externalUploadMedia_keeps req env w :
  worldOk w -> worldOk (snd (externalUploadMedia req env w)).
Proof.
  apply handler_keeps.
  destruct (Req.file req) as [file|]; [|apply triple_throw].
  destruct (negb (Js.truthy_opt (Req.userId req))); [apply triple_throw|].
  eapply triple_bind; [apply triple_User_findById, stable_worldOk|].
  intros user. destruct (negb user); [apply triple_throw|].
  eapply triple_bind; [|intros c; apply triple_createAndRespond'].
  destruct (isImage _); [apply triple_ingestImage|].
  destruct (isVideo _); [apply triple_externalIngestVideo|].
  apply triple_ingestDocument.
Qed.

Lemma triple_deleteFound userId mediaId media :
  triple worldOk (deleteFound userId mediaId media)
    (fun _ => worldOk) worldOk.
Proof.
  unfold deleteFound. do 3 fs_step.
  eapply triple_bind; [apply triple_Media_deleteOne|]. intros ?.
  by apply triple_ret'.
Qed.

Lemma triple_findThenDelete mediaId userId :
  triple worldOk
    (found <- Media_findOne mediaId userId ;;
     match found with
     | None => throw (ApiError "Media not found" 404)
     | Some media => deleteFound userId mediaId media
     end)
    (fun _ => worldOk) worldOk.
Proof.
  eapply triple_bind; [apply triple_Media_findOne, stable_worldOk|].
  intros [media|].
  - eapply triple_weaken; [apply triple_deleteFound|]. by intros w [? _].
  - eapply triple_weaken; [apply triple_throw|]. by intros w [? _].
Qed.

Lemma deleteMedia_keeps req w :
  worldOk w -> worldOk (snd (deleteMedia req w)).
Proof.
  apply handler_keeps.
  destruct (Req.user req) as [userId|]; [|by apply triple_ret'].
  apply triple_findThenDelete.
Qed.

Lemma externalDeleteMedia_keeps req w :
  worldOk w -> worldOk (snd (externalDeleteMedia req w)).
Proof.
  apply handler_keeps.
  destruct (negb (Js.truthy_opt (Req.userId req))); [apply triple_throw|].
  apply triple_findThenDelete.
Qed.

(** *** The update calls fit the invariant *)

Lemma patch_setOptimized_ok media url size id m :
  isOptimized media = false ->
  Js.truthy_opt (optimizedFileUrl media) = false ->
  url <> "" ->
  recordOk id m ->
  recordOk id (applyPatch (modifiedPaths media (setOptimized url size media)) m).
Proof.
  intros Hopt Hurl Hne (H1 & H2 & H3 & H4).
  assert (optimizedFileUrl media <> Some url) as Hdiff.
  { intros E. rewrite E in Hurl. simpl in Hurl.
    apply truthy_true in Hne. congruence. }
  unfold recordOk, applyPatch, modifiedPaths. simpl.
  rewrite (bool_decide_eq_false_2 _ Hdiff). rewrite Hopt. simpl.
  rewrite (bool_decide_eq_true_2 (fileUrl media = fileUrl media)) by done.
  simpl. repeat split; auto.
  intros _. left. by apply truthy_true.
Qed.

Lemma patch_setFileUrl_ok media url id m :
  url <> "" ->
  recordOk id m ->
  recordOk id (applyPatch (modifiedPaths media (setFileUrl url media)) m).
Proof.
  intros Hne (H1 & H2 & H3 & H4).
  unfold recordOk, applyPatch, modifiedPaths. simpl.
  repeat case_bool_decide; simpl; repeat split; auto; done.
Qed.

Lemma patch_transcoded_ok media url size id m :
  isOptimized media = false ->
  Js.truthy_opt (optimizedFileUrl media) = false ->
  url <> "" ->
  recordOk id m ->
  recordOk id
    (applyPatch
       (modifiedPaths media (setFileUrl url (setOptimized url size media))) m).
Proof.
  intros Hopt Hurl Hne (H1 & H2 & H3 & H4).
  assert (optimizedFileUrl media <> Some url) as Hdiff.
  { intros E. rewrite E in Hurl. simpl in Hurl.
    apply truthy_true in Hne. congruence. }
  unfold recordOk, applyPatch, modifiedPaths. simpl.
  rewrite (bool_decide_eq_false_2 _ Hdiff). rewrite Hopt. simpl.
  repeat split; auto.
  - by case_bool_decide.
  - intros _. left. by apply truthy_true.
Qed.

Lemma patch_markOptimized_ok media id :
  isImage (fileType media) = true ->
  Js.endsWith (fileName media) ".webp" = true ->
  recordOk id media ->
  recordOk id
    (applyPatch (modifiedPaths media (setIsOptimized true media)) media).
Proof.
  intros Himg Hwebp (H1 & H2 & H3 & H4).
  unfold recordOk, applyPatch, modifiedPaths. simpl.
  repeat case_bool_decide; simpl; repeat split; auto; try done.
Qed.

Lemma triple_save_worldOk loaded doc P :
  (forall w, P w -> worldOk w
     /\ forall m, db w !! _id doc = Some m ->
          recordOk (_id doc) (applyPatch (modifiedPaths loaded doc) m)) ->
  triple P (Media_save loaded doc) (fun _ => worldOk) worldOk.
Proof.
  intros H. eapply triple_weaken; [apply triple_Media_save|exact H].
Qed.

Lemma triple_reoptimizeImage userId baseUrl mediaType media outcome :
  isOptimized media = false ->
  Js.truthy_opt (optimizedFileUrl media) = false ->
  triple worldOk (reoptimizeImage userId baseUrl mediaType media outcome)
    (fun _ => worldOk) worldOk.
Proof.
  intros Hopt Hurl. unfold reoptimizeImage. do 3 fs_step.
  eapply triple_bind.
  { apply triple_save_worldOk. intros w Hw. split; [done|]. intros m Hm.
    apply patch_setOptimized_ok; auto using url_nonempty.
    by apply Hw. }
  intros ?. fs_step.
  eapply triple_bind; [|intros media2; apply (triple_ret _ (fun _ => worldOk))].
  destruct (_ && _); [|by apply triple_ret'].
  fs_step.
  eapply triple_bind; [|intros ?; apply (triple_ret _ (fun _ => worldOk))].
  apply triple_save_worldOk. intros w Hw. split; [done|]. intros m Hm.
  apply patch_setFileUrl_ok; auto using url_nonempty.
  by apply Hw.
Qed.

Lemma triple_markOptimized media :
  isImage (fileType media) = true ->
  Js.endsWith (fileName media) ".webp" = true ->
  triple (fun w => worldOk w /\ db w !! _id media = Some media)
    (markOptimized media) (fun _ => worldOk) worldOk.
Proof.
  intros Himg Hwebp. unfold markOptimized.
  eapply triple_bind; [|intros ?; apply (triple_ret _ (fun _ => worldOk))].
  apply triple_save_worldOk. intros w [Hw Hm]. split; [done|].
  simpl. intros m Hm'. rewrite Hm in Hm'. injection Hm' as <-.
  apply patch_markOptimized_ok; auto. by apply Hw.
Qed.

Lemma triple_reoptimizeVideo userId baseUrl mediaType media :
  isOptimized media = false ->
  Js.truthy_opt (optimizedFileUrl media) = false ->
  triple worldOk (reoptimizeVideo userId baseUrl mediaType media)
    (fun _ => worldOk) worldOk.
Proof.
  intros Hopt Hurl. unfold reoptimizeVideo. fs_step.
  eapply triple_bind; [|intros ?; apply (triple_ret _ (fun _ => worldOk))].
  apply triple_launch. simpl. auto using url_nonempty.
Qed.

(** A record that passes the "already optimized" test of optimizeMedia
    and is not a WebP image is not optimized and has no optimized URL. *)
Lemma not_yet_optimized id media :
  recordOk id media ->
  isOptimized media && Js.truthy_opt (optimizedFileUrl media) = false ->
  isImage (fileType media) && Js.endsWith (fileName media) ".webp" = false ->
  isOptimized media = false
  /\ Js.truthy_opt (optimizedFileUrl media) = false.
Proof.
  intros (_ & _ & H3 & H4) Hguard Hwebp.
  destruct (isOptimized media) eqn:Hopt.
  - destruct (H4 eq_refl) as [Ht|[Hi He]].
    + by rewrite Ht in Hguard.
    + by rewrite Hi, He in Hwebp.
  - split; [done|]. destruct (Js.truthy_opt _) eqn:E; [|done].
    by specialize (H3 eq_refl).
Qed.

Lemma optimizeMedia_keeps req env w :
  worldOk w -> worldOk (snd (optimizeMedia req env w)).
Proof.
  apply handler_keeps.
  destruct (Req.user req) as [userId|]; [|by apply triple_ret'].
  eapply triple_bind; [apply triple_Media_findOne, stable_worldOk|].
  intros [media|]; [|intros w' [Hw' _]; exact Hw'].
  intros w' [Hw' [id Hid]].
  pose proof (proj1 Hw' id media Hid) as Hrec.
  destruct (isOptimized media && Js.truthy_opt (optimizedFileUrl media))
    eqn:Hguard; [exact Hw'|].
  destruct (isImage (fileType media)) eqn:Himg.
  - destruct (Js.endsWith (fileName media) ".webp") eqn:Hwebp; simpl.
    + apply (triple_markOptimized media Himg Hwebp w').
      split; [done|]. destruct Hrec as [-> _]. done.
    + destruct (not_yet_optimized id media Hrec Hguard) as [Ho Hu].
      { by rewrite Himg, Hwebp. }
      by apply (triple_reoptimizeImage _ _ _ _ _ Ho Hu w').
  - destruct (not_yet_optimized id media Hrec Hguard) as [Ho Hu].
    { by rewrite Himg. }
    destruct (isVideo (fileType media)); [|exact Hw'].
    by apply (triple_reoptimizeVideo _ _ _ _ Ho Hu w').
Qed.

(** *** Completion of a job *)

Lemma run_keeps {A} (m : M A) (P Q : World -> Prop) w :
  triple P m (fun _ => Q) Q -> P w -> Q (run m w).
Proof.
  intros H Hw. unfold run. specialize (H w Hw).
  by destruct (m w) as [[a|e] w'].
Qed.

Lemma triple_onUploadTranscodeEnd optimizedPath dbRecordId optimizedUrl
    originalPath uploadedName :
  optimizedUrl <> "" ->
  triple worldOk
    (onUploadTranscodeEnd optimizedPath dbRecordId optimizedUrl originalPath
       uploadedName)
    (fun _ => worldOk) worldOk.
Proof.
  intros Hne. unfold onUploadTranscodeEnd.
  eapply triple_tryCatch with (E' := worldOk);
    [|intros e; apply triple_fsOnly; eauto with fsOnly].
  fs_step.
  eapply triple_bind.
  { apply triple_Media_findByIdAndUpdate.
    intros id m (H1 & H2 & H3 & H4). unfold recordOk, applyPatch. simpl.
    repeat split; auto. intros _. left. by apply truthy_true. }
  intros ?. fs_step.
  apply triple_fsOnly; eauto with fsOnly.
Qed.

Lemma triple_onReoptTranscodeEnd sourcePath optimizedPath optimizedUrl media :
  jobOk (TranscodeReopt sourcePath optimizedPath optimizedUrl media) ->
  triple worldOk
    (onReoptTranscodeEnd sourcePath optimizedPath optimizedUrl media)
    (fun _ => worldOk) worldOk.
Proof.
  intros (Hne & Hopt & Hurl). unfold onReoptTranscodeEnd.
  eapply triple_tryCatch with (E' := worldOk);
    [|intros e; apply triple_fsOnly; eauto with fsOnly].
  fs_step.
  eapply triple_bind.
  { apply triple_save_worldOk. intros w Hw. split; [done|]. intros m Hm.
    apply patch_transcoded_ok; auto. by apply Hw. }
  intros ?. do 2 fs_step.
  apply triple_fsOnly; eauto with fsOnly.
Qed.

Lemma complete_keeps j outcome w :
  jobOk j -> worldOk w -> worldOk (complete j outcome w).
Proof.
  intros Hj Hw. unfold complete.
  destruct j as [src folder filename
                |src optimizedPath dbRecordId optimizedUrl originalPath name
                |sourcePath optimizedPath optimizedUrl media].
  - pose proof (triple_fsOnly (encode src (Path.join [folder; filename]) outcome)
                  worldOk (fsOnly_encode _ _ _) stable_worldOk w Hw) as H.
    destruct (encode _ _ _ w) as [[[]|e] w']; [done|].
    eapply run_keeps; [|exact H]. apply triple_fsOnly; eauto with fsOnly.
  - pose proof (triple_fsOnly (encode src optimizedPath outcome)
                  worldOk (fsOnly_encode _ _ _) stable_worldOk w Hw) as H.
    destruct (encode _ _ _ w) as [[[]|e] w'].
    + eapply run_keeps; [|exact H]. by apply triple_onUploadTranscodeEnd.
    + eapply run_keeps; [|exact H]. apply triple_fsOnly; eauto with fsOnly.
  - pose proof (triple_fsOnly (encode sourcePath optimizedPath outcome)
                  worldOk (fsOnly_encode _ _ _) stable_worldOk w Hw) as H.
    destruct (encode _ _ _ w) as [[[]|e] w'].
    + eapply run_keeps; [|exact H]. by apply triple_onReoptTranscodeEnd.
    + eapply run_keeps; [|exact H]. apply triple_fsOnly; eauto with fsOnly.
Qed.

Lemma fsOnly_multerSingle filter destination uuid part :
  (forall mimetype, fsOnly (destination mimetype)) ->
  fsOnly (multerSingle filter destination uuid part).
Proof.
  intros Hd. unfold multerSingle. destruct part as [p|]; [|apply fsOnly_ret].
  destruct (negb _); [apply fsOnly_throw|].
  apply fsOnly_bind; [apply Hd|]. intros dest.
  destruct (_ <? _)%N; [apply fsOnly_throw|].
  apply fsOnly_bind; [by intros w|]. intros _. apply fsOnly_ret.
Qed.

Lemma fsOnly_storageDestination reqUserId mimetype :
  fsOnly (storageDestination reqUserId mimetype).
Proof.
  unfold storageDestination. destruct (negb _); [apply fsOnly_throw|].
  apply fsOnly_bind; [apply fsOnly_forEach, fsOnly_ensureDir|]. intros _.
  apply fsOnly_bind; [apply fsOnly_forEach, fsOnly_ensureDir|]. intros _.
  apply fsOnly_ret.
Qed.

Lemma fsOnly_externalDestination mimetype :
  fsOnly (externalDestination mimetype).
Proof.
  unfold externalDestination. repeat case_match; apply fsOnly_ret.
Qed.

Lemma routeUpload_keeps account host part env w :
  worldOk w -> worldOk (snd (routeUpload account host part env w)).
Proof.
  intros Hw. unfold routeUpload.
  pose proof (triple_fsOnly
    (multerSingle fileFilter (storageDestination (Some account))
       (Env.fileUuid env) part) worldOk
    (fsOnly_multerSingle _ _ _ _ (fsOnly_storageDestination _))
    stable_worldOk w Hw) as H.
  destruct (multerSingle _ _ _ _ w) as [[file|e] w']; [|done].
  match goal with
  | |- context [uploadMedia ?r ?e ?w] =>
      pose proof (uploadMedia_keeps r e w H) as H';
      destruct (uploadMedia r e w)
  end. done.
Qed.

Lemma externalRouteUpload_keeps account host part env w :
  worldOk w -> worldOk (snd (externalRouteUpload account host part env w)).
Proof.
  intros Hw. unfold externalRouteUpload.
  pose proof (triple_fsOnly
    (multerSingle externalFileFilter externalDestination
       (Env.fileUuid env) part) worldOk
    (fsOnly_multerSingle _ _ _ _ fsOnly_externalDestination)
    stable_worldOk w Hw) as H.
  destruct (multerSingle _ _ _ _ w) as [[file|e] w']; [|done].
  match goal with
  | |- context [externalUploadMedia ?r ?e ?w] =>
      pose proof (externalUploadMedia_keeps r e w H) as H';
      destruct (externalUploadMedia r e w)
  end. done.
Qed.

Lemma step_keeps w w' : step w w' -> worldOk w -> worldOk w'.
Proof.
  intros Hstep Hw.
  destruct Hstep as [req env w|req env w|req w|req w|req env w
                    |account host part env w|account host part env w
                    |j outcome l1 l2 w Hjobs].
  - by apply uploadMedia_keeps.
  - by apply externalUploadMedia_keeps.
  - by apply deleteMedia_keeps.
  - by apply externalDeleteMedia_keeps.
  - by apply optimizeMedia_keeps.
  - by apply routeUpload_keeps.
  - by apply externalRouteUpload_keeps.
  - destruct Hw as [Hdb Hj]. rewrite Hjobs in Hj.
    apply Forall_app in Hj as [Hl1 Hl2]. inversion Hl2; subst.
    apply complete_keeps; [done|]. split; [done|]. simpl.
    apply Forall_app. done.
Qed.

(** Every world the system reaches satisfies the invariant. *)
Lemma reachable_worldOk w : reachable w -> worldOk w.
Proof.
  induction 1 as [w Hdb Hjobs|w w' _ IH Hstep].
  - split.
    + intros id m. rewrite Hdb. by rewrite lookup_empty.
    + rewrite Hjobs. constructor.
  - by eapply step_keeps.
Qed.

(** ** Re-optimization *)

Lemma findOne_Some mediaId owner w found w' :
  Media_findOne mediaId owner w = (Ok (Some found), w') ->
  w' = w
  /\ exists id uid,
       castObjectId mediaId = Some id /\ castObjectId owner = Some uid
       /\ db w !! id = Some found /\ userId found = uid.
Proof.
  unfold Media_findOne.
  destruct (castObjectId mediaId) as [id|]; [|done].
  destruct (castObjectId owner) as [uid|]; [|done].
  destruct (db w !! id) as [m|] eqn:E; [|done].
  case_bool_decide; [|done]. intros [= -> ->]. eauto 10.
Qed.

Lemma save_unmodified media w :
  isOptimized media = true ->
  Media_save media (setIsOptimized true media) w = (Ok tt, w).
Proof.
  intros H. unfold Media_save.
  rewrite bool_decide_eq_true_2; [done|].
  unfold modifiedPaths, emptyPatch. simpl. rewrite H.
  by rewrite !bool_decide_eq_true_2.
Qed.

(** An optimized record of a world satisfying the invariant: optimizeMedia
    answers 200 and changes nothing, whatever the environment. *)
Lemma optimizeMedia_optimized req env owner media w :
  worldOk w ->
  Req.user req = Some owner ->
  Media_findOne (Req.id req) owner w = (Ok (Some media), w) ->
  isOptimized media = true ->
  optimizeMedia req env w =
    ({| status := 200;
        body := if Js.truthy_opt (optimizedFileUrl media)
                then BAlreadyOptimized (_id media) (optimizedFileUrl media) true
                else BImageAlreadyWebp (_id media) (fileUrl media) true |}, w).
Proof.
  intros Hw Huser Hfind Hopt.
  destruct (findOne_Some _ _ _ _ _ Hfind) as (_ & id & uid & _ & _ & Hdb & _).
  destruct (proj1 Hw id media Hdb) as (_ & _ & _ & H4).
  unfold optimizeMedia, handler, bind. rewrite Huser, Hfind, Hopt. simpl.
  destruct (Js.truthy_opt (optimizedFileUrl media)) eqn:Ht; [done|].
  destruct (H4 Hopt) as [?|[Himg Hwebp]]; [congruence|].
  rewrite Himg, Hwebp. simpl.
  unfold markOptimized, bind. by rewrite save_unmodified.
Qed.

(** C4. For every record of a reachable world whose isOptimized is true
    (a record with an optimized URL, or an image record whose file is
    already WebP), optimizeMedia answers 200 with the record's current
    state and leaves the world (filesystem, collection, jobs, trace) as it
    is; a second call in succession gives the same response and again
    changes nothing. *)
Theorem C4_reoptimize_optimized_is_noop
    (req : Req.t) (env env' : Env.t) (owner : string) (media : Media)
    (w : World) :
  reachable w ->
  Req.user req = Some owner ->
  Media_findOne (Req.id req) owner w = (Ok (Some media), w) ->
  isOptimized media = true ->
  exists r,
    optimizeMedia req env w = (r, w)
    /\ optimizeMedia req env' (snd (optimizeMedia req env w)) = (r, w)
    /\ status r = 200
    /\ (body r = BAlreadyOptimized (_id media) (optimizedFileUrl media) true
        \/ body r = BImageAlreadyWebp (_id media) (fileUrl media) true).
Proof.
  intros Hreach Huser Hfind Hopt.
  apply reachable_worldOk in Hreach.
  pose proof (optimizeMedia_optimized req env owner media w
                Hreach Huser Hfind Hopt) as E.
  pose proof (optimizeMedia_optimized req env' owner media w
                Hreach Huser Hfind Hopt) as E'.
  eexists. split; [exact E|]. rewrite E. simpl.
  split; [exact E'|]. split; [done|]. simpl.
  destruct (Js.truthy_opt (optimizedFileUrl media)); auto.
Qed.

(** ** Deletion *)

Lemma deleteAll_app {A} l1 l2 (m : gmap string A) :
  deleteAll (l1 ++ l2) m = deleteAll l2 (deleteAll l1 m).
Proof. unfold deleteAll. by rewrite foldl_app. Qed.

Lemma lookup_deleteAll {A} l (m : gmap string A) q :
  deleteAll l m !! q = if decide (q ∈ l) then None else m !! q.
Proof.
  revert m. induction l as [|p l IH]; intros m.
  - rewrite decide_False; [done|]. apply not_elem_of_nil.
  - change (deleteAll (p :: l) m) with (deleteAll l (delete p m)).
    rewrite IH. rewrite lookup_delete.
    destruct (decide (q ∈ l)) as [Hl|Hl].
    + rewrite decide_True by (apply elem_of_cons; auto). done.
    + case_decide as Hp.
      * subst. rewrite decide_True by (apply elem_of_cons; auto). done.
      * rewrite decide_False; [done|].
        intros [?|?]%elem_of_cons; congruence.
Qed.

(** A conditional removal: the file is removed when it is there, and its
    absence is no error. *)
Lemma when_unlink_spec (b : bool) p w :
  (b = true -> fs w !! p <> Some DirNode) ->
  exists w' removed,
    when b (unlinkIfExists p) w = (Ok tt, w')
    /\ fs w' = deleteAll (if b then [p] else []) (fs w)
    /\ db w' = db w /\ jobs w' = jobs w /\ users w' = users w
    /\ trace w' = trace w ++ (EvUnlink <$> removed)
    /\ (forall q, q ∈ removed -> b = true /\ q = p).
Proof.
  intros Hdir. destruct b; simpl.
  - specialize (Hdir eq_refl).
    unfold unlinkIfExists, bind, existsSync, unlinkSync.
    destruct (fs w !! p) as [[n|]|] eqn:E; [| done |].
    + rewrite bool_decide_eq_true_2 by eauto. simpl. rewrite E.
      eexists _, [p]. split; [reflexivity|]. simpl.
      split_and!; auto.
      intros q Hq%list_elem_of_singleton. done.
    + rewrite bool_decide_eq_false_2 by (intros [? ?]; done). simpl.
      exists w, []. split; [done|]. unfold deleteAll. simpl.
      rewrite delete_id by done. rewrite app_nil_r.
      split_and!; auto. intros q Hq. by apply elem_of_nil in Hq.
  - exists w, []. split; [done|]. rewrite app_nil_r.
    split_and!; auto. intros q Hq. by apply elem_of_nil in Hq.
Qed.

Lemma artifacts_unfold owner media :
  fileUrl media <> "" ->
  artifacts owner media =
    (if Js.truthy (fileUrl media)
        && negb (Js.includes (fileUrl media) "/optimized/")
     then [getUserFilePath owner (mediaTypeOf (fileType media))
             (fileName media)]
     else [])
    ++ (if Js.truthy_opt (thumbnailUrl media)
        then [getThumbnailPath owner
                (Path.basename (default "" (thumbnailUrl media)))]
        else [])
    ++ (if Js.truthy_opt (optimizedFileUrl media)
           || Js.includes (fileUrl media) "/optimized/"
        then [getOptimizedPath owner (mediaTypeOf (fileType media))
                (Path.basename
                   (if Js.truthy_opt (optimizedFileUrl media)
                    then default "" (optimizedFileUrl media)
                    else fileUrl media))]
        else []).
Proof.
  intros Hurl%truthy_true. unfold artifacts, inOptimizedSubtree.
  rewrite Hurl. simpl.
  destruct (Js.includes (fileUrl media) "/optimized/"); simpl;
    destruct (Js.truthy_opt (optimizedFileUrl media)); done.
Qed.

(** What [deleteFound] does, for a record with a file URL whose artifact
    paths are not directories. *)
Lemma deleteFound_spec owner mediaId media w :
  fileUrl media <> "" ->
  (forall p, p ∈ artifacts owner media -> fs w !! p <> Some DirNode) ->
  exists w' removed,
    deleteFound owner mediaId media w
      = (Ok {| status := 200; body := BDeleted mediaId |}, w')
    /\ fs w' = deleteAll (artifacts owner media) (fs w)
    /\ db w' = delete (_id media) (db w)
    /\ jobs w' = jobs w /\ users w' = users w
    /\ trace w' = trace w ++ (EvUnlink <$> removed)
                          ++ [EvDbDelete (_id media)]
    /\ (forall q, q ∈ removed -> q ∈ artifacts owner media).
Proof.
  intros Hurl Hdir. rewrite (artifacts_unfold owner media Hurl) in *.
  unfold deleteFound.
  set (b1 := Js.truthy (fileUrl media) && _) in *.
  set (p1 := getUserFilePath _ _ _) in *.
  set (b2 := Js.truthy_opt (thumbnailUrl media)) in *.
  set (p2 := getThumbnailPath _ _) in *.
  set (b3 := Js.truthy_opt (optimizedFileUrl media) || _) in *.
  set (p3 := getOptimizedPath _ _ _) in *.
  destruct (when_unlink_spec b1 p1 w)
    as (w1 & r1 & E1 & F1 & D1 & J1 & U1 & T1 & R1).
  { intros ->. apply Hdir. apply elem_of_app. left. by apply elem_of_cons; left. }
  destruct (when_unlink_spec b2 p2 w1)
    as (w2 & r2 & E2 & F2 & D2 & J2 & U2 & T2 & R2).
  { intros ->. rewrite F1, lookup_deleteAll. case_decide; [done|].
    apply Hdir. apply elem_of_app. right. apply elem_of_app. left.
    by apply elem_of_cons; left. }
  destruct (when_unlink_spec b3 p3 w2)
    as (w3 & r3 & E3 & F3 & D3 & J3 & U3 & T3 & R3).
  { intros ->. rewrite F2, lookup_deleteAll. case_decide; [done|].
    rewrite F1, lookup_deleteAll. case_decide; [done|].
    apply Hdir. apply elem_of_app. right. apply elem_of_app. right.
    by apply elem_of_cons; left. }
  exists (emit (EvDbDelete (_id media))
            (with_db (delete (_id media) (db w3)) w3)), (r1 ++ r2 ++ r3).
  split.
  { unfold bind. rewrite E1, E2, E3. reflexivity. }
  simpl. rewrite F3, F2, F1, D3, D2, D1, J3, J2, J1, U3, U2, U1, T3, T2, T1.
  rewrite <- !deleteAll_app. rewrite !fmap_app, <- !(assoc (++)).
  split_and!; auto.
  intros q [Hq|[Hq|Hq]%elem_of_app]%elem_of_app.
  - destruct (R1 q Hq) as [-> ->]. apply elem_of_app. left. by apply elem_of_cons; left.
  - destruct (R2 q Hq) as [-> ->]. apply elem_of_app. right. apply elem_of_app.
    left. by apply elem_of_cons; left.
  - destruct (R3 q Hq) as [-> ->]. apply elem_of_app. right. apply elem_of_app.
    right. by apply elem_of_cons; left.
Qed.

Lemma castObjectId_nonempty s u : castObjectId s = Some u -> s <> "".
Proof. intros H ->. done. Qed.

Lemma deleteMedia_external req owner w :
  Req.user req = Some owner -> Req.userId req = Some owner ->
  owner <> "" ->
  externalDeleteMedia req w = deleteMedia req w.
Proof.
  intros Hu Hid Hne%truthy_true. unfold externalDeleteMedia, deleteMedia.
  rewrite Hu, Hid. simpl. by rewrite Hne.
Qed.

Lemma findOne_absent mediaId owner id uid w :
  castObjectId mediaId = Some id -> castObjectId owner = Some uid ->
  db w !! id = None ->
  Media_findOne mediaId owner w = (Ok None, w).
Proof. intros H1 H2 H3. unfold Media_findOne. by rewrite H1, H2, H3. Qed.

(** C7. For every record matching (ownerId, recordId), in a reachable world
    where no artifact path names a directory, delete answers 200 and
    removes every artifact the record referenced: the canonical artifact
    unless its locator lies in the optimized subtree, the thumbnail when
    thumbnailUrl is set, the optimized artifact when optimizedUrl is set or
    the canonical locator lies in the optimized subtree.  No other file is
    touched, a missing artifact is no error, every removal comes before the
    deletion of the record in the trace of effects, and a second delete of
    the same id answers 404, Media not found.  Both controllers behave the
    same. *)
Theorem C7_delete_removes_artifacts_then_record
    (req : Req.t) (owner : string) (media : Media) (w : World) :
  reachable w ->
  Req.user req = Some owner -> Req.userId req = Some owner ->
  Media_findOne (Req.id req) owner w = (Ok (Some media), w) ->
  (forall p, p ∈ artifacts owner media -> fs w !! p <> Some DirNode) ->
  exists w' removed,
    deleteMedia req w
      = ({| status := 200; body := BDeleted (Req.id req) |}, w')
    /\ externalDeleteMedia req w = deleteMedia req w
    /\ (forall p, p ∈ artifacts owner media -> fs w' !! p = None)
    /\ (forall p, p ∉ artifacts owner media -> fs w' !! p = fs w !! p)
    /\ db w' = delete (_id media) (db w)
    /\ db w !! _id media = Some media
    /\ trace w' = trace w ++ (EvUnlink <$> removed)
                          ++ [EvDbDelete (_id media)]
    /\ (forall p, p ∈ removed -> p ∈ artifacts owner media)
    /\ deleteMedia req w'
       = ({| status := 404; body := BError "Media not found" |}, w')
    /\ externalDeleteMedia req w'
       = ({| status := 404; body := BError "Media not found" |}, w').
Proof.
  intros Hreach Huser Huid Hfind Hdir.
  apply reachable_worldOk in Hreach.
  destruct (findOne_Some _ _ _ _ _ Hfind)
    as (_ & id & uid & Hcid & Hcown & Hdb & _).
  destruct (proj1 Hreach id media Hdb) as (Hid & Hurl & _).
  destruct (deleteFound_spec owner (Req.id req) media w Hurl Hdir)
    as (w' & removed & E & Hfs & Hdb' & _ & _ & Htr & Hrem).
  pose proof (castObjectId_nonempty _ _ Hcown) as Hne.
  assert (deleteMedia req w'
          = ({| status := 404; body := BError "Media not found" |}, w'))
    as Hsecond.
  { unfold deleteMedia, handler, bind. rewrite Huser.
    rewrite (findOne_absent _ _ id uid) by
      (done || (rewrite Hdb', Hid; apply lookup_delete_eq)).
    reflexivity. }
  exists w', removed. split_and!; auto.
  - unfold deleteMedia, handler, bind. rewrite Huser, Hfind. by rewrite E.
  - by apply deleteMedia_external with owner.
  - intros p Hp. rewrite Hfs, lookup_deleteAll. by rewrite decide_True.
  - intros p Hp. rewrite Hfs, lookup_deleteAll. by rewrite decide_False.
  - by rewrite Hid.
  - rewrite <- Hsecond. by apply deleteMedia_external with owner.
Qed.

(** ** Ingestion of an image *)

Lemma sameFiles_refl f : sameFiles f f.
Proof. by intros p n. Qed.

Lemma sameFiles_trans f g h : sameFiles f g -> sameFiles g h -> sameFiles f h.
Proof. unfold sameFiles. intros H1 H2 p n. by rewrite H2, H1. Qed.

Lemma ensureDir_spec dir w :
  exists w',
    ensureDir dir w = (Ok tt, w')
    /\ db w' = db w /\ jobs w' = jobs w /\ sameFiles (fs w) (fs w').
Proof.
  unfold ensureDir, bind, existsSync, when, mkdirSync.
  destruct (fs w !! dir) as [node|] eqn:E.
  - rewrite bool_decide_eq_true_2 by eauto. simpl.
    exists w. auto using sameFiles_refl.
  - rewrite bool_decide_eq_false_2 by (intros [? ?]; done). simpl. rewrite E.
    eexists. split; [reflexivity|]. simpl. split_and!; auto.
    intros p n. rewrite lookup_insert. case_decide; [|done].
    subst. rewrite E. done.
Qed.

Lemma ensureUserDirExists_spec userId subDir w :
  exists w' r,
    ensureUserDirExists userId subDir w = (Ok r, w')
    /\ db w' = db w /\ jobs w' = jobs w /\ sameFiles (fs w) (fs w').
Proof.
  unfold ensureUserDirExists, bind.
  destruct (ensureDir_spec (Path.join [BASE_UPLOAD_PATH; userId]) w)
    as (w1 & E1 & D1 & J1 & F1).
  rewrite E1. destruct (Js.truthy_opt subDir).
  - destruct (ensureDir_spec
                (Path.join [Path.join [BASE_UPLOAD_PATH; userId];
                            default "" subDir]) w1)
      as (w2 & E2 & D2 & J2 & F2).
    rewrite E2. eexists _, _. split; [reflexivity|].
    rewrite D2, J2. split_and!; auto. by eapply sameFiles_trans.
  - eexists _, _. split; [reflexivity|]. auto.
Qed.

(** A sharp run fails and changes nothing, or succeeds and writes its
    output. *)
Lemma sharp_toFile_cases src dst outcome w :
  (exists msg, sharp_toFile src dst outcome w = (Throw (LibError msg), w))
  \/ (exists n k,
        outcome = Some n /\ src <> dst
        /\ fs w !! src = Some (FileNode k)
        /\ sharp_toFile src dst outcome w
           = (Ok tt, emit (EvWrite dst n)
                       (with_fs (<[dst := FileNode n]> (fs w)) w))).
Proof.
  unfold sharp_toFile, encode, throw.
  case_bool_decide as Hsd; [left; by eexists|].
  destruct (fs w !! src) as [[k|]|] eqn:Hsrc; [|left; by eexists..].
  destruct outcome as [n|]; [|left; by eexists].
  destruct (fs w !! dst) as [[?|]|] eqn:Hdst; [|left; by eexists|];
    right; by exists n, k.
Qed.

Lemma statSync_size_file p n w :
  fs w !! p = Some (FileNode n) -> statSync_size p w = (Ok n, w).
Proof. intros H. unfold statSync_size. by rewrite H. Qed.

Lemma unlinkIfExists_file p n w :
  fs w !! p = Some (FileNode n) ->
  (ex <- existsSync p ;; when ex (unlinkSync p)) w
  = (Ok tt, emit (EvUnlink p) (with_fs (delete p (fs w)) w)).
Proof.
  intros H. unfold bind, existsSync, unlinkSync.
  rewrite bool_decide_eq_true_2 by eauto. simpl. by rewrite H.
Qed.

Lemma existsSync_eq p w :
  existsSync p w = (Ok (bool_decide (is_Some (fs w !! p))), w).
Proof. reflexivity. Qed.

Lemma unlinkSync_file p n w :
  fs w !! p = Some (FileNode n) ->
  unlinkSync p w = (Ok tt, emit (EvUnlink p) (with_fs (delete p (fs w)) w)).
Proof. intros H. unfold unlinkSync. by rewrite H. Qed.

Lemma bind_eq {A B} (m : M A) (k : A -> M B) w :
  bind m k w = match m w with
               | (Ok a, w') => k a w'
               | (Throw e, w') => (Throw e, w')
               end.
Proof. reflexivity. Qed.

(** The three ways the image branch ends: the first sharp run fails and
    nothing is written; the thumbnail run fails and the optimized file
    stays; both succeed, the original is removed. *)
Lemma ingestImage_cases userId baseUrl mediaType file env w :
  let src := File.path file in
  let webp := Path.parse_name (File.filename file) +:+ ".webp" in
  let opt := getOptimizedPath userId mediaType webp in
  let thumb := getThumbnailPath userId ("thumb_" +:+ webp) in
  exists w1,
    db w1 = db w /\ jobs w1 = jobs w /\ sameFiles (fs w) (fs w1)
    /\ ((exists msg,
          ingestImage userId baseUrl mediaType file env w
            = (Throw (LibError msg), w1))
        \/ (exists msg n w2,
              ingestImage userId baseUrl mediaType file env w
                = (Throw (LibError msg), w2)
              /\ Env.encoded env = Some n /\ src <> opt
              /\ db w2 = db w /\ jobs w2 = jobs w
              /\ fs w2 = <[opt := FileNode n]> (fs w1))
        \/ (exists n m k c w4,
              ingestImage userId baseUrl mediaType file env w = (Ok c, w4)
              /\ Env.encoded env = Some n /\ Env.thumbnail env = Some m
              /\ src <> opt /\ src <> thumb
              /\ fs w1 !! src = Some (FileNode k)
              /\ c_fileUrl c = baseUrl +:+ "/uploads/" +:+ userId +:+ "/"
                                 +:+ mediaType +:+ "/optimized/" +:+ webp
              /\ c_optimizedFileUrl c = Some (c_fileUrl c)
              /\ c_isOptimized c = true
              /\ c_optimizedSize c = n
              /\ c_newFileName c = webp
              /\ db w4 = db w /\ jobs w4 = jobs w
              /\ fs w4 = delete src (<[thumb := FileNode m]>
                                       (<[opt := FileNode n]> (fs w1))))).
Proof.
  intros src webp opt thumb. unfold ingestImage. fold webp. fold src.
  fold opt. fold thumb.
  destruct (ensureUserDirExists_spec userId (Some (mediaType +:+ "/optimized")) w)
    as (w1 & r & E1 & D1 & J1 & F1).
  rewrite bind_eq, E1. exists w1. split_and!; [done..|].
  rewrite bind_eq.
  destruct (sharp_toFile_cases src opt (Env.encoded env) w1)
    as [[msg E2]|(n & k & Hn & Hso & Hsrc & E2)]; rewrite E2;
    [left; by eexists|].
  set (w2 := emit (EvWrite opt n) _).
  assert (fs w2 = <[opt := FileNode n]> (fs w1)) as F2 by done.
  rewrite bind_eq, (statSync_size_file opt n w2)
    by (rewrite F2; apply lookup_insert_eq).
  rewrite bind_eq.
  destruct (sharp_toFile_cases src thumb (Env.thumbnail env) w2)
    as [[msg E3]|(m & k' & Hm & Hst & Hsrc2 & E3)]; rewrite E3.
  { right; left. exists msg, n, w2. by split_and!. }
  set (w3 := emit (EvWrite thumb m) _).
  assert (fs w3 !! src = Some (FileNode k')) as Hsrc3.
  { unfold w3. simpl. by rewrite lookup_insert_ne. }
  rewrite bind_eq, existsSync_eq.
  rewrite bool_decide_eq_true_2 by (rewrite Hsrc3; eauto).
  rewrite bind_eq. unfold when. rewrite (unlinkSync_file src k' w3 Hsrc3).
  right; right. eexists n, m, k, _, _. split; [reflexivity|].
  simpl. by split_and!.
Qed.

Lemma createAndRespond_cases userId file env c w :
  (exists msg,
     createAndRespond userId file env c w = (Throw (LibError msg), w))
  \/ (exists uid,
        castObjectId userId = Some uid
        /\ db w !! Env.objectId env = None
        /\ c_fileUrl c <> ""
        /\ let doc :=
             {| _id := Env.objectId env;
                fileName := c_newFileName c;
                originalFileName := File.originalname file;
                fileType := File.mimetype file;
                fileSize := c_optimizedSize c;
                fileUrl := c_fileUrl c;
                thumbnailUrl := c_thumbnailUrl c;
                userId := uid;
                optimizedFileUrl := c_optimizedFileUrl c;
                isOptimized := c_isOptimized c |} in
           createAndRespond userId file env c w
           = (Ok {| status := 201; body := BUploaded doc |},
              emit (EvDbCreate doc) (with_db (<[_id doc := doc]> (db w)) w))).
Proof.
  unfold createAndRespond. rewrite bind_eq. unfold Media_create, validateMedia.
  simpl.
  destruct (Js.truthy (c_newFileName c) && _ && _ && Js.truthy (c_fileUrl c))
    eqn:Hreq; [|left; by eexists].
  apply andb_true_iff in Hreq as [_ Hurl%truthy_true].
  destruct (castObjectId userId) as [uid|]; [|left; by eexists]. simpl.
  destruct (db w !! Env.objectId env) eqn:Hdb; [left; by eexists|].
  right. exists uid. by split_and!.
Qed.

Lemma isImage_uploadMediaType m : isImage m = true -> uploadMediaType m = "images".
Proof.
  unfold isImage, uploadMediaType. intros H.
  change "image/" with ("image" +:+ "/") in H.
  apply startsWith_app in H. by rewrite H.
Qed.

Lemma image_upload_core owner host file env w r w' :
  isImage (File.mimetype file) = true ->
  (c <- ingestImage owner ("https://" +:+ host)
          (uploadMediaType (File.mimetype file)) file env ;;
   createAndRespond owner file env c) w = (Ok r, w') ->
  imageUploaded owner host file r w'.
Proof.
  intros Himg. rewrite (isImage_uploadMediaType _ Himg). rewrite bind_eq.
  destruct (ingestImage_cases owner ("https://" +:+ host) "images" file env w)
    as (w1 & D1 & J1 & F1 & [[msg E]|[(msg & n & w2 & E & _)
         |(n & m & k & c & w4 & E & Hn & Hm & Hso & Hst & Hsrc & Hurl & Hopt
           & Hio & Hsz & Hname & D4 & J4 & F4)]]);
    rewrite E; [done..|].
  destruct (createAndRespond_cases owner file env c w4)
    as [[msg Ec]|(uid & Hcast & Hfresh & Hne & Ec)]; rewrite Ec; [done|].
  intros [= <- <-]. eexists. split; [reflexivity|]. simpl.
  rewrite lookup_insert_eq, Hio, Hopt, Hsz, Hname, F4.
  split_and!; auto.
  - rewrite lookup_delete_ne by done.
    rewrite lookup_insert_ne.
    + apply lookup_insert_eq.
    + intros Heq. symmetry in Heq. revert Heq.
      apply optimized_not_thumbnail; [|done..].
      by apply castObjectId_plain with uid.
  - apply lookup_delete_eq.
Qed.

(** C2. For every accepted image upload (the handler of either controller
    answers 201), the returned record is the one persisted, it has
    isOptimized = true and its fileUrl is its optimizedFileUrl, the locator
    of the WebP file in the owner's optimized images directory; its fileSize
    is the size of that file on disk, and no file remains at the path of the
    original upload. *)
Theorem C2_accepted_image_upload
    (req : Req.t) (env : Env.t) (file : File.t) (w : World)
    (r : Response) (w' : World) :
  Req.file req = Some file ->
  isImage (File.mimetype file) = true ->
  uploadMedia req env w = (r, w') \/ externalUploadMedia req env w = (r, w') ->
  status r = 201 ->
  exists owner,
    (Req.user req = Some owner \/ Req.userId req = Some owner)
    /\ imageUploaded owner (Req.host req) file r w'.
Proof.
  intros Hfile Himg [E|E] Hstatus.
  - unfold uploadMedia, handler in E. rewrite Hfile in E.
    destruct (Req.user req) as [owner|] eqn:Huser.
    + exists owner. split; [by left|]. rewrite Himg in E.
      match type of E with
      | (let (_, _) := ?body w in _) = _ => destruct (body w) as [[r0|e] w0] eqn:Eb
      end.
      * injection E as <- <-. by eapply image_upload_core.
      * exfalso. injection E as <- <-.
        rewrite bind_eq in Eb.
        destruct (ingestImage_cases owner ("https://" +:+ Req.host req)
                    (uploadMediaType (File.mimetype file)) file env w)
          as (w1 & _ & _ & _ & [[msg Ei]|[(msg & n & w2 & Ei & _)
               |(n & m & k & c & w4 & Ei & _)]]);
          rewrite Ei in Eb; try (injection Eb as <- _; done).
        destruct (createAndRespond_cases owner file env c w4)
          as [[msg Ec]|(uid & _ & _ & _ & Ec)]; rewrite Ec in Eb;
          [injection Eb as <- _; done|done].
    + simpl in E. injection E as <- _. done.
  - unfold externalUploadMedia, handler in E. rewrite Hfile in E.
    destruct (Req.userId req) as [owner|] eqn:Huser;
      [|simpl in E; injection E as <- _; done].
    simpl in E.
    destruct (Js.truthy owner) eqn:Htruthy;
      [|simpl in E; injection E as <- _; done].
    simpl in E. exists owner. split; [by right|].
    rewrite bind_eq in E. unfold User_findById in E at 1.
    destruct (castObjectId owner) as [uid|];
      [|injection E as <- _; done].
    destruct (bool_decide (uid ∈ users w)); simpl in E;
      [|injection E as <- _; done].
    rewrite Himg in E.
    match type of E with
    | (let (_, _) := ?body w in _) = _ => destruct (body w) as [[r0|e] w0] eqn:Eb
    end.
    + injection E as <- <-. by eapply image_upload_core.
    + exfalso. injection E as <- <-.
      rewrite bind_eq in Eb.
      destruct (ingestImage_cases owner ("https://" +:+ Req.host req)
                  (uploadMediaType (File.mimetype file)) file env w)
        as (w1 & _ & _ & _ & [[msg Ei]|[(msg & n & w2 & Ei & _)
             |(n & m & k & c & w4 & Ei & _)]]);
        rewrite Ei in Eb; try (injection Eb as <- _; done).
      destruct (createAndRespond_cases owner file env c w4)
        as [[msg Ec]|(uid' & _ & _ & _ & Ec)]; rewrite Ec in Eb;
        [injection Eb as <- _; done|done].
Qed.

Lemma errorResponse_lib fallback msg :
  fallback <> "" ->
  status (errorResponse fallback (LibError msg)) = 500
  /\ exists m, body (errorResponse fallback (LibError msg)) = BError m
               /\ m <> "".
Proof.
  intros Hf. split; [done|]. simpl. eexists. split; [reflexivity|].
  destruct (Js.truthy msg) eqn:E; [by apply truthy_true|done].
Qed.

(** A failed run of the image branch: what the world is like after. *)
Lemma ingestImage_failed userId baseUrl mediaType file env w e w1 :
  ingestImage userId baseUrl mediaType file env w = (Throw e, w1) ->
  (exists msg, e = LibError msg)
  /\ db w1 = db w /\ jobs w1 = jobs w
  /\ (forall k, fs w !! File.path file = Some (FileNode k) ->
                fs w1 !! File.path file = Some (FileNode k))
  /\ (forall p,
        p <> getOptimizedPath userId mediaType
               (Path.parse_name (File.filename file) +:+ ".webp") ->
        forall k, fs w1 !! p = Some (FileNode k)
                  <-> fs w !! p = Some (FileNode k)).
Proof.
  intros E.
  destruct (ingestImage_cases userId baseUrl mediaType file env w)
    as (w0 & D0 & J0 & F0 & [[msg Ei]|[(msg & n & w2 & Ei & Hn & Hso & D2 & J2 & F2)
         |(n & m & k & c & w4 & Ei & _)]]);
    rewrite Ei in E; [| |done]; injection E as <- <-.
  - split; [eauto|]. split; [done|]. split; [done|]. split.
    + intros k Hk. by apply F0.
    + intros p _ k. apply F0.
  - split; [eauto|]. split; [done|]. split; [done|]. split.
    + intros k Hk. rewrite F2, lookup_insert_ne by done. by apply F0.
    + intros p Hp k. rewrite F2, lookup_insert_ne by done. apply F0.
Qed.

(** C3, as amended.  For every image upload in which a synchronous
    processing step fails (the image branch throws), the ingestion is
    aborted: the handler of either controller answers 500 with a message,
    no record is created and no job is launched, the original upload is
    still on disk, and no other file is changed except the optimized file,
    which stays on disk when the attempt had already written it. *)
Theorem C3_failed_image_upload_aborts
    (req : Req.t) (env : Env.t) (file : File.t) (owner : string)
    (w : World) (e : Error) (w1 : World) :
  Req.file req = Some file ->
  isImage (File.mimetype file) = true ->
  ingestImage owner ("https://" +:+ Req.host req)
    (uploadMediaType (File.mimetype file)) file env w = (Throw e, w1) ->
  let optimizedPath :=
    getOptimizedPath owner "images"
      (Path.parse_name (File.filename file) +:+ ".webp") in
  (Req.user req = Some owner ->
   exists r, uploadMedia req env w = (r, w1)
             /\ ingestionAborted file optimizedPath w r w1)
  /\ (Req.userId req = Some owner -> User_findById owner w = (Ok true, w) ->
      exists r, externalUploadMedia req env w = (r, w1)
                /\ ingestionAborted file optimizedPath w r w1).
Proof.
  intros Hfile Himg E optimizedPath.
  pose proof (ingestImage_failed _ _ _ _ _ _ _ _ E)
    as ([msg ->] & Hdb & Hjobs & Horig & Hother).
  rewrite (isImage_uploadMediaType _ Himg) in Hother. fold optimizedPath in Hother.
  assert (forall r,
            r = errorResponse "An error occurred uploading media" (LibError msg) ->
            ingestionAborted file optimizedPath w r w1) as Habort.
  { intros r ->. unfold ingestionAborted.
    destruct (errorResponse_lib "An error occurred uploading media" msg)
      as [Hs Hb]; [done|].
    by split_and!. }
  split.
  - intros Huser. eexists. split; [|by apply Habort].
    unfold uploadMedia, handler. rewrite Hfile, Huser, Himg.
    rewrite bind_eq, E. reflexivity.
  - intros Huid Hfound. eexists. split; [|by apply Habort].
    unfold externalUploadMedia, handler. rewrite Hfile, Huid. simpl.
    assert (Js.truthy owner = true) as ->.
    { apply truthy_true. intros ->. by vm_compute in Hfound. }
    simpl. rewrite bind_eq, Hfound. simpl. rewrite Himg.
    rewrite bind_eq, E. reflexivity.
Qed.

(** ** Ingestion of a video and its background jobs *)

Lemma launch_eq j w :
  launch j w = (Ok tt, emit (EvLaunch j) (with_jobs (jobs w ++ [j]) w)).
Proof. reflexivity. Qed.

Lemma isVideo_not_isImage m : isVideo m = true -> isImage m = false.
Proof.
  intros Hv. destruct (isImage m) eqn:Hi; [|done].
  apply isImage_not_isVideo in Hi. congruence.
Qed.

Lemma ingestVideo_spec owner baseUrl mediaType file env w :
  exists w1,
    ingestVideo owner baseUrl mediaType file env w
      = (Ok (videoComputed owner baseUrl mediaType file), w1)
    /\ db w1 = db w
    /\ jobs w1 = jobs w ++ [screenshotJob owner file;
                            transcodeJob owner baseUrl mediaType
                              (File.path file) file env]
    /\ sameFiles (fs w) (fs w1).
Proof.
  unfold ingestVideo.
  destruct (ensureUserDirExists_spec owner (Some "thumbnails") w)
    as (w1 & r1 & E1 & D1 & J1 & F1).
  rewrite bind_eq, E1, bind_eq, launch_eq.
  set (w2 := emit _ _).
  destruct (ensureUserDirExists_spec owner (Some (mediaType +:+ "/optimized")) w2)
    as (w3 & r3 & E3 & D3 & J3 & F3).
  rewrite bind_eq, E3, bind_eq, launch_eq.
  eexists. split; [reflexivity|]. simpl.
  rewrite D3, J3. simpl. rewrite D1, J1, <- (assoc (++)).
  split_and!; auto. eapply sameFiles_trans; [exact F1|exact F3].
Qed.

Lemma renameSync_cases src dst w :
  (exists msg, renameSync src dst w = (Throw (LibError msg), w))
  \/ (exists node,
        fs w !! src = Some node
        /\ renameSync src dst w
           = (Ok tt, emit (EvRename src dst)
                       (with_fs (<[dst := node]> (delete src (fs w))) w))).
Proof.
  unfold renameSync.
  destruct (fs w !! src) as [node|]; [|left; by eexists].
  destruct (fs w !! dst) as [[|]|]; [|left; by eexists|]; right; by eexists.
Qed.

Lemma externalIngestVideo_cases owner baseUrl mediaType file env w :
  (exists msg w1,
     externalIngestVideo owner baseUrl mediaType file env w
       = (Throw (LibError msg), w1))
  \/ (exists w1,
        externalIngestVideo owner baseUrl mediaType file env w
          = (Ok (videoComputed owner baseUrl mediaType file), w1)
        /\ db w1 = db w
        /\ jobs w1 = jobs w ++ [screenshotJob owner file;
                                transcodeJob owner baseUrl mediaType
                                  (getUserFilePath owner mediaType
                                     (File.filename file)) file env]).
Proof.
  unfold externalIngestVideo.
  destruct (ensureUserDirExists_spec owner (Some "thumbnails") w)
    as (w1 & r1 & E1 & D1 & J1 & F1).
  rewrite bind_eq, E1.
  destruct (ensureUserDirExists_spec owner (Some mediaType) w1)
    as (w2 & r2 & E2 & D2 & J2 & F2).
  rewrite bind_eq, E2, bind_eq, launch_eq.
  set (w3 := emit _ _). rewrite bind_eq.
  destruct (renameSync_cases (File.path file)
              (getUserFilePath owner mediaType (File.filename file)) w3)
    as [[msg Er]|(node & Hsrc & Er)]; rewrite Er; [left; by eexists _, _|].
  set (w4 := emit _ _).
  destruct (ensureUserDirExists_spec owner (Some (mediaType +:+ "/optimized")) w4)
    as (w5 & r5 & E5 & D5 & J5 & F5).
  rewrite bind_eq, E5, bind_eq, launch_eq.
  right. eexists. split; [reflexivity|]. simpl.
  rewrite D5, J5. simpl. rewrite D2, J2, D1, J1, <- (assoc (++)). done.
Qed.

Lemma isVideo_uploadMediaType m : isVideo m = true -> uploadMediaType m = "videos".
Proof.
  unfold isVideo, uploadMediaType. intros H.
  assert (Js.startsWith m "image" = false) as ->.
  { apply startsWith_spec in H as [rest ->]. done. }
  change "video/" with ("video" +:+ "/") in H.
  apply startsWith_app in H. by rewrite H.
Qed.

Lemma video_created owner host source file env w1 r w' :
  createAndRespond owner file env
    (videoComputed owner ("https://" +:+ host) "videos" file) w1 = (Ok r, w') ->
  screenshotJob owner file ∈ jobs w1 ->
  transcodeJob owner ("https://" +:+ host) "videos" source file env ∈ jobs w1 ->
  videoUploaded owner host source file env r w'.
Proof.
  intros E Hj1 Hj2.
  destruct (createAndRespond_cases owner file env
              (videoComputed owner ("https://" +:+ host) "videos" file) w1)
    as [[msg Ec]|(uid & Hcast & Hfresh & Hne & Ec)]; rewrite Ec in E; [done|].
  injection E as <- <-. eexists. split; [reflexivity|]. simpl.
  rewrite lookup_insert_eq. by split_and!.
Qed.

(** An upload answered with 201 ran its branch and created its record. *)
Lemma uploadMedia_accepted req env file w r w' :
  Req.file req = Some file ->
  uploadMedia req env w = (r, w') -> status r = 201 ->
  exists owner,
    Req.user req = Some owner
    /\ (c <- (if isImage (File.mimetype file)
              then ingestImage owner ("https://" +:+ Req.host req)
                     (uploadMediaType (File.mimetype file)) file env
              else if isVideo (File.mimetype file)
              then ingestVideo owner ("https://" +:+ Req.host req)
                     (uploadMediaType (File.mimetype file)) file env
              else ingestDocument owner ("https://" +:+ Req.host req)
                     (uploadMediaType (File.mimetype file)) file) ;;
        createAndRespond owner file env c) w = (Ok r, w').
Proof.
  intros Hfile E Hstatus. unfold uploadMedia, handler in E. rewrite Hfile in E.
  destruct (Req.user req) as [owner|]; [|by injection E as <- _].
  exists owner. split; [done|].
  match type of E with
  | (let (_, _) := ?body w in _) = _ =>
      destruct (body w) as [[r0|e] w0] eqn:Eb
  end; [by injection E as <- <-|].
  exfalso. injection E as <- <-. rewrite bind_eq in Eb.
  assert (forall c w4 e',
            createAndRespond owner file env c w4 = (Throw e', w0) ->
            status (errorResponse "An error occurred uploading media" e') = 201 ->
            False) as Hcreate.
  { intros c w4 e' Ec Hs.
    destruct (createAndRespond_cases owner file env c w4)
      as [[msg Ec']|(uid & _ & _ & _ & Ec')]; rewrite Ec' in Ec; [|done].
    by injection Ec as <- _. }
  destruct (isImage (File.mimetype file)).
  - destruct (ingestImage_cases owner ("https://" +:+ Req.host req)
                (uploadMediaType (File.mimetype file)) file env w)
      as (w1 & _ & _ & _ & [[msg Ei]|[(msg & n & w2 & Ei & _)
           |(n & m & k & c & w4 & Ei & _)]]);
      rewrite Ei in Eb; try (injection Eb as <- _; done).
    by eapply Hcreate.
  - destruct (isVideo (File.mimetype file)).
    + destruct (ingestVideo_spec owner ("https://" +:+ Req.host req)
                  (uploadMediaType (File.mimetype file)) file env w)
        as (w1 & Ei & _). rewrite Ei in Eb. by eapply Hcreate.
    + unfold ingestDocument, ret in Eb. by eapply Hcreate.
Qed.

Lemma externalUploadMedia_accepted req env file w r w' :
  Req.file req = Some file ->
  externalUploadMedia req env w = (r, w') -> status r = 201 ->
  exists owner,
    Req.userId req = Some owner
    /\ (c <- (if isImage (File.mimetype file)
              then ingestImage owner ("https://" +:+ Req.host req)
                     (uploadMediaType (File.mimetype file)) file env
              else if isVideo (File.mimetype file)
              then externalIngestVideo owner ("https://" +:+ Req.host req)
                     (uploadMediaType (File.mimetype file)) file env
              else ingestDocument owner ("https://" +:+ Req.host req)
                     (uploadMediaType (File.mimetype file)) file) ;;
        createAndRespond owner file env c) w = (Ok r, w').
Proof.
  intros Hfile E Hstatus. unfold externalUploadMedia, handler in E.
  rewrite Hfile in E.
  destruct (Req.userId req) as [owner|]; [|by injection E as <- _].
  simpl in E. destruct (Js.truthy owner); [|by injection E as <- _].
  simpl in E. exists owner. split; [done|].
  rewrite bind_eq in E. unfold User_findById in E at 1.
  destruct (castObjectId owner) as [uid|]; [|by injection E as <- _].
  destruct (bool_decide (uid ∈ users w)); simpl in E;
    [|by injection E as <- _].
  match type of E with
  | (let (_, _) := ?body w in _) = _ =>
      destruct (body w) as [[r0|e] w0] eqn:Eb
  end; [by injection E as <- <-|].
  exfalso. injection E as <- <-. rewrite bind_eq in Eb.
  assert (forall c w4 e',
            createAndRespond owner file env c w4 = (Throw e', w0) ->
            status (errorResponse "An error occurred uploading media" e') = 201 ->
            False) as Hcreate.
  { intros c w4 e' Ec Hs.
    destruct (createAndRespond_cases owner file env c w4)
      as [[msg Ec']|(uid' & _ & _ & _ & Ec')]; rewrite Ec' in Ec; [|done].
    by injection Ec as <- _. }
  destruct (isImage (File.mimetype file)).
  - destruct (ingestImage_cases owner ("https://" +:+ Req.host req)
                (uploadMediaType (File.mimetype file)) file env w)
      as (w1 & _ & _ & _ & [[msg Ei]|[(msg & n & w2 & Ei & _)
           |(n & m & k & c & w4 & Ei & _)]]);
      rewrite Ei in Eb; try (injection Eb as <- _; done).
    by eapply Hcreate.
  - destruct (isVideo (File.mimetype file)).
    + destruct (externalIngestVideo_cases owner ("https://" +:+ Req.host req)
                  (uploadMediaType (File.mimetype file)) file env w)
        as [(msg & w1 & Ei)|(w1 & Ei & _)]; rewrite Ei in Eb.
      * by injection Eb as <- _.
      * by eapply Hcreate.
    + unfold ingestDocument, ret in Eb. by eapply Hcreate.
Qed.

(** Every accepted video upload. *)
Lemma accepted_video_upload req env file w r w' :
  Req.file req = Some file ->
  isVideo (File.mimetype file) = true ->
  uploadMedia req env w = (r, w') \/ externalUploadMedia req env w = (r, w') ->
  status r = 201 ->
  exists owner source,
    (Req.user req = Some owner \/ Req.userId req = Some owner)
    /\ videoUploaded owner (Req.host req) source file env r w'.
Proof.
  intros Hfile Hvid [E|E] Hstatus.
  - destruct (uploadMedia_accepted _ _ _ _ _ _ Hfile E Hstatus)
      as (owner & Huser & Eb).
    exists owner, (File.path file). split; [by left|].
    rewrite (isVideo_not_isImage _ Hvid), Hvid in Eb.
    rewrite (isVideo_uploadMediaType _ Hvid) in Eb. rewrite bind_eq in Eb.
    destruct (ingestVideo_spec owner ("https://" +:+ Req.host req) "videos"
                file env w) as (w1 & Ei & D1 & J1 & _).
    rewrite Ei in Eb.
    eapply video_created; [exact Eb|rewrite J1..];
      apply elem_of_app; right; repeat constructor.
  - destruct (externalUploadMedia_accepted _ _ _ _ _ _ Hfile E Hstatus)
      as (owner & Huser & Eb).
    exists owner, (getUserFilePath owner "videos" (File.filename file)).
    split; [by right|].
    rewrite (isVideo_not_isImage _ Hvid), Hvid in Eb.
    rewrite (isVideo_uploadMediaType _ Hvid) in Eb. rewrite bind_eq in Eb.
    destruct (externalIngestVideo_cases owner ("https://" +:+ Req.host req)
                "videos" file env w)
      as [(msg & w1 & Ei)|(w1 & Ei & D1 & J1)]; rewrite Ei in Eb; [done|].
    eapply video_created; [exact Eb|rewrite J1..];
      apply elem_of_app; right; repeat constructor.
Qed.

(** ** Completion of the background jobs *)

Lemma quiet_ret {A} (a : A) : quiet (ret a).
Proof. intros w. exists []. by rewrite app_nil_r. Qed.

Lemma quiet_throw {A} e : quiet (@throw A e).
Proof. intros w. exists []. by rewrite app_nil_r. Qed.

Lemma quiet_bind {A B} (m : M A) (k : A -> M B) :
  quiet m -> (forall a, quiet (k a)) -> quiet (bind m k).
Proof.
  intros Hm Hk w. rewrite bind_eq. destruct (Hm w) as (evs & T & F & D).
  destruct (m w) as [[a|e] w1]; simpl in *; [|by exists evs].
  destruct (Hk a w1) as (evs' & T' & F' & D').
  exists (evs ++ evs'). rewrite T', T, D', D, <- (assoc (++)).
  split; [done|]. split; [|done]. unfold dbUpdates in *. by rewrite List.filter_app, F, F'.
Qed.

Lemma quiet_when b m : quiet m -> quiet (when b m).
Proof. intros H. destruct b; [done|]. apply quiet_ret. Qed.

Lemma quiet_tryCatch {A} (body : M A) h :
  quiet body -> (forall e, quiet (h e)) -> quiet (tryCatch body h).
Proof.
  intros Hb Hh w. unfold tryCatch. destruct (Hb w) as (evs & T & F & D).
  destruct (body w) as [[a|e] w1]; simpl in *; [by exists evs|].
  destruct (Hh e w1) as (evs' & T' & F' & D').
  exists (evs ++ evs'). rewrite T', T, D', D, <- (assoc (++)).
  split; [done|]. split; [|done]. unfold dbUpdates in *. by rewrite List.filter_app, F, F'.
Qed.

Lemma quiet_existsSync p : quiet (existsSync p).
Proof. intros w. exists []. by rewrite app_nil_r. Qed.

Lemma quiet_unlinkSync p : quiet (unlinkSync p).
Proof.
  intros w. unfold unlinkSync. destruct (fs w !! p) as [[]|].
  - by exists [EvUnlink p].
  - exists []. by rewrite app_nil_r.
  - exists []. by rewrite app_nil_r.
Qed.

Lemma quiet_statSync_size p : quiet (statSync_size p).
Proof.
  intros w. unfold statSync_size. exists []. rewrite app_nil_r.
  by destruct (fs w !! p) as [[]|].
Qed.

Lemma quiet_console_log msg : quiet (console_log msg).
Proof. intros w. by exists [EvLog msg]. Qed.

Lemma quiet_unlinkIfExists p : quiet (unlinkIfExists p).
Proof.
  apply quiet_bind; [apply quiet_existsSync|]. intros ex.
  apply quiet_when, quiet_unlinkSync.
Qed.

Lemma encode_cases src dst outcome w :
  (exists msg, encode src dst outcome w = (Throw (LibError msg), w))
  \/ (exists n k,
        outcome = Some n /\ fs w !! src = Some (FileNode k)
        /\ encode src dst outcome w
           = (Ok tt, emit (EvWrite dst n)
                       (with_fs (<[dst := FileNode n]> (fs w)) w))).
Proof.
  unfold encode.
  destruct (fs w !! src) as [[k|]|] eqn:Hsrc; [|left; by eexists..].
  destruct outcome as [n|]; [|left; by eexists].
  destruct (fs w !! dst) as [[?|]|] eqn:Hdst; [|left; by eexists|];
    right; by exists n, k.
Qed.

(** Casting a uuid to an ObjectId fails. *)
Lemma uuid_not_objectId u : isUuid u = true -> castObjectId u = None.
Proof.
  unfold isUuid, castObjectId, isObjectIdString.
  intros [Hlen%Nat.eqb_eq _]%andb_true_iff. by rewrite Hlen.
Qed.

Lemma uuid_update_throws u p w :
  isUuid u = true ->
  Media_findByIdAndUpdate u p w
  = (Throw (LibError "Cast to ObjectId failed"), w).
Proof.
  intros H. unfold Media_findByIdAndUpdate. by rewrite uuid_not_objectId.
Qed.

(** The transcode an upload launched, when it completes: with a uuid as
    [dbRecordId] the update call throws and is logged; the collection stays
    as it is, and so does every file but the transcoded one. *)
Lemma upload_transcode_completion src optimizedPath dbRecordId optimizedUrl
    originalPath uploadedName outcome w :
  isUuid dbRecordId = true ->
  let w' := complete (TranscodeUpload src optimizedPath dbRecordId
                        optimizedUrl originalPath uploadedName) outcome w in
  db w' = db w
  /\ (forall p, p <> optimizedPath -> fs w' !! p = fs w !! p)
  /\ ((exists n,
         outcome = Some n
         /\ fs w' !! optimizedPath = Some (FileNode n)
         /\ trace w' = trace w ++
              [EvWrite optimizedPath n;
               EvLog "Error updating media record after optimization:"])
      \/ w' = emit (EvLog "Error optimizing video:") w).
Proof.
  intros Huuid. simpl. unfold complete.
  destruct (encode_cases src optimizedPath outcome w)
    as [[msg E]|(n & k & Ho & Hsrc & E)]; rewrite E.
  - unfold run, console_log, modify. simpl. split; [done|]. split; [done|].
    by right.
  - unfold run, onUploadTranscodeEnd, tryCatch. rewrite bind_eq.
    rewrite (statSync_size_file optimizedPath n) by apply lookup_insert_eq.
    rewrite bind_eq, uuid_update_throws by done. simpl.
    split; [done|]. split.
    + intros p Hp. by rewrite lookup_insert_ne.
    + left. exists n. rewrite lookup_insert_eq, <- (assoc (++)). done.
Qed.

(** The same holds of the transcode of every upload whose [dbRecordId] is
    a uuid: its completion never changes the collection. *)
Lemma upload_transcode_never_updates owner baseUrl mediaType source file env
    outcome w :
  isUuid (Env.uuid env) = true ->
  db (complete (transcodeJob owner baseUrl mediaType source file env)
        outcome w) = db w.
Proof.
  intros H. unfold transcodeJob.
  by destruct (upload_transcode_completion source
                 (getOptimizedPath owner mediaType
                    ("opt_" +:+ Path.parse_name (File.filename file) +:+ ".mp4"))
                 (Env.uuid env)
                 (baseUrl +:+ "/uploads/" +:+ owner +:+ "/" +:+ mediaType
                    +:+ "/optimized/" +:+ "opt_"
                    +:+ Path.parse_name (File.filename file) +:+ ".mp4")
                 source (File.filename file) outcome w H) as [? _].
Qed.

Lemma encode_throw src dst outcome w e w1 :
  encode src dst outcome w = (Throw e, w1) -> w1 = w.
Proof.
  destruct (encode_cases src dst outcome w)
    as [[msg E]|(n & k & _ & _ & E)]; rewrite E; congruence.
Qed.

(** C6, as amended.  For every accepted video upload (the handler of either
    controller answers 201), the response is given while the thumbnail job
    is still pending, and when the thumbnail extraction then fails, the
    failure is only logged: nothing else changes.  The persisted record's
    thumbnailUrl was set to the locator of the expected thumbnail when the
    record was created, and it stays set. *)
Theorem C6_failed_thumbnail_is_only_logged
    (req : Req.t) (env : Env.t) (file : File.t) (w : World)
    (r : Response) (w' : World) :
  Req.file req = Some file ->
  isVideo (File.mimetype file) = true ->
  uploadMedia req env w = (r, w') \/ externalUploadMedia req env w = (r, w') ->
  status r = 201 ->
  exists owner source,
    (Req.user req = Some owner \/ Req.userId req = Some owner)
    /\ videoUploaded owner (Req.host req) source file env r w'
    /\ forall outcome later e w1,
         encode (File.path file)
           (Path.join [Path.join [BASE_UPLOAD_PATH; owner; "thumbnails"];
                       "thumb_" +:+ Path.parse_name (File.filename file)
                                +:+ ".jpg"])
           outcome later = (Throw e, w1) ->
         complete (screenshotJob owner file) outcome later
         = emit (EvLog "Error generating video thumbnail:") later.
Proof.
  intros Hfile Hvid E Hstatus.
  destruct (accepted_video_upload req env file w r w' Hfile Hvid E Hstatus)
    as (owner & source & Howner & Hup).
  exists owner, source. split; [done|]. split; [done|].
  intros outcome later e w1 Eenc. unfold complete, screenshotJob.
  rewrite Eenc. by rewrite (encode_throw _ _ _ _ _ _ Eenc).
Qed.

(** *** Update calls of the completions *)

Lemma Media_save_cases loaded doc w :
  (modifiedPaths loaded doc = emptyPatch
   /\ Media_save loaded doc w = (Ok tt, w))
  \/ (exists msg, Media_save loaded doc w = (Throw (LibError msg), w))
  \/ (exists m,
        db w !! _id doc = Some m
        /\ Media_save loaded doc w
           = (Ok tt, updateRecord (_id doc) (modifiedPaths loaded doc) m w)).
Proof.
  unfold Media_save. case_bool_decide as Hp; [by left|].
  destruct (db w !! _id doc) as [m|]; right; [right|left]; by eexists.
Qed.

Lemma applyPatch_modifiedPaths_transcoded url size media :
  applyPatch
    (modifiedPaths media (setFileUrl url (setOptimized url size media))) media
  = setFileUrl url (setOptimized url size media).
Proof.
  unfold applyPatch, modifiedPaths, setFileUrl, setOptimized. simpl.
  f_equal; repeat case_bool_decide; simpl; congruence.
Qed.

Lemma atomic_prefix j w w1 w' evs0 :
  trace w1 = trace w ++ evs0 -> dbUpdates evs0 = [] -> db w1 = db w ->
  atomicCompletion j w1 w' -> atomicCompletion j w w'.
Proof.
  intros T0 F0 D0 (evs & T & H). exists (evs0 ++ evs).
  rewrite T, T0, <- (assoc (++)). split; [done|].
  unfold dbUpdates in *. rewrite List.filter_app, F0. simpl.
  rewrite <- D0. exact H.
Qed.

Lemma quiet_atomic {A} (m : M A) j w :
  quiet m -> atomicCompletion j w (snd (m w)).
Proof.
  intros Hq. destruct (Hq w) as (evs & T & F & D).
  exists evs. split; [done|]. by left.
Qed.

(** An update step that makes at most one update call, followed by steps
    that make none, inside a try-catch whose handler makes none. *)
Lemma atomic_update_then_quiet {B} j (upd : M unit) (rest : unit -> M B)
    (h : Error -> M B) w :
  (forall u, quiet (rest u)) -> (forall e, quiet (h e)) ->
  (upd w = (Ok tt, w)
   \/ (exists e, upd w = (Throw e, w))
   \/ (exists id p m,
         db w !! id = Some m /\ carriesAll j p
         /\ upd w = (Ok tt, updateRecord id p m w))) ->
  atomicCompletion j w (snd (tryCatch (bind upd rest) h w)).
Proof.
  intros Hrest Hh Hupd.
  assert (quiet (tryCatch (rest tt) h)) as Hq by (by apply quiet_tryCatch).
  unfold tryCatch. rewrite bind_eq.
  destruct Hupd as [E|[[e E]|(id & p & m & Hm & Hc & E)]]; rewrite E.
  - apply (quiet_atomic (tryCatch (rest tt) h) j w Hq).
  - apply (quiet_atomic (h e) j w (Hh e)).
  - destruct (Hq (updateRecord id p m w)) as (evs & T & F & D).
    unfold tryCatch in T, D.
    exists (EvDbUpdate id p (applyPatch p m) :: evs).
    split; [rewrite T; simpl; by rewrite <- (assoc (++))|].
    right. exists id, p, m. unfold dbUpdates in *. simpl. rewrite F, D.
    by split_and!.
Qed.

(** C5, as amended.  For every completion of a background job, the
    record-store update it triggers is a single update call: the completion
    performs no update call and leaves the collection as it is, or exactly
    one, and that call carries every field the completion changes
    (optimizedFileUrl, isOptimized, fileSize and fileUrl for the transcode
    of optimizeMedia; optimizedFileUrl, isOptimized and fileSize for the
    transcode of an upload).  No state with only some of them is
    persisted. *)
Theorem C5_completion_updates_in_one_call (j : Job) (outcome : option N)
    (w : World) :
  atomicCompletion j w (complete j outcome w).
Proof.
  destruct j as [src folder filename
                |src optimizedPath dbRecordId optimizedUrl originalPath name
                |sourcePath optimizedPath optimizedUrl media];
    unfold complete.
  - (* screenshot: no update at all *)
    destruct (encode_cases src (Path.join [folder; filename]) outcome w)
      as [[msg E]|(n & k & _ & _ & E)]; rewrite E.
    + exists [EvLog "Error generating video thumbnail:"]. split; [done|].
      by left.
    + exists [EvWrite (Path.join [folder; filename]) n]. split; [done|].
      by left.
  - destruct (encode_cases src optimizedPath outcome w)
      as [[msg E]|(n & k & _ & _ & E)]; rewrite E.
    { exists [EvLog "Error optimizing video:"]. split; [done|]. by left. }
    set (w1 := emit _ _).
    apply (atomic_prefix _ w w1 _ [EvWrite optimizedPath n]); [done..|].
    unfold run, onUploadTranscodeEnd.
    assert (statSync_size optimizedPath w1 = (Ok n, w1)) as Hstat
      by (apply statSync_size_file, lookup_insert_eq).
    unfold tryCatch at 1. rewrite bind_eq, Hstat.
    match goal with
    | |- atomicCompletion ?j w1
           (snd (let (_, _) := bind ?upd ?rest w1 in _)) =>
        apply (atomic_update_then_quiet j upd rest
                 (fun _ => console_log
                    "Error updating media record after optimization:") w1)
    end.
    + intros u. apply quiet_bind; [apply quiet_console_log|].
      intros _. apply quiet_unlinkIfExists.
    + intros e. apply quiet_console_log.
    + unfold Media_findByIdAndUpdate.
      destruct (castObjectId dbRecordId) as [oid|]; [|right; left; by eexists].
      destruct (db w1 !! oid) as [m|] eqn:Hm; [|by left].
      right; right. eexists oid, _, m. split; [done|]. split; [|done].
      by exists n.
  - destruct (encode_cases sourcePath optimizedPath outcome w)
      as [[msg E]|(n & k & _ & _ & E)]; rewrite E.
    { exists [EvLog "Error optimizing video:"]. split; [done|]. by left. }
    set (w1 := emit _ _).
    apply (atomic_prefix _ w w1 _ [EvWrite optimizedPath n]); [done..|].
    unfold run, onReoptTranscodeEnd.
    assert (statSync_size optimizedPath w1 = (Ok n, w1)) as Hstat
      by (apply statSync_size_file, lookup_insert_eq).
    unfold tryCatch at 1. rewrite bind_eq, Hstat.
    match goal with
    | |- atomicCompletion ?j w1
           (snd (let (_, _) := bind ?upd ?rest w1 in _)) =>
        apply (atomic_update_then_quiet j upd rest
                 (fun _ => console_log
                    "Error updating media record after optimization:") w1)
    end.
    + intros u. apply quiet_bind; [apply quiet_existsSync|]. intros ex.
      apply quiet_bind; [apply quiet_when, quiet_unlinkSync|]. intros _.
      apply quiet_console_log.
    + intros e. apply quiet_console_log.
    + destruct (Media_save_cases media
                  (setFileUrl optimizedUrl
                     (setOptimized optimizedUrl n media)) w1)
        as [[Hp Es]|[[msg Es]|(m & Hm & Es)]]; rewrite Es.
      * by left.
      * right; left. by eexists.
      * right; right. eexists _, _, m. split; [exact Hm|]. split; [|done].
        exists n. apply applyPatch_modifiedPaths_transcoded.
Qed.

(** * Further properties of the handlers

    ** Deletion touches one record at most *)

Lemma stable_db d : stable (fun w => db w = d).
Proof. intros w w' H _ Hw. congruence. Qed.

Lemma deleteFound_db userId mediaId media d :
  triple (fun w => db w = d) (deleteFound userId mediaId media)
    (fun r w => r = {| status := 200; body := BDeleted mediaId |}
                /\ db w = delete (_id media) d)
    (fun w => db w = d).
Proof.
  unfold deleteFound.
  do 3 (eapply triple_bind_fs;
        [eauto 10 with fsOnly | apply stable_db | auto | intros ?]).
  eapply triple_bind.
  - instantiate (1 := fun _ w => db w = delete (_id media) d).
    intros w Hw. simpl. by rewrite Hw.
  - intros ?. by apply triple_ret'.
Qed.

(** The lookup and what follows it, in both controllers. *)
Lemma findThenDelete_db mediaId requester w :
  match (found <- Media_findOne mediaId requester ;;
         match found with
         | None => throw (ApiError "Media not found" 404)
         | Some media => deleteFound requester mediaId media
         end) w with
  | (Ok r, w') =>
      r = {| status := 200; body := BDeleted mediaId |}
      /\ exists id media,
           castObjectId mediaId = Some id /\ db w !! id = Some media
           /\ castObjectId requester = Some (userId media)
           /\ db w' = delete (_id media) (db w)
  | (Throw e, w') => db w' = db w
  end.
Proof.
  rewrite bind_eq.
  destruct (Media_findOne mediaId requester w) as [[[media|]|e] w1] eqn:E.
  - apply findOne_Some in E as (-> & id & uid & H1 & H2 & H3 & H4).
    pose proof (deleteFound_db requester mediaId media (db w) w eq_refl) as H.
    destruct (deleteFound requester mediaId media w) as [[r|e] w'].
    + destruct H as [-> H]. split; [done|]. exists id, media.
      rewrite H4. done.
    + done.
  - unfold Media_findOne in E.
    destruct (castObjectId mediaId), (castObjectId requester); try done.
    + destruct (db w !! s); [case_bool_decide|]; by inversion E.
  - unfold Media_findOne in E.
    destruct (castObjectId mediaId), (castObjectId requester);
      try (by inversion E).
    destruct (db w !! s); [case_bool_decide|]; by inversion E.
Qed.

Lemma delete_spares id m requester mediaId (d d' : gmap string Media) :
  (forall id m, d !! id = Some m -> _id m = id) ->
  d !! id = Some m ->
  (exists id0 media,
     castObjectId mediaId = Some id0 /\ d !! id0 = Some media
     /\ castObjectId requester = Some (userId media)
     /\ d' = delete (_id media) d) ->
  d' !! id = Some m
  \/ (castObjectId mediaId = Some id /\ ownedBy (Some requester) m).
Proof.
  intros Hid Hm (id0 & media & H1 & H2 & H3 & ->).
  rewrite (Hid _ _ H2).
  destruct (decide (id0 = id)) as [->|Hne].
  - right. split; [done|]. exists requester. split; [done|]. congruence.
  - left. by rewrite lookup_delete_ne.
Qed.

(** X1. In every reachable state, a delete request removes from the
    collection at most the record it addresses, and only when that record
    belongs to the requester and the answer is 200: every other record is
    still there afterwards, whatever the request.  This holds for both
    controllers. *)
Theorem X1_delete_spares_other_records
    (req : Req.t) (w : World) (id : string) (m : Media) :
  reachable w ->
  db w !! id = Some m ->
  (db (snd (deleteMedia req w)) !! id = Some m
   \/ (status (fst (deleteMedia req w)) = 200
       /\ castObjectId (Req.id req) = Some id
       /\ ownedBy (Req.user req) m))
  /\ (db (snd (externalDeleteMedia req w)) !! id = Some m
      \/ (status (fst (externalDeleteMedia req w)) = 200
          /\ castObjectId (Req.id req) = Some id
          /\ ownedBy (Req.userId req) m)).
Proof.
  intros Hr Hm.
  assert (forall id m, db w !! id = Some m -> _id m = id) as Hid.
  { intros i x Hx. by destruct (proj1 (reachable_worldOk w Hr) i x Hx). }
  split.
  - unfold deleteMedia, handler.
    destruct (Req.user req) as [requester|]; [|by left].
    pose proof (findThenDelete_db (Req.id req) requester w) as H.
    destruct (bind _ _ w) as [[r|e] w']; simpl.
    + destruct H as [-> H].
      destruct (delete_spares id m requester (Req.id req) (db w) (db w')
                  Hid Hm H) as [?|[? ?]]; auto.
    + left. by rewrite H.
  - unfold externalDeleteMedia, handler.
    destruct (Req.userId req) as [requester|]; [|by left].
    simpl. destruct (Js.truthy requester); [|by left]. simpl.
    pose proof (findThenDelete_db (Req.id req) requester w) as H.
    destruct (bind _ _ w) as [[r|e] w']; simpl.
    + destruct H as [-> H].
      destruct (delete_spares id m requester (Req.id req) (db w) (db w')
                  Hid Hm H) as [?|[? ?]]; auto.
    + left. by rewrite H.
Qed.

(** ** An upload adds one record, or none *)

Lemma ingestImage_branchOk userId baseUrl mediaType file env w :
  branchOk (ingestImage userId baseUrl mediaType file env) w.
Proof.
  unfold branchOk.
  destruct (ingestImage_cases userId baseUrl mediaType file env w)
    as (w1 & Hdb & _ & _ & [(msg & ->)|[(msg & n & w2 & -> & _ & _ & ? & _)
                                       |(n & m & k & c & w4 & -> & H)]]).
  - eauto.
  - eauto.
  - by destruct H as (_ & _ & _ & _ & _ & _ & _ & _ & _ & _ & ? & _).
Qed.

Lemma ingestVideo_branchOk userId baseUrl mediaType file env w :
  branchOk (ingestVideo userId baseUrl mediaType file env) w.
Proof.
  unfold branchOk.
  destruct (ingestVideo_spec userId baseUrl mediaType file env w)
    as (w1 & -> & ? & _). done.
Qed.

Lemma triple_launch_db j d :
  triple (fun w => db w = d) (launch j) (fun _ w => db w = d)
    (fun w => db w = d).
Proof. by intros w Hw. Qed.

Lemma externalIngestVideo_db userId baseUrl mediaType file env d :
  triple (fun w => db w = d)
    (externalIngestVideo userId baseUrl mediaType file env)
    (fun _ w => db w = d) (fun w => db w = d).
Proof.
  unfold externalIngestVideo.
  do 2 (eapply triple_bind_fs;
        [eauto 10 with fsOnly | apply stable_db | auto | intros ?]).
  eapply triple_bind; [apply triple_launch_db|]. intros ?.
  do 2 (eapply triple_bind_fs;
        [eauto 10 with fsOnly | apply stable_db | auto | intros ?]).
  eapply triple_bind; [apply triple_launch_db|]. intros ?.
  by apply triple_ret'.
Qed.

Lemma externalIngestVideo_branchOk userId baseUrl mediaType file env w :
  branchOk (externalIngestVideo userId baseUrl mediaType file env) w.
Proof.
  unfold branchOk.
  pose proof (externalIngestVideo_db userId baseUrl mediaType file env
                (db w) w eq_refl) as Hdb.
  destruct (externalIngestVideo_cases userId baseUrl mediaType file env w)
    as [(msg & w1 & E)|(w1 & E & _)]; rewrite E in Hdb |- *; eauto.
Qed.

Lemma ingestDocument_branchOk userId baseUrl mediaType file w :
  branchOk (ingestDocument userId baseUrl mediaType file) w.
Proof. done. Qed.

Lemma upload_core_outcome (m : M Computed) userId file env fallback w :
  branchOk m w ->
  uploadOutcome env w
    (fst (handler fallback (c <- m ;; createAndRespond userId file env c) w))
    (snd (handler fallback (c <- m ;; createAndRespond userId file env c) w)).
Proof.
  unfold branchOk, handler. rewrite bind_eq.
  destruct (m w) as [[c|e] w1].
  - intros Hdb.
    destruct (createAndRespond_cases userId file env c w1)
      as [(msg & ->)|(uid & _ & Hfree & _ & ->)]; simpl.
    + right. split; [done|]. split; [eauto|]. done.
    + left. split; [done|]. eexists. split; [done|]. simpl.
      rewrite <- Hdb. done.
  - intros [(msg & ->) Hdb]. simpl.
    right. split; [done|]. split; [eauto|]. done.
Qed.

(** X2. Whatever the request, an upload adds exactly one record to the
    collection and answers 201 with it, stored under the ObjectId the
    driver generated, or it answers with an error (never 201) and leaves
    the collection as it was.  This holds for both controllers. *)
Theorem X2_upload_adds_one_record_or_none
    (req : Req.t) (env : Env.t) (w : World) :
  uploadOutcome env w (fst (uploadMedia req env w))
                      (snd (uploadMedia req env w))
  /\ uploadOutcome env w (fst (externalUploadMedia req env w))
                         (snd (externalUploadMedia req env w)).
Proof.
  split.
  - unfold uploadMedia.
    destruct (Req.file req) as [file|];
      [|right; split; [done|]; split; [by eexists|done]].
    destruct (Req.user req) as [userId|];
      [|right; split; [done|]; split; [by eexists|done]].
    apply upload_core_outcome.
    destruct (isImage (File.mimetype file));
      [apply ingestImage_branchOk|].
    destruct (isVideo (File.mimetype file));
      [apply ingestVideo_branchOk|apply ingestDocument_branchOk].
  - unfold externalUploadMedia.
    destruct (Req.file req) as [file|];
      [|right; split; [done|]; split; [by eexists|done]].
    destruct (negb (Js.truthy_opt (Req.userId req))) eqn:Hu;
      [right; split; [done|]; split; [by eexists|done]|].
    set (userId := default "" (Req.userId req)).
    destruct (User_findById userId w) as [[user|e] w1] eqn:Eu.
    + assert (w1 = w) as ->.
      { unfold User_findById in Eu.
        destruct (castObjectId userId); by inversion Eu. }
      destruct user.
      * assert (forall k : bool -> M Response,
                  k true = (c <- (if isImage (File.mimetype file)
                        then ingestImage userId ("https://" +:+ Req.host req)
                               (uploadMediaType (File.mimetype file)) file env
                        else if isVideo (File.mimetype file)
                        then externalIngestVideo userId
                               ("https://" +:+ Req.host req)
                               (uploadMediaType (File.mimetype file)) file env
                        else ingestDocument userId
                               ("https://" +:+ Req.host req)
                               (uploadMediaType (File.mimetype file)) file) ;;
                        createAndRespond userId file env c) ->
                  handler "An error occurred uploading media"
                    (bind (User_findById userId) k) w
                  = handler "An error occurred uploading media" (k true) w)
          as Hk.
        { intros k Hk. unfold handler. rewrite bind_eq, Eu. done. }
        rewrite Hk by done.
        apply upload_core_outcome.
        destruct (isImage (File.mimetype file));
          [apply ingestImage_branchOk|].
        destruct (isVideo (File.mimetype file));
          [apply externalIngestVideo_branchOk|apply ingestDocument_branchOk].
      * unfold handler. rewrite bind_eq, Eu. simpl.
        right. split; [done|]. split; [by eexists|done].
    + unfold handler. rewrite bind_eq, Eu. simpl.
      assert (w1 = w /\ exists msg, e = LibError msg) as [-> [msg ->]].
      { unfold User_findById in Eu.
        destruct (castObjectId userId); inversion Eu; eauto. }
      right. split; [done|]. split; [by eexists|done].
Qed.

(** ** Documents are stored as they are *)

Lemma classify_Document m :
  classify m = Document -> isImage m = false /\ isVideo m = false.
Proof.
  unfold classify. destruct (isImage m); [done|].
  by destruct (isVideo m).
Qed.

Lemma document_created owner host file env w r w' :
  (c <- ingestDocument owner ("https://" +:+ host)
          (uploadMediaType (File.mimetype file)) file ;;
   createAndRespond owner file env c) w = (Ok r, w') ->
  documentUploaded owner host file w r w'.
Proof.
  rewrite bind_eq. unfold ingestDocument at 1, ret at 1.
  intros H.
  destruct (createAndRespond_cases owner file env
              {| c_fileUrl :=
                   ("https://" +:+ host) +:+ "/uploads/" +:+ owner +:+ "/"
                     +:+ uploadMediaType (File.mimetype file) +:+ "/"
                     +:+ File.filename file;
                 c_thumbnailUrl := None;
                 c_optimizedFileUrl := None;
                 c_isOptimized := false;
                 c_optimizedSize := File.size file;
                 c_newFileName := File.filename file |} w)
    as [(msg & E)|(uid & _ & _ & _ & E)];
    rewrite E in H; [done|].
  inversion H; subst. eexists. split; [done|]. simpl.
  rewrite str_app_assoc. done.
Qed.

(** X3. For every accepted upload of a file that is neither image nor
    video, in both controllers, the record describes the file exactly as
    the disk storage stored it (name, size, MIME type), its URL points into
    the media type directory of the owner, it has no thumbnail and no
    optimized version and is not optimized; the upload touches no file and
    launches no job.  For the MIME types the file filter of POST /api/media
    accepts, that directory is documents. *)
Theorem X3_document_upload_is_stored_as_is
    (req : Req.t) (env : Env.t) (file : File.t) (w : World)
    (r : Response) (w' : World) :
  Req.file req = Some file ->
  classify (File.mimetype file) = Document ->
  uploadMedia req env w = (r, w') \/ externalUploadMedia req env w = (r, w') ->
  status r = 201 ->
  (exists owner,
     (Req.user req = Some owner \/ Req.userId req = Some owner)
     /\ documentUploaded owner (Req.host req) file w r w')
  /\ (fileFilter (File.mimetype file) = true ->
      uploadMediaType (File.mimetype file) = "documents").
Proof.
  intros Hfile [Hi Hv]%classify_Document Hup Hst. split.
  - destruct Hup as [Hup|Hup].
    + destruct (uploadMedia_accepted req env file w r w' Hfile Hup Hst)
        as (owner & Ho & H).
      rewrite Hi, Hv in H. exists owner. split; [by left|].
      by apply (document_created owner (Req.host req) file env).
    + destruct (externalUploadMedia_accepted req env file w r w' Hfile Hup Hst)
        as (owner & Ho & H).
      rewrite Hi, Hv in H. exists owner. split; [by right|].
      by apply (document_created owner (Req.host req) file env).
  - intros Hf. destruct (fileFilter_agree _ Hf) as [_ H].
    unfold classify in H. rewrite Hi, Hv in H.
    unfold uploadMediaType in *.
    destruct (Js.startsWith (File.mimetype file) "image"); [done|].
    by destruct (Js.startsWith (File.mimetype file) "video").
Qed.

(** ** Creating the directories of an owner *)




(** ** Re-optimization of a video *)


Lemma modifiedPaths_optimized_nonempty loaded doc :
  isOptimized loaded = false -> isOptimized doc = true ->
  modifiedPaths loaded doc <> emptyPatch.
Proof.
  intros H1 H2 E. apply (f_equal set_isOptimized) in E. simpl in E.
  rewrite H1, H2 in E. by rewrite bool_decide_eq_false_2 in E.
Qed.


(** ** Re-optimization of an image *)

Lemma isImage_mediaTypeOf t : isImage t = true -> mediaTypeOf t = "images".
Proof. intros H. unfold mediaTypeOf. by rewrite H. Qed.

(** Saving a document that differs from the persisted record in the fields
    an update can set brings the record to the state of the document. *)
Lemma applyPatch_modifiedPaths a b :
  _id a = _id b -> fileName a = fileName b ->
  originalFileName a = originalFileName b -> fileType a = fileType b ->
  thumbnailUrl a = thumbnailUrl b -> userId a = userId b ->
  optimizedFileUrl b <> None ->
  applyPatch (modifiedPaths a b) a = b.
Proof.
  destruct a, b. simpl. intros -> -> -> -> -> -> Hu.
  unfold applyPatch, modifiedPaths. simpl.
  f_equal; repeat case_bool_decide; simpl; try done.
  by destruct optimizedFileUrl1.
Qed.

Lemma findOne_found mediaId owner id uid m w :
  castObjectId mediaId = Some id -> castObjectId owner = Some uid ->
  db w !! id = Some m -> userId m = uid ->
  Media_findOne mediaId owner w = (Ok (Some m), w).
Proof.
  intros H1 H2 H3 H4. unfold Media_findOne. rewrite H1, H2, H3.
  by rewrite bool_decide_eq_true_2.
Qed.

(** X6. For every image record that is not optimized and whose file is not
    WebP, in a collection whose records are stored under their _id and have
    an optimized URL only if they are optimized (as they are in every
    reachable state): when optimizeMedia answers 200, the sharp run
    succeeded, the optimized file is on disk with the size the record
    now has, the source file is removed, and the record is optimized with
    fileUrl and optimizedFileUrl at the optimized file.  A second
    optimizeMedia on the same record answers 200, already optimized, and
    changes nothing. *)
Theorem X6_optimized_image_then_noop
    (req : Req.t) (env env' : Env.t) (owner : string) (media : Media)
    (w : World) (r : Response) (w' : World) :
  worldOk w ->
  Req.user req = Some owner ->
  Media_findOne (Req.id req) owner w = (Ok (Some media), w) ->
  isImage (fileType media) = true ->
  isOptimized media = false ->
  Js.endsWith (fileName media) ".webp" = false ->
  optimizeMedia req env w = (r, w') ->
  status r = 200 ->
  let baseUrl := Req.protocol req +:+ "://" +:+ Req.host req in
  let src := getUserFilePath owner "images" (fileName media) in
  let dst :=
    getOptimizedPath owner "images"
      ("opt_" +:+ Path.parse_name (fileName media) +:+ ".webp") in
  exists n,
    Env.encoded env = Some n
    /\ let media' := reoptimizedImage owner baseUrl n media in
       body r = BImageOptimized (_id media) (fileUrl media')
                  (optimizedFileUrl media') true n
       /\ optimizedFileUrl media' = Some (fileUrl media')
       /\ db w' = <[_id media := media']> (db w)
       /\ fs w' !! dst = Some (FileNode n)
       /\ fs w' !! src = None
       /\ optimizeMedia req env' w'
          = ({| status := 200;
                body := BAlreadyOptimized (_id media)
                          (optimizedFileUrl media') true |}, w').
Proof.
  intros Hr Hu Hfind Hi Hopt Hwebp Hrun Hst baseUrl src dst.
  destruct (findOne_Some _ _ _ _ _ Hfind)
    as (_ & id & uid & Hid & Huid & Hrec & Hown).
  destruct (proj1 Hr id media Hrec) as (Hkey & Hfu & Hurl & _).
  subst id.
  assert (Js.truthy_opt (optimizedFileUrl media) = false) as Hnourl.
  { destruct (Js.truthy_opt (optimizedFileUrl media)); [|done].
    rewrite Hurl in Hopt; done. }
  assert (optimizeMedia req env w
          = handler "An error occurred optimizing media"
              (reoptimizeImage owner baseUrl "images" media
                 (Env.encoded env)) w) as Hstep.
  { unfold optimizeMedia, handler. rewrite Hu, bind_eq, Hfind.
    rewrite Hopt. simpl. rewrite Hi, Hwebp, (isImage_mediaTypeOf _ Hi).
    done. }
  rewrite Hstep in Hrun. clear Hstep.
  unfold handler, reoptimizeImage in Hrun. fold src dst in Hrun.
  unfold reoptimizedImage.
  set (url := baseUrl +:+ "/uploads/" +:+ owner +:+ "/" +:+ "images"
                +:+ "/optimized/"
                +:+ "opt_" +:+ Path.parse_name (fileName media) +:+ ".webp")
    in *.
  rewrite bind_eq in Hrun.
  destruct (ensureUserDirExists_spec owner
              (Some ("images" +:+ "/optimized")) w)
    as (w1 & d & E & Hdb1 & _ & _).
  rewrite E, bind_eq in Hrun.
  destruct (sharp_toFile_cases src dst (Env.encoded env) w1)
    as [(msg & Es)|(n & k & Hn & Hne & Hsrc & Es)]; rewrite Es in Hrun.
  { inversion Hrun; subst. done. }
  exists n. split; [done|].
  set (wE := emit (EvWrite dst n)
               (with_fs (<[dst := FileNode n]> (fs w1)) w1)) in *.
  rewrite bind_eq, (statSync_size_file dst n) in Hrun
    by (simpl; apply lookup_insert_eq).
  set (media1 := setOptimized url n media) in *.
  set (media2 := setFileUrl url media1) in *.
  rewrite bind_eq in Hrun.
  set (wS := updateRecord (_id media) (modifiedPaths media media1) media wE).
  assert (Media_save media media1 wE = (Ok tt, wS)) as Esave.
  { unfold Media_save.
    rewrite bool_decide_eq_false_2
      by (by apply modifiedPaths_optimized_nonempty).
    change (_id media1) with (_id media). change (db wE) with (db w1).
    by rewrite Hdb1, Hrec. }
  rewrite Esave in Hrun.
  assert (fs wS !! src = Some (FileNode k)) as HsrcS.
  { simpl. by rewrite lookup_insert_ne. }
  rewrite bind_eq, existsSync_eq, HsrcS in Hrun.
  rewrite bool_decide_eq_true_2 in Hrun by eauto.
  rewrite (bool_decide_eq_true_2 (src <> dst)) in Hrun by done.
  simpl andb in Hrun. cbv iota in Hrun.
  rewrite bind_eq, bind_eq, (unlinkSync_file src k) in Hrun by done.
  set (wU := emit (EvUnlink src) (with_fs (delete src (fs wS)) wS)) in *.
  assert (applyPatch (modifiedPaths media media1) media = media1) as Hp1.
  { by apply applyPatch_modifiedPaths. }
  assert (db wU = <[_id media := media1]> (db w)) as HdbU.
  { simpl. by rewrite Hp1, Hdb1. }
  assert (exists wF,
            Media_save media1 media2 wU = (Ok tt, wF)
            /\ fs wF = fs wU
            /\ db wF = <[_id media := media2]> (db w)) as (wF & EF & HfsF & HdbF).
  { unfold Media_save. case_bool_decide as Hempty.
    - exists wU. split; [done|]. split; [done|].
      rewrite HdbU. f_equal.
      apply (f_equal set_fileUrl) in Hempty. simpl in Hempty.
      case_bool_decide as Hf; [|done].
      unfold media2, setFileUrl. simpl in Hf. rewrite <- Hf.
      by destruct media.
    - change (_id media2) with (_id media).
      rewrite HdbU, lookup_insert_eq.
      eexists. split; [done|]. split; [done|]. simpl.
      rewrite Hp1, Hdb1, insert_insert_eq. f_equal.
      by apply applyPatch_modifiedPaths. }
  rewrite bind_eq, EF in Hrun. simpl in Hrun.
  inversion Hrun; subst r w'. clear Hrun.
  split; [done|]. split; [done|]. split; [done|].
  split. { rewrite HfsF. simpl.
           by rewrite lookup_delete_ne, lookup_insert_eq. }
  split. { rewrite HfsF. simpl. by rewrite lookup_delete_eq. }
  unfold optimizeMedia, handler. rewrite Hu, bind_eq.
  rewrite (findOne_found (Req.id req) owner (_id media) uid media2 wF);
    [|done|done|by rewrite HdbF, lookup_insert_eq|done].
  assert (Js.truthy url = true) as Ht by apply url_truthy.
  simpl. by rewrite Ht.
Qed.

(** ** Invariants of the records

    Whatever the validators of the schema establish when a record is
    created, and every update keeps, holds of every record of every
    reachable state. *)

Section RecordInvariant.

Variable I : Media -> Prop.
Hypothesis Hcreate :
  forall fields doc, validateMedia fields = Some doc -> I doc.
Hypothesis Hpatch : forall p m, I m -> I (applyPatch p m).

Lemma stable_allRecords : stable (allRecords I).
Proof. intros w w' Hdb _ H id m. rewrite Hdb. apply H. Qed.

Lemma keeps_ret {A} (a : A) : keeps (allRecords I) (ret a).
Proof. by intros w. Qed.

Lemma keeps_throw {A} e : keeps (allRecords I) (@throw A e).
Proof. by intros w. Qed.

Lemma keeps_bind {A B} (m : M A) (k : A -> M B) :
  keeps (allRecords I) m -> (forall a, keeps (allRecords I) (k a)) ->
  keeps (allRecords I) (bind m k).
Proof. intros Hm Hk. eapply triple_bind; [exact Hm|exact Hk]. Qed.

Lemma keeps_fsOnly {A} (m : M A) : fsOnly m -> keeps (allRecords I) m.
Proof. intros H. apply triple_fsOnly; [done|apply stable_allRecords]. Qed.

Lemma keeps_tryCatch {A} (body : M A) h :
  keeps (allRecords I) body -> (forall e, keeps (allRecords I) (h e)) ->
  keeps (allRecords I) (tryCatch body h).
Proof. intros Hb Hh. eapply triple_tryCatch; [exact Hb|exact Hh]. Qed.

Lemma allRecords_insert w id m :
  allRecords I w -> I m ->
  allRecords I (with_db (<[id := m]> (db w)) w).
Proof.
  intros Hw Hm id' m'. simpl. rewrite lookup_insert.
  case_decide; [by intros [= <-]|apply Hw].
Qed.

Lemma keeps_Media_create fields : keeps (allRecords I) (Media_create fields).
Proof.
  intros w Hw. unfold Media_create.
  destruct (validateMedia fields) as [doc|] eqn:E; [|done].
  destruct (db w !! _id doc); [done|].
  apply (stable_allRecords (with_db (<[_id doc := doc]> (db w)) w));
    [done..|].
  apply allRecords_insert; eauto.
Qed.

Lemma allRecords_updateRecord w id p m :
  allRecords I w -> db w !! id = Some m ->
  allRecords I (updateRecord id p m w).
Proof.
  intros Hw Hm.
  apply (stable_allRecords (with_db (<[id := applyPatch p m]> (db w)) w));
    [done..|].
  apply allRecords_insert; eauto.
Qed.

Lemma keeps_Media_save loaded doc :
  keeps (allRecords I) (Media_save loaded doc).
Proof.
  intros w Hw. unfold Media_save. case_bool_decide; [done|].
  destruct (db w !! _id doc) as [m|] eqn:E; [|done].
  by apply allRecords_updateRecord.
Qed.

Lemma keeps_Media_findByIdAndUpdate id p :
  keeps (allRecords I) (Media_findByIdAndUpdate id p).
Proof.
  intros w Hw. unfold Media_findByIdAndUpdate.
  destruct (castObjectId id) as [oid|]; [|done].
  destruct (db w !! oid) as [m|] eqn:E; [|done].
  by apply allRecords_updateRecord.
Qed.

Lemma keeps_Media_deleteOne doc :
  keeps (allRecords I) (Media_deleteOne doc).
Proof.
  intros w Hw id m. simpl. rewrite lookup_delete.
  case_decide; [done|]. apply Hw.
Qed.

Lemma keeps_launch j : keeps (allRecords I) (launch j).
Proof. by intros w Hw. Qed.

Lemma keeps_Media_findOne mediaId owner :
  keeps (allRecords I) (Media_findOne mediaId owner).
Proof.
  intros w Hw. unfold Media_findOne.
  destruct (castObjectId mediaId); [|done].
  destruct (castObjectId owner); [|done].
  destruct (db w !! s); [case_bool_decide|]; done.
Qed.

Lemma keeps_User_findById userId :
  keeps (allRecords I) (User_findById userId).
Proof. intros w Hw. unfold User_findById. by destruct (castObjectId userId). Qed.

(** The steps of a handler, one after the other. *)
Ltac keeps_step :=
  lazymatch goal with
  | |- keeps _ (bind _ _) => apply keeps_bind; [|intros ?]
  | |- keeps _ (ret _) => apply keeps_ret
  | |- keeps _ (throw _) => apply keeps_throw
  | |- keeps _ (tryCatch _ _) => apply keeps_tryCatch; [|intros ?]
  | |- keeps _ (Media_create _) => apply keeps_Media_create
  | |- keeps _ (Media_save _ _) => apply keeps_Media_save
  | |- keeps _ (Media_findByIdAndUpdate _ _) =>
      apply keeps_Media_findByIdAndUpdate
  | |- keeps _ (Media_deleteOne _) => apply keeps_Media_deleteOne
  | |- keeps _ (Media_findOne _ _) => apply keeps_Media_findOne
  | |- keeps _ (User_findById _) => apply keeps_User_findById
  | |- keeps _ (launch _) => apply keeps_launch
  | |- keeps _ (if ?b then _ else _) => destruct b
  | |- keeps _ (match ?x with _ => _ end) => destruct x
  | |- keeps _ _ => apply keeps_fsOnly; eauto 10 with fsOnly
  end.

Lemma keeps_handler fallback body w :
  keeps (allRecords I) body -> allRecords I w ->
  allRecords I (snd (handler fallback body w)).
Proof. apply handler_keeps. Qed.

Lemma keeps_run {A} (m : M A) w :
  keeps (allRecords I) m -> allRecords I w -> allRecords I (run m w).
Proof. apply run_keeps. Qed.

Lemma uploadMedia_allRecords req env w :
  allRecords I w -> allRecords I (snd (uploadMedia req env w)).
Proof.
  apply keeps_handler.
  unfold ingestImage, ingestVideo, ingestDocument, createAndRespond.
  cbv zeta. repeat keeps_step.
Qed.

Lemma externalUploadMedia_allRecords req env w :
  allRecords I w -> allRecords I (snd (externalUploadMedia req env w)).
Proof.
  apply keeps_handler.
  unfold ingestImage, externalIngestVideo, ingestDocument, createAndRespond.
  cbv zeta. repeat keeps_step.
Qed.

Lemma deleteMedia_allRecords req w :
  allRecords I w -> allRecords I (snd (deleteMedia req w)).
Proof.
  apply keeps_handler. unfold deleteFound. cbv zeta. repeat keeps_step.
Qed.

Lemma externalDeleteMedia_allRecords req w :
  allRecords I w -> allRecords I (snd (externalDeleteMedia req w)).
Proof.
  apply keeps_handler. unfold deleteFound. cbv zeta. repeat keeps_step.
Qed.

Lemma optimizeMedia_allRecords req env w :
  allRecords I w -> allRecords I (snd (optimizeMedia req env w)).
Proof.
  apply keeps_handler.
  unfold reoptimizeImage, markOptimized, reoptimizeVideo.
  cbv zeta. repeat keeps_step.
Qed.

Lemma complete_allRecords j outcome w :
  allRecords I w -> allRecords I (complete j outcome w).
Proof.
  intros Hw. unfold complete.
  destruct j as [src folder filename
                |src optimizedPath dbRecordId optimizedUrl originalPath name
                |sourcePath optimizedPath optimizedUrl media].
  - pose proof (keeps_fsOnly _ (fsOnly_encode src
                  (Path.join [folder; filename]) outcome) w Hw) as H.
    destruct (encode _ _ _ w) as [[[]|e] w']; [done|].
    apply keeps_run; [|exact H]. keeps_step.
  - pose proof (keeps_fsOnly _ (fsOnly_encode src optimizedPath outcome)
                  w Hw) as H.
    destruct (encode _ _ _ w) as [[[]|e] w'].
    + apply keeps_run; [|exact H]. unfold onUploadTranscodeEnd.
      repeat keeps_step.
    + apply keeps_run; [|exact H]. keeps_step.
  - pose proof (keeps_fsOnly _ (fsOnly_encode sourcePath optimizedPath
                  outcome) w Hw) as H.
    destruct (encode _ _ _ w) as [[[]|e] w'].
    + apply keeps_run; [|exact H]. unfold onReoptTranscodeEnd. cbv zeta.
      repeat keeps_step.
    + apply keeps_run; [|exact H]. keeps_step.
Qed.

Lemma routeUpload_allRecords account host part env w :
  allRecords I w -> allRecords I (snd (routeUpload account host part env w)).
Proof.
  intros Hw. unfold routeUpload.
  pose proof (keeps_fsOnly _
    (fsOnly_multerSingle fileFilter (storageDestination (Some account))
       (Env.fileUuid env) part (fsOnly_storageDestination _)) w Hw) as H.
  destruct (multerSingle _ _ _ _ w) as [[file|e] w']; [|done].
  match goal with
  | |- context [uploadMedia ?r ?e ?w] =>
      pose proof (uploadMedia_allRecords r e w H) as H';
      destruct (uploadMedia r e w)
  end. done.
Qed.

Lemma externalRouteUpload_allRecords account host part env w :
  allRecords I w ->
  allRecords I (snd (externalRouteUpload account host part env w)).
Proof.
  intros Hw. unfold externalRouteUpload.
  pose proof (keeps_fsOnly _
    (fsOnly_multerSingle externalFileFilter externalDestination
       (Env.fileUuid env) part fsOnly_externalDestination) w Hw) as H.
  destruct (multerSingle _ _ _ _ w) as [[file|e] w']; [|done].
  match goal with
  | |- context [externalUploadMedia ?r ?e ?w] =>
      pose proof (externalUploadMedia_allRecords r e w H) as H';
      destruct (externalUploadMedia r e w)
  end. done.
Qed.

Lemma step_allRecords w w' : step w w' -> allRecords I w -> allRecords I w'.
Proof.
  intros Hstep Hw.
  destruct Hstep as [req env w|req env w|req w|req w|req env w
                    |account host part env w|account host part env w
                    |j outcome l1 l2 w Hjobs].
  - by apply uploadMedia_allRecords.
  - by apply externalUploadMedia_allRecords.
  - by apply deleteMedia_allRecords.
  - by apply externalDeleteMedia_allRecords.
  - by apply optimizeMedia_allRecords.
  - by apply routeUpload_allRecords.
  - by apply externalRouteUpload_allRecords.
  - by apply complete_allRecords.
Qed.

Lemma reachable_allRecords w : reachable w -> allRecords I w.
Proof.
  induction 1 as [w Hdb _|w w' _ IH Hstep].
  - intros id m. by rewrite Hdb.
  - by apply (step_allRecords w).
Qed.

End RecordInvariant.

Lemma toLowerHex_hex c :
  isHexDigit c = true ->
  isHexDigit (toLowerHex c) = true /\ toLowerHex (toLowerHex c) = toLowerHex c.
Proof.
  destruct c as [[] [] [] [] [] [] [] []]; vm_compute; intros H;
    (discriminate H || (split; reflexivity)).
Qed.

Lemma string_map_length f s :
  String.length (string_map f s) = String.length s.
Proof. induction s as [|c s IH]; simpl; congruence. Qed.

Lemma string_map_toLowerHex s :
  string_forallb isHexDigit s = true ->
  string_forallb isHexDigit (string_map toLowerHex s) = true
  /\ string_map toLowerHex (string_map toLowerHex s) = string_map toLowerHex s.
Proof.
  induction s as [|c s IH]; [done|]. simpl.
  intros [Hc Hs]%andb_true_iff.
  destruct (toLowerHex_hex c Hc) as [H1 H2].
  destruct (IH Hs) as [H3 H4]. rewrite H1, H2, H3, H4. done.
Qed.

(** Casting is idempotent: an ObjectId in canonical form casts to
    itself. *)
Lemma castObjectId_canonical s u :
  castObjectId s = Some u -> castObjectId u = Some u.
Proof.
  unfold castObjectId, isObjectIdString.
  destruct ((String.length s =? 24)%nat && string_forallb isHexDigit s)
    eqn:E; [|done].
  apply andb_true_iff in E as [El Eh]. intros [= <-].
  destruct (string_map_toLowerHex s Eh) as [H1 H2].
  by rewrite string_map_length, El, H1, H2.
Qed.

Lemma schemaOk_validated fields doc :
  validateMedia fields = Some doc -> schemaOk doc.
Proof.
  unfold validateMedia.
  destruct (Js.truthy (fileName fields) && Js.truthy (originalFileName fields)
            && Js.truthy (fileType fields) && Js.truthy (fileUrl fields))
    eqn:E; [|done].
  apply andb_true_iff in E as [E E4]. apply andb_true_iff in E as [E E3].
  apply andb_true_iff in E as [E1 E2].
  apply truthy_true in E1, E2, E3, E4.
  destruct (castObjectId (userId fields)) as [uid|] eqn:Eu; [|done].
  intros [= <-]. unfold schemaOk. simpl. repeat split; try done.
  by apply (castObjectId_canonical (userId fields)).
Qed.

Lemma schemaOk_patched p m : schemaOk m -> schemaOk (applyPatch p m).
Proof.
  intros (H1 & H2 & H3 & H5). unfold schemaOk, applyPatch. by simpl.
Qed.

(** X7. In every reachable state, every record of the collection is stored
    under its own _id, its file name, original file name and MIME type are
    not empty, its userId is an ObjectId in canonical form, it has a file
    URL, its optimized URL is set only if it is optimized, and an optimized
    record has an optimized URL or is an image whose file is WebP. *)
Theorem X7_reachable_records_are_well_formed
    (w : World) (id : string) (m : Media) :
  reachable w ->
  db w !! id = Some m ->
  recordOk id m /\ schemaOk m.
Proof.
  intros Hr Hm. split.
  - by apply (proj1 (reachable_worldOk w Hr)).
  - by apply (reachable_allRecords schemaOk schemaOk_validated
                schemaOk_patched w Hr id).
Qed.

(** ** Re-optimization touches one record at most *)













(** ** Listing *)








(** *** Pagination *)






(** *** Lookup by id *)

Lemma findOne_lookupOk fallback owner mediaId w :
  lookupOk (Some owner) mediaId w
    (fst (readHandler fallback
            (found <- Media_findOne mediaId owner ;; respondFound found) w))
    (snd (readHandler fallback
            (found <- Media_findOne mediaId owner ;; respondFound found) w)).
Proof.
  unfold readHandler. rewrite bind_eq. unfold Media_findOne.
  destruct (castObjectId mediaId) as [id|] eqn:Hid.
  2:{ simpl. split; [done|]. split; [done|]. split; intros; congruence. }
  destruct (castObjectId owner) as [uid|] eqn:Hu.
  2:{ simpl. split; [done|]. split; [done|]. split.
      - intros id' m' _ _ (o & Ho & Hc). simplify_eq.
      - intros id' o u Ho Hc. simplify_eq. }
  destruct (db w !! id) as [m|] eqn:Hm.
  - case_bool_decide as Hown; simpl.
    + split; [done|]. split.
      { intros m' Hb. simpl in Hb. simplify_eq.
        split; [done|]. split; [|eauto]. exists owner. by split. }
      split.
      { intros id' m' Hc Hl _. by simplify_eq. }
      intros id' o u Ho Hc Hc' Hno. simplify_eq. by destruct (Hno m Hm).
    + split; [done|]. split; [done|]. split; [|done].
      intros id' m' Hc Hl (o & Ho & Hc'). simplify_eq.
  - simpl. split; [done|]. split; [done|]. split; [|done].
    intros id' m' Hc Hl. simplify_eq.
Qed.

(** X11. A lookup by id, in both controllers, answers 200 with the record
    of that id exactly when the record belongs to the requester; for a
    record of somebody else the answer is the same 404, Media not found, as
    for an id no record has.  The lookup changes nothing. *)
Theorem X11_lookup_returns_own_record_only (req : Req.t) (w : World) :
  lookupOk (Req.user req) (Req.id req) w
    (fst (getMediaById req w)) (snd (getMediaById req w))
  /\ lookupOk (Req.userId req) (Req.id req) w
       (fst (externalGetMediaById req w)) (snd (externalGetMediaById req w)).
Proof.
  split.
  - unfold getMediaById. destruct (Req.user req) as [owner|].
    + apply findOne_lookupOk.
    + split; [done|]. split; [done|]. split; [by intros ???? (o & [=] & _)|].
      by intros ??? [=].
  - unfold externalGetMediaById. destruct (Req.userId req) as [owner|].
    + apply findOne_lookupOk.
    + unfold readHandler, Media_findOne_by. rewrite bind_eq.
      destruct (castObjectId (Req.id req)); simpl;
        (split; [done|]; split; [done|];
         split; [by intros ???? (o & [=] & _)|by intros ??? [=]]).
Qed.

(** ** API keys *)

Lemma findKey_Some P keys k :
  ApiKey_findOne P keys = Some k ->
  P k = true /\ exists id, keys !! id = Some k.
Proof.
  unfold ApiKey_findOne.
  destruct (list_find _ _) as [[i x]|] eqn:E; [|done].
  intros [= <-]. apply list_find_Some in E as (Hi & HP & _).
  split; [done|].
  apply list_elem_of_lookup_2 in Hi.
  rewrite list_elem_of_fmap in Hi. destruct Hi as [[id y] [-> Hy]].
  exists id. by apply elem_of_map_to_list in Hy.
Qed.

Lemma findKey_None P keys :
  ApiKey_findOne P keys = None <->
  forall id k, keys !! id = Some k -> P k = false.
Proof.
  unfold ApiKey_findOne. rewrite fmap_None, list_find_None, Forall_forall.
  split.
  - intros H id k Hk. destruct (P k) eqn:E; [|done].
    destruct (H k); [|done].
    apply list_elem_of_fmap. exists (id, k). split; [done|].
    by apply elem_of_map_to_list.
  - intros H k [[id y] [-> Hy]]%list_elem_of_fmap.
    apply elem_of_map_to_list in Hy. simpl. by rewrite (H id y Hy).
Qed.

Lemma findKey_unique P keys id k :
  keys !! id = Some k -> P k = true ->
  (forall id' k', keys !! id' = Some k' -> P k' = true -> k' = k) ->
  ApiKey_findOne P keys = Some k.
Proof.
  intros Hk HP Huniq.
  destruct (ApiKey_findOne P keys) as [k'|] eqn:E.
  - apply findKey_Some in E as [HP' [id' Hk']]. f_equal. eauto.
  - rewrite findKey_None in E. by rewrite (E id k Hk) in HP.
Qed.

(** What [createApiKey] does when it answers 201. *)
Lemma createApiKey_created user name env keys r keys1 :
  createApiKey user name env keys = (r, keys1) ->
  k_status r = 201 ->
  exists userId,
    user = Some userId
    /\ let doc := {| k_id := ke_objectId env; k_key := ke_generated env;
                     k_name := trim name; k_userId := userId;
                     k_createdAt := ke_now env; k_lastUsed := None |} in
       r = {| k_status := 201;
              k_body := KCreated (ke_objectId env) (trim name)
                          (ke_generated env) (ke_now env) |}
       /\ keys1 = <[ke_objectId env := doc]> keys
       /\ keys !! ke_objectId env = None
       /\ ke_generated env <> "" /\ trim name <> ""
       /\ (forall id k, keys !! id = Some k -> k_key k <> ke_generated env)
       /\ (forall id k, keys !! id = Some k ->
             k_userId k = userId -> k_name k <> trim name).
Proof.
  unfold createApiKey. destruct user as [userId|]; [|by intros [= <- <-]].
  destruct (ApiKey_findOne _ keys) as [existing|] eqn:Hname;
    [by intros [= <- <-]|].
  unfold ApiKey_create.
  destruct (Js.truthy (ke_generated env)) eqn:Hkey; simpl;
    [|by intros [= <- <-]].
  destruct (Js.truthy (trim name)) eqn:Hn; simpl; [|by intros [= <- <-]].
  destruct (ApiKey_findOne
              (fun k => bool_decide (k_key k = ke_generated env)) keys)
    as [dup|] eqn:Hdup;
    destruct (keys !! ke_objectId env) eqn:Hfree; simpl;
    try (by intros [= <- <-]).
  intros [= <- <-] _. exists userId. split; [done|]. simpl.
  repeat split; try done.
  - by apply truthy_true.
  - by apply truthy_true.
  - intros id k Hk. rewrite findKey_None in Hdup.
    specialize (Hdup id k Hk). by apply bool_decide_eq_false in Hdup.
  - intros id k Hk Hu. rewrite findKey_None in Hname.
    specialize (Hname id k Hk). rewrite bool_decide_eq_true_2 in Hname by done.
    by apply bool_decide_eq_false in Hname.
Qed.

(** X12. The life of an API key: when createApiKey answers 201, the
    answer carries the generated key; a request that presents this key
    passes validateApiKey with the creator as its user; the creator can
    delete the key, which brings the collection back to what it was before
    the key was created, and from then on the key is rejected with 401,
    Invalid API key. *)
Theorem X12_api_key_lifecycle
    (user : option string) (name : string) (env : KeyEnv) (now now' : N)
    (keys : gmap string ApiKey) (r : KeyResponse) (keys1 : gmap string ApiKey) :
  castObjectId (ke_objectId env) = Some (ke_objectId env) ->
  createApiKey user name env keys = (r, keys1) ->
  k_status r = 201 ->
  exists userId keys2,
    user = Some userId
    /\ k_body r = KCreated (ke_objectId env) (trim name) (ke_generated env)
                    (ke_now env)
    /\ validateApiKey (Some (ke_generated env)) now keys1
       = (Passed userId, keys2)
    /\ deleteApiKey user (ke_objectId env) keys2
       = ({| k_status := 200; k_body := KDeleted (ke_objectId env) |}, keys)
    /\ validateApiKey (Some (ke_generated env)) now' keys
       = (Rejected 401 "Invalid API key", keys).
Proof.
  intros Hid Hc Hst.
  destruct (createApiKey_created user name env keys r keys1 Hc Hst)
    as (userId & -> & -> & -> & Hfree & Hkey & Hname & Hdup & _).
  set (doc := {| k_id := ke_objectId env; k_key := ke_generated env;
                 k_name := trim name; k_userId := userId;
                 k_createdAt := ke_now env; k_lastUsed := None |}).
  exists userId. eexists. split; [done|]. split; [done|].
  assert (ApiKey_findOne
            (fun k => bool_decide (k_key k = ke_generated env))
            (<[ke_objectId env := doc]> keys) = Some doc) as Hfind.
  { apply (findKey_unique _ _ (ke_objectId env)).
    - apply lookup_insert_eq.
    - by apply bool_decide_eq_true_2.
    - intros id' k' Hk' HP. apply bool_decide_eq_true in HP.
      destruct (decide (id' = ke_objectId env)) as [->|Hne].
      + rewrite lookup_insert_eq in Hk'. by injection Hk'.
      + rewrite lookup_insert_ne in Hk' by done.
        by destruct (Hdup id' k' Hk'). }
  assert (Js.truthy (ke_generated env) = true) as Ht by (by apply truthy_true).
  split.
  { unfold validateApiKey. simpl. rewrite Ht. simpl. rewrite Hfind. done. }
  split.
  { unfold deleteApiKey. rewrite Hid. simpl. rewrite lookup_insert_eq. simpl.
    rewrite bool_decide_eq_true_2 by done.
    rewrite insert_insert_eq, delete_insert_id by done. done. }
  unfold validateApiKey. simpl. rewrite Ht. simpl.
  assert (ApiKey_findOne
            (fun k => bool_decide (k_key k = ke_generated env)) keys = None)
    as ->; [|done].
  apply findKey_None. intros id k Hk. apply bool_decide_eq_false.
  by apply (Hdup id k).
Qed.

(** *** What the collection of keys keeps *)

Lemma keysOk_empty : keysOk ∅.
Proof. split; [|split]; intros *; by rewrite lookup_empty. Qed.

Lemma keysOk_insert_fresh keys doc :
  keysOk keys ->
  keys !! k_id doc = None -> k_key doc <> "" -> k_name doc <> "" ->
  (forall id k, keys !! id = Some k -> k_key k <> k_key doc) ->
  (forall id k, keys !! id = Some k ->
     k_userId k = k_userId doc -> k_name k <> k_name doc) ->
  keysOk (<[k_id doc := doc]> keys).
Proof.
  intros (H1 & H2 & H3) Hfree Hk Hn Hkey Hname. split; [|split].
  - intros id k. rewrite lookup_insert. case_decide.
    + intros [= <-]. by subst.
    + apply H1.
  - intros id1 id2 k1 k2. rewrite !lookup_insert.
    repeat case_decide; intros; simplify_eq; try done; eauto.
    + exfalso. eapply Hkey; eauto.
    + exfalso. eapply Hkey; eauto.
  - intros id1 id2 k1 k2. rewrite !lookup_insert.
    repeat case_decide; intros; simplify_eq; try done; eauto.
    + exfalso. eapply Hname; eauto.
    + exfalso. eapply Hname; eauto.
Qed.

Lemma keysOk_delete keys id : keysOk keys -> keysOk (delete id keys).
Proof.
  intros (H1 & H2 & H3). split; [|split].
  - intros id' k. rewrite lookup_delete. case_decide; [done|]. apply H1.
  - intros id1 id2 k1 k2. rewrite !lookup_delete.
    repeat case_decide; try done. apply H2.
  - intros id1 id2 k1 k2. rewrite !lookup_delete.
    repeat case_decide; try done. apply H3.
Qed.

Lemma keysOk_used keys id k now :
  keysOk keys -> keys !! id = Some k ->
  keysOk (<[id := usedAt now k]> keys).
Proof.
  intros (H1 & H2 & H3) Hk. split; [|split].
  - intros id' k'. rewrite lookup_insert. case_decide.
    + intros [= <-]. subst. apply (H1 _ _ Hk).
    + apply H1.
  - intros id1 id2 k1 k2. rewrite !lookup_insert.
    repeat case_decide; intros; simplify_eq; try done; simpl in *; eauto.
  - intros id1 id2 k1 k2. rewrite !lookup_insert.
    repeat case_decide; intros; simplify_eq; try done; simpl in *; eauto.
Qed.

Lemma keyStep_keysOk keys keys' : keyStep keys keys' -> keysOk keys -> keysOk keys'.
Proof.
  intros [user name env keys0|user keyId keys0|header now keys0] Hok.
  - destruct (createApiKey user name env keys0) as [r keys1] eqn:E. simpl.
    destruct (decide (k_status r = 201)) as [Hst|Hst].
    + destruct (createApiKey_created _ _ _ _ _ _ E Hst)
        as (userId & -> & _ & -> & Hfree & Hkey & Hname & Hdup & Hn).
      by apply (keysOk_insert_fresh keys0
                  {| k_id := ke_objectId env; k_key := ke_generated env;
                     k_name := trim name; k_userId := userId;
                     k_createdAt := ke_now env; k_lastUsed := None |}).
    + assert (keys1 = keys0) as ->; [|done].
      unfold createApiKey, ApiKey_create in E.
      repeat case_match; simplify_eq; done.
  - unfold deleteApiKey. repeat case_match; simpl; try done.
    by apply keysOk_delete.
  - unfold validateApiKey. repeat case_match; simpl; try done.
    match goal with H : ApiKey_findOne _ _ = Some _ |- _ =>
      apply findKey_Some in H as [_ [id Hk]] end.
    destruct (proj1 Hok _ _ Hk) as [Hid _]. rewrite Hid.
    by apply (keysOk_used keys0 _ _ now).
Qed.

Lemma keysReachable_keysOk keys : keysReachable keys -> keysOk keys.
Proof.
  induction 1 as [|keys keys' _ IH Hstep]; [apply keysOk_empty|].
  by apply (keyStep_keysOk keys).
Qed.

(** X13. In every reachable state of the ApiKey collection, validateApiKey
    passes a request exactly when the key it presents is the key of a
    document of the collection, and then sets the user of that document
    as the user of the request and records the time of use in that
    document, changing nothing else; no two documents have the same key,
    so the user is determined by the key. *)
Theorem X13_api_key_authenticates_its_owner
    (keys : gmap string ApiKey) (header : string) (now : N) :
  keysReachable keys ->
  (forall u keys',
     validateApiKey (Some header) now keys = (Passed u, keys') ->
     exists id doc,
       keys !! id = Some doc /\ k_key doc = header /\ k_userId doc = u
       /\ keys' = <[id := usedAt now doc]> keys)
  /\ (forall id doc,
        keys !! id = Some doc -> k_key doc = header ->
        validateApiKey (Some header) now keys
        = (Passed (k_userId doc), <[id := usedAt now doc]> keys))
  /\ ((forall id doc, keys !! id = Some doc -> k_key doc <> header) ->
      exists msg, validateApiKey (Some header) now keys
                  = (Rejected 401 msg, keys)).
Proof.
  intros Hok%keysReachable_keysOk. destruct Hok as (H1 & H2 & H3).
  split; [|split].
  - intros u keys'. unfold validateApiKey. simpl.
    destruct (Js.truthy header); simpl; [|done].
    destruct (ApiKey_findOne _ keys) as [doc|] eqn:E; [|done].
    intros [= <- <-]. apply findKey_Some in E as [HP [id Hk]].
    apply bool_decide_eq_true in HP. destruct (H1 _ _ Hk) as [Hid _].
    exists id, doc. by rewrite Hid.
  - intros id doc Hk Hkey. unfold validateApiKey. simpl.
    destruct (H1 _ _ Hk) as (Hid & Hne & _).
    rewrite (proj2 (truthy_true header)) by congruence. simpl.
    rewrite (findKey_unique _ keys id doc Hk).
    + by rewrite Hid.
    + by apply bool_decide_eq_true_2.
    + intros id' k' Hk' HP. apply bool_decide_eq_true in HP.
      assert (id' = id) as -> by (apply (H2 _ _ _ _ Hk' Hk); congruence).
      congruence.
  - intros Hno. unfold validateApiKey. simpl.
    destruct (Js.truthy header); simpl; [|eauto].
    assert (ApiKey_findOne (fun k => bool_decide (k_key k = header)) keys
            = None) as ->; [|eauto].
    apply findKey_None. intros id k Hk. apply bool_decide_eq_false. eauto.
Qed.

(** *** Keys are private to their user *)

Lemma keysOf_spec userId keys k :
  k ∈ keysOf userId keys <->
  k_userId k = userId /\ exists id, keys !! id = Some k.
Proof.
  unfold keysOf. rewrite list_elem_of_filter, list_elem_of_fmap. split.
  - intros [H [[id y] [-> Hy]]]. split; [done|]. exists id.
    by apply elem_of_map_to_list in Hy.
  - intros [H [id Hk]]. split; [done|]. exists (id, k). split; [done|].
    by apply elem_of_map_to_list.
Qed.

(** X14. The keys of a user are private to that user.  A delete request
    removes at most the key it addresses, and only when that key belongs
    to the requester; every other key stays as it is.  A listing changes
    nothing and shows exactly the keys of the requester, each with its key
    masked.  In every reachable state of the collection, no user has two
    keys with the same name. *)
Theorem X14_api_keys_are_private
    (newestFirst : list ApiKey -> list ApiKey) (user : option string)
    (keyId : string) (keys : gmap string ApiKey) :
  (forall l, newestFirst l ≡ₚ l) ->
  keysReachable keys ->
  (forall id k, keys !! id = Some k ->
     snd (deleteApiKey user keyId keys) !! id = Some k
     \/ (k_status (fst (deleteApiKey user keyId keys)) = 200
         /\ castObjectId keyId = Some id /\ user = Some (k_userId k)))
  /\ (forall shownKey,
        shownKey ∈ listed (fst (getUserApiKeys newestFirst user keys)) <->
        exists id k, keys !! id = Some k /\ user = Some (k_userId k)
                     /\ shownKey = masked k)
  /\ snd (getUserApiKeys newestFirst user keys) = keys
  /\ (forall id1 id2 k1 k2,
        keys !! id1 = Some k1 -> keys !! id2 = Some k2 ->
        k_userId k1 = k_userId k2 -> k_name k1 = k_name k2 -> id1 = id2).
Proof.
  intros Hperm Hok%keysReachable_keysOk. split; [|split; [|split]].
  - intros id k Hk. unfold deleteApiKey.
    destruct user as [userId|]; [|by left].
    destruct (castObjectId keyId) as [id0|] eqn:Hid; [|by left].
    destruct (keys !! id0) as [k0|] eqn:Hk0; [|by left].
    case_bool_decide as Hown; [|by left]. simpl.
    destruct (decide (id = id0)) as [->|Hne].
    + right. split; [done|]. split; [done|]. congruence.
    + left. by rewrite lookup_delete_ne.
  - intros shownKey. unfold getUserApiKeys.
    destruct user as [userId|]; simpl.
    + unfold listed. simpl. rewrite list_elem_of_fmap. split.
      * intros [k [-> Hk]]. rewrite Hperm in Hk.
        apply keysOf_spec in Hk as [<- [id Hk]]. eauto.
      * intros (id & k & Hk & [= ->] & ->). exists k. split; [done|].
        rewrite Hperm. apply keysOf_spec. eauto.
    + split; [by intros H%elem_of_nil|]. by intros (id & k & _ & [=] & _).
  - unfold getUserApiKeys. by destruct user.
  - apply Hok.
Qed.

(** *** The mask *)

Lemma substring_0_0 s : String.substring 0 0 s = "".
Proof. by destruct s. Qed.

Lemma substring_app_l a r : String.substring 0 (String.length a) (a +:+ r) = a.
Proof.
  induction a as [|c a IH].
  - apply substring_0_0.
  - rewrite str_app_cons. simpl. by rewrite IH.
Qed.

Lemma substring_full b : String.substring 0 (String.length b) b = b.
Proof. induction b as [|c b IH]; simpl; [done|]. by rewrite IH. Qed.

Lemma substring_app_r x b :
  String.substring (String.length x) (String.length b) (x +:+ b) = b.
Proof.
  induction x as [|c x IH].
  - rewrite str_app_nil_l. apply substring_full.
  - rewrite str_app_cons. simpl. exact IH.
Qed.

(** X15. The mask of a key shows its first eight and its last four
    characters and nothing of what lies between: a key of at least twelve
    characters is listed as those twelve characters with "..." in their
    middle, whatever the rest of the key. *)
Theorem X15_masked_key_hides_the_middle (a mid b : string) :
  String.length a = 8 -> String.length b = 4 ->
  maskKey (a +:+ mid +:+ b) = a +:+ "..." +:+ b.
Proof.
  intros Ha Hb. unfold maskKey.
  rewrite <- Ha at 1. rewrite substring_app_l.
  rewrite <- (str_app_assoc a mid b), (str_length_app (a +:+ mid) b), Hb.
  replace (String.length (a +:+ mid) + 4 - 4) with (String.length (a +:+ mid))
    by lia.
  replace (String.length (a +:+ mid) + 4 - String.length (a +:+ mid))
    with (String.length b) by lia.
  by rewrite substring_app_r.
Qed.

(** ** The other helpers of utils/index.ts *)

Lemma substring_split n s :
  n <= String.length s ->
  s = String.substring 0 n s +:+ String.substring n (String.length s - n) s
  /\ String.length (String.substring 0 n s) = n.
Proof.
  revert n. induction s as [|c s IH]; intros [|n] Hn; simpl in *; try lia.
  - done.
  - rewrite str_app_nil_l, substring_full. done.
  - destruct (IH n) as [H1 H2]; [lia|].
    rewrite str_app_cons, <- H1, H2. done.
Qed.

(** X16. [truncateText] keeps a text of at most [maxLength] characters as
    it is.  A longer text is cut: the result is the first [maxLength]
    characters of the text (none for a negative [maxLength]) followed by
    "...", so it has [maxLength + 3] characters (three for a negative
    [maxLength]) and may be longer than the text it was cut from. *)
Theorem X16_truncateText_cuts_and_marks (text : string) (maxLength : Z) :
  exists kept dropped,
    text = kept +:+ dropped
    /\ ((dropped = "" /\ (Z.of_nat (String.length text) <= maxLength)%Z
         /\ truncateText text maxLength = text)
        \/ ((maxLength < Z.of_nat (String.length text))%Z
            /\ Z.of_nat (String.length kept) = Z.max maxLength 0
            /\ truncateText text maxLength = kept +:+ "..."
            /\ Z.of_nat (String.length (truncateText text maxLength))
               = (Z.max maxLength 0 + 3)%Z)).
Proof.
  unfold truncateText.
  destruct (Z.of_nat (String.length text) <=? maxLength)%Z eqn:E.
  - exists text, "". rewrite str_app_nil_r. split; [done|]. left.
    split; [done|]. split; [lia|done].
  - destruct (substring_split (Z.to_nat maxLength) text) as [H1 H2]; [lia|].
    exists (String.substring 0 (Z.to_nat maxLength) text),
      (String.substring (Z.to_nat maxLength)
         (String.length text - Z.to_nat maxLength) text).
    split; [done|]. right.
    split; [lia|]. split; [lia|]. split; [done|].
    rewrite str_length_app, H2. simpl. lia.
Qed.

Lemma other_labels s :
  s ∈ ["PDF"; "Document"; "Spreadsheet"; "File"] <->
  s = "PDF" \/ s = "Document" \/ s = "Spreadsheet" \/ s = "File".
Proof. rewrite !elem_of_cons, elem_of_nil. tauto. Qed.

Lemma getMediaTypeLabel_other t :
  isImage t = false -> isVideo t = false ->
  getMediaTypeLabel t ∈ ["PDF"; "Document"; "Spreadsheet"; "File"].
Proof.
  intros Hi Hv. unfold getMediaTypeLabel. rewrite Hi, Hv.
  apply other_labels. repeat case_match; auto.
Qed.

(** X17. The label of a MIME type agrees with the classifier: it is
    "Image" exactly for the types the handlers treat as images, "Video"
    exactly for those they treat as videos, and one of "PDF", "Document",
    "Spreadsheet" and "File" exactly for those they treat as documents. *)
Theorem X17_label_agrees_with_classifier (fileType : string) :
  (getMediaTypeLabel fileType = "Image" <-> classify fileType = Image)
  /\ (getMediaTypeLabel fileType = "Video" <-> classify fileType = Video)
  /\ (getMediaTypeLabel fileType ∈ ["PDF"; "Document"; "Spreadsheet"; "File"]
      <-> classify fileType = Document).
Proof.
  unfold classify. rewrite other_labels.
  destruct (isImage fileType) eqn:Hi.
  { unfold getMediaTypeLabel. rewrite Hi. split; [done|]. split; [done|].
    split; [|done]. intros [H|[H|[H|H]]]; discriminate H. }
  destruct (isVideo fileType) eqn:Hv.
  { unfold getMediaTypeLabel. rewrite Hi, Hv. split; [done|]. split; [done|].
    split; [|done]. intros [H|[H|[H|H]]]; discriminate H. }
  pose proof (getMediaTypeLabel_other fileType Hi Hv) as H.
  apply other_labels in H.
  split; [|split; [|done]]; split; try done; intros E; rewrite E in H;
    destruct H as [H|[H|[H|H]]]; discriminate H.
Qed.

(** *** slugify *)

Lemma lowered_kept_is_slugChar c :
  isWordChar (toLowerChar c) || bool_decide (toLowerChar c = dash) = true ->
  isSlugChar (toLowerChar c) = true.
Proof. destruct c as [[] [] [] [] [] [] [] []]; vm_compute; done. Qed.

Lemma slugChar_facts c :
  isSlugChar c = true ->
  toLowerChar c = c /\ isWhiteSpace c = false
  /\ isWordChar c || bool_decide (c = dash) = true.
Proof.
  destruct c as [[] [] [] [] [] [] [] []]; vm_compute; intros H;
    (discriminate H || done).
Qed.

Lemma toLowerCase_slugIfKept s :
  string_forallb slugIfKept (toLowerCase s) = true.
Proof.
  unfold toLowerCase. induction s as [|c s IH]; [done|].
  simpl. rewrite IH, andb_true_r. unfold slugIfKept.
  destruct (isWordChar (toLowerChar c) || bool_decide (toLowerChar c = dash))
    eqn:E; [|done].
  simpl. by apply lowered_kept_is_slugChar.
Qed.

Lemma dashSpaces_slugIfKept b s :
  string_forallb slugIfKept s = true ->
  string_forallb slugIfKept (dashSpaces b s) = true.
Proof.
  revert b. induction s as [|c s IH]; intros b; [done|]. simpl.
  intros [Hc Hs]%andb_true_iff.
  destruct (isWhiteSpace c).
  - destruct b; simpl; auto.
  - simpl. rewrite Hc. simpl. auto.
Qed.

Lemma keepWordChars_slugChars s :
  string_forallb slugIfKept s = true ->
  string_forallb isSlugChar (keepWordChars s) = true.
Proof.
  induction s as [|c s IH]; [done|]. simpl.
  intros [Hc Hs]%andb_true_iff. unfold slugIfKept in Hc.
  destruct (isWordChar c || bool_decide (c = dash)); simpl in *; [|auto].
  rewrite Hc. simpl. auto.
Qed.

Lemma squeezeDashes_forallb P b s :
  string_forallb P s = true -> string_forallb P (squeezeDashes b s) = true.
Proof.
  revert b. induction s as [|c s IH]; intros b; [done|]. simpl.
  intros [Hc Hs]%andb_true_iff.
  case_bool_decide as Hd.
  - destruct b; simpl; [auto|]. rewrite <- Hd, Hc. simpl. auto.
  - simpl. rewrite Hc. simpl. auto.
Qed.

Lemma dropLeadingDashes_forallb P s :
  string_forallb P s = true -> string_forallb P (dropLeadingDashes s) = true.
Proof.
  induction s as [|c s IH]; [done|]. simpl.
  intros H. case_bool_decide; [|done].
  apply andb_true_iff in H as [_ Hs]. auto.
Qed.

Lemma dropTrailingDashes_forallb P s :
  string_forallb P s = true -> string_forallb P (dropTrailingDashes s) = true.
Proof.
  induction s as [|c s IH]; [done|]. simpl.
  intros [Hc Hs]%andb_true_iff. specialize (IH Hs).
  destruct (dropTrailingDashes s) as [|d r].
  - case_bool_decide; simpl; [done|]. by rewrite Hc.
  - simpl in *. by rewrite Hc, IH.
Qed.

Lemma squeezeDashes_noDoubleDash b s :
  noDoubleDash b (squeezeDashes b s) = true.
Proof.
  revert b. induction s as [|c s IH]; intros b; [done|]. simpl.
  case_bool_decide as Hd.
  - destruct b; [apply IH|]. simpl.
    rewrite ?bool_decide_eq_true_2 by done. simpl. apply IH.
  - simpl. rewrite bool_decide_eq_false_2 by done. apply IH.
Qed.

Lemma dropLeadingDashes_noDoubleDash b s :
  noDoubleDash b s = true -> noDoubleDash false (dropLeadingDashes s) = true.
Proof.
  revert b. induction s as [|c s IH]; intros b; [done|]. simpl.
  case_bool_decide as Hd.
  - intros [_ H]%andb_true_iff. by apply (IH true).
  - intros H. simpl. by rewrite bool_decide_eq_false_2.
Qed.

Lemma noDoubleDash_cons b c s :
  noDoubleDash b (String c s)
  = if bool_decide (c = dash) then negb b && noDoubleDash true s
    else noDoubleDash false s.
Proof. done. Qed.

Lemma dropTrailingDashes_noDoubleDash b s :
  noDoubleDash b s = true -> noDoubleDash b (dropTrailingDashes s) = true.
Proof.
  revert b. induction s as [|c s IH]; intros b; [done|].
  rewrite noDoubleDash_cons. intros H. simpl dropTrailingDashes.
  destruct (dropTrailingDashes s) as [|d r] eqn:E.
  - case_bool_decide; [done|]. rewrite noDoubleDash_cons.
    by rewrite bool_decide_eq_false_2.
  - rewrite noDoubleDash_cons. case_bool_decide.
    + apply andb_true_iff in H as [-> H]. rewrite andb_true_l.
      by apply IH.
    + by apply IH.
Qed.

Lemma dropLeadingDashes_start s : startsWithDash (dropLeadingDashes s) = false.
Proof.
  induction s as [|c s IH]; [done|]. simpl.
  case_bool_decide as Hd; [done|]. simpl. by rewrite bool_decide_eq_false_2.
Qed.

Lemma dropTrailingDashes_start s :
  startsWithDash s = false -> startsWithDash (dropTrailingDashes s) = false.
Proof.
  destruct s as [|c s]; [done|]. simpl. intros H.
  destruct (dropTrailingDashes s); [|done].
  by rewrite H.
Qed.

Lemma dropTrailingDashes_end s :
  Path.lastChar (dropTrailingDashes s) <> Some dash.
Proof.
  induction s as [|c s IH]; [done|]. simpl.
  destruct (dropTrailingDashes s) as [|d r] eqn:E.
  - case_bool_decide as Hd; [done|]. simpl. congruence.
  - exact IH.
Qed.

Lemma slugify_isSlug text : isSlug (slugify text) = true.
Proof.
  unfold isSlug, slugify.
  set (s3 := keepWordChars (dashSpaces false (toLowerCase text))).
  assert (string_forallb isSlugChar s3 = true) as H3.
  { apply keepWordChars_slugChars, dashSpaces_slugIfKept,
      toLowerCase_slugIfKept. }
  rewrite dropTrailingDashes_forallb
    by (by apply dropLeadingDashes_forallb, squeezeDashes_forallb).
  rewrite dropTrailingDashes_noDoubleDash
    by (apply (dropLeadingDashes_noDoubleDash false),
          squeezeDashes_noDoubleDash).
  rewrite dropTrailingDashes_start by apply dropLeadingDashes_start.
  rewrite bool_decide_eq_false_2 by apply dropTrailingDashes_end.
  done.
Qed.

(** Every step of slugify leaves a slug as it is. *)
Lemma toLowerCase_slug s :
  string_forallb isSlugChar s = true -> toLowerCase s = s.
Proof.
  induction s as [|c s IH]; [done|]. simpl.
  intros [Hc Hs]%andb_true_iff. unfold toLowerCase in *. simpl.
  destruct (slugChar_facts c Hc) as [-> _]. by rewrite IH.
Qed.

Lemma dashSpaces_slug b s :
  string_forallb isSlugChar s = true -> dashSpaces b s = s.
Proof.
  revert b. induction s as [|c s IH]; intros b; [done|]. simpl.
  intros [Hc Hs]%andb_true_iff.
  destruct (slugChar_facts c Hc) as (_ & -> & _). by rewrite IH.
Qed.

Lemma keepWordChars_slug s :
  string_forallb isSlugChar s = true -> keepWordChars s = s.
Proof.
  induction s as [|c s IH]; [done|]. simpl.
  intros [Hc Hs]%andb_true_iff.
  destruct (slugChar_facts c Hc) as (_ & _ & ->). by rewrite IH.
Qed.

Lemma squeezeDashes_slug b s :
  noDoubleDash b s = true -> squeezeDashes b s = s.
Proof.
  revert b. induction s as [|c s IH]; intros b; [done|]. simpl.
  case_bool_decide as Hd.
  - intros [Hb H]%andb_true_iff. destruct b; [done|]. subst c.
    by rewrite IH.
  - intros H. by rewrite IH.
Qed.

Lemma dropLeadingDashes_slug s :
  startsWithDash s = false -> dropLeadingDashes s = s.
Proof. destruct s as [|c s]; [done|]. simpl. by intros ->. Qed.

Lemma dropTrailingDashes_slug s :
  Path.lastChar s <> Some dash -> dropTrailingDashes s = s.
Proof.
  induction s as [|c s IH]; [done|]. intros H. simpl.
  destruct s as [|d r].
  - simpl in *. rewrite bool_decide_eq_false_2; [done|]. congruence.
  - rewrite IH by exact H. done.
Qed.

Lemma slugify_slug s : isSlug s = true -> slugify s = s.
Proof.
  unfold isSlug. intros H.
  apply andb_true_iff in H as [H H4]. apply andb_true_iff in H as [H H3].
  apply andb_true_iff in H as [H1 H2].
  apply negb_true_iff in H3, H4. apply bool_decide_eq_false in H4.
  unfold slugify.
  rewrite toLowerCase_slug, dashSpaces_slug, keepWordChars_slug,
    squeezeDashes_slug, dropLeadingDashes_slug, dropTrailingDashes_slug;
    done.
Qed.

(** The shape, in the terms of the language. *)
Lemma prefix_dash s : Js.startsWith s "-" = startsWithDash s.
Proof.
  apply Bool.eq_iff_eq_true. rewrite startsWith_spec. split.
  - intros [rest ->]. by rewrite str_app_cons.
  - destruct s as [|c s]; [done|]. simpl. intros ->%bool_decide_eq_true.
    exists s. by rewrite str_app_cons, str_app_nil_l.
Qed.

Lemma includes_cons c s sub :
  Js.includes (String c s) sub
  = Js.startsWith (String c s) sub || Js.includes s sub.
Proof. done. Qed.

Lemma noDoubleDash_includes b s :
  noDoubleDash b s = true -> Js.includes s "--" = false.
Proof.
  revert b. induction s as [|c s IH]; intros b; [done|].
  rewrite noDoubleDash_cons, includes_cons. intros H.
  assert (Js.startsWith (String c s) "--" = false) as ->.
  { destruct (Js.startsWith (String c s) "--") eqn:E; [|done].
    apply startsWith_spec in E as [rest E].
    rewrite !str_app_cons, str_app_nil_l in E. injection E as -> ->.
    by rewrite bool_decide_eq_true_2, andb_false_r in H. }
  simpl. case_bool_decide.
  - apply andb_true_iff in H as [_ H]. by apply (IH true).
  - by apply (IH false).
Qed.

Lemma substring_S n m c s :
  String.substring (S n) m (String c s) = String.substring n m s.
Proof. done. Qed.

Lemma substring_last s :
  String.substring (String.length s - 1) 1 s
  = match Path.lastChar s with
    | Some c => String c EmptyString
    | None => EmptyString
    end.
Proof.
  induction s as [|c s IH]; [done|].
  destruct s as [|d r]; [done|].
  replace (String.length (String c (String d r)) - 1)
    with (S (String.length (String d r) - 1)) by (simpl; lia).
  rewrite substring_S, IH. done.
Qed.

Lemma endsWith_dash s :
  Path.lastChar s <> Some dash -> Js.endsWith s "-" = false.
Proof.
  intros H. unfold Js.endsWith. simpl String.length.
  rewrite substring_last.
  destruct (Path.lastChar s) as [c|].
  - rewrite bool_decide_eq_false_2, andb_false_r; [done|].
    intros [= ->]. by destruct H.
  - by rewrite bool_decide_eq_false_2, andb_false_r.
Qed.

(** X18. slugify returns a slug: small letters, digits, "_" and "-" only,
    no two dashes in a row, and no dash at the beginning or at the end.
    It is idempotent: it leaves every slug as it is, so slugifying a
    second time changes nothing. *)
Theorem X18_slugify_returns_a_slug (text : string) :
  string_forallb isSlugChar (slugify text) = true
  /\ Js.includes (slugify text) "--" = false
  /\ Js.startsWith (slugify text) "-" = false
  /\ Js.endsWith (slugify text) "-" = false
  /\ slugify (slugify text) = slugify text.
Proof.
  pose proof (slugify_isSlug text) as H.
  split; [|split; [|split; [|split]]].
  - unfold isSlug in H. by repeat (apply andb_true_iff in H as [H _]).
  - unfold isSlug in H. apply andb_true_iff in H as [H _].
    apply andb_true_iff in H as [H _]. apply andb_true_iff in H as [_ H].
    by apply (noDoubleDash_includes false).
  - unfold isSlug in H. apply andb_true_iff in H as [H _].
    apply andb_true_iff in H as [_ H]. rewrite prefix_dash.
    by apply negb_true_iff.
  - unfold isSlug in H. apply andb_true_iff in H as [_ H].
    apply negb_true_iff, bool_decide_eq_false in H. by apply endsWith_dash.
  - by apply slugify_slug.
Qed.

(** ** Uploading an image and deleting it again *)

Lemma includes_app a sub b : Js.includes (a +:+ sub +:+ b) sub = true.
Proof.
  induction a as [|c a IH].
  - rewrite str_app_nil_l.
    assert (Js.startsWith (sub +:+ b) sub = true) as H
      by (apply startsWith_spec; eauto).
    unfold Js.startsWith in H.
    destruct (sub +:+ b); cbn [Js.includes]; by rewrite H.
  - rewrite str_app_cons. cbn [Js.includes]. by rewrite IH, orb_true_r.
Qed.

Lemma basename_after x name :
  Path.slashFree name = true -> name <> "" ->
  Path.basename (x +:+ String Path.slash name) = name.
Proof.
  intros Hs Hne. unfold Path.basename.
  rewrite segments_app_slash, (segments_slashFree name Hs).
  rewrite filter_app, rev_app_distr.
  rewrite filter_cons_True by done. done.
Qed.

(** The thumbnail URL the image branch computes. *)
Lemma ingestImage_thumbnailUrl userId baseUrl mediaType file env w c w' :
  ingestImage userId baseUrl mediaType file env w = (Ok c, w') ->
  c_thumbnailUrl c
  = Some (baseUrl +:+ "/uploads/" +:+ userId +:+ "/thumbnails/"
            +:+ "thumb_" +:+ Path.parse_name (File.filename file) +:+ ".webp").
Proof.
  unfold ingestImage. rewrite !bind_eq.
  repeat (match goal with
          | |- context [match ?m ?w0 with _ => _ end] =>
              destruct (m w0) as [[?|?] ?]; try done
          end; rewrite ?bind_eq).
  all: try (by intros [= <- _]).
Qed.

(** X19. Uploading an image and deleting it again leaves nothing behind.
    When an upload of an image is accepted and the optimized file and the
    thumbnail were written to paths that were free, a following delete of
    the returned record by its owner answers 200, after which the
    collection is as it was before the upload, the uploaded original, the
    optimized file and the thumbnail are gone, and every other file is as
    it was. *)
Theorem X19_image_upload_then_delete_leaves_nothing
    (req dreq : Req.t) (env : Env.t) (file : File.t) (owner : string)
    (w : World) (r : Response) (w1 : World) :
  Req.file req = Some file ->
  isImage (File.mimetype file) = true ->
  (uploadMedia req env w = (r, w1) /\ Req.user req = Some owner)
  \/ (externalUploadMedia req env w = (r, w1)
      /\ Req.userId req = Some owner) ->
  status r = 201 ->
  castObjectId (Env.objectId env) = Some (Env.objectId env) ->
  let webp := Path.parse_name (File.filename file) +:+ ".webp" in
  let opt := getOptimizedPath owner "images" webp in
  let thumb := getThumbnailPath owner ("thumb_" +:+ webp) in
  fs w !! opt = None -> fs w !! thumb = None ->
  Req.user dreq = Some owner -> Req.id dreq = Env.objectId env ->
  exists w2,
    deleteMedia dreq w1
    = ({| status := 200; body := BDeleted (Env.objectId env) |}, w2)
    /\ db w2 = db w
    /\ fs w2 !! File.path file = None
    /\ fs w2 !! opt = None /\ fs w2 !! thumb = None
    /\ forall p n,
         fs w2 !! p = Some (FileNode n) <->
         p <> File.path file /\ fs w !! p = Some (FileNode n).
Proof.
  intros Hfile Hi Hup Hst Hid webp opt thumb Hopt Hthumb Hdu Hdid.
  assert ((c <- ingestImage owner ("https://" +:+ Req.host req)
                  "images" file env ;;
           createAndRespond owner file env c) w = (Ok r, w1)) as Hrun.
  { destruct Hup as [[Hup Ho]|[Hup Ho]].
    - destruct (uploadMedia_accepted req env file w r w1 Hfile Hup Hst)
        as (o & Ho' & H). rewrite Ho in Ho'. injection Ho' as <-.
      by rewrite Hi, (isImage_uploadMediaType _ Hi) in H.
    - destruct (externalUploadMedia_accepted req env file w r w1 Hfile Hup Hst)
        as (o & Ho' & H). rewrite Ho in Ho'. injection Ho' as <-.
      by rewrite Hi, (isImage_uploadMediaType _ Hi) in H. }
  rewrite bind_eq in Hrun.
  destruct (ingestImage_cases owner ("https://" +:+ Req.host req) "images"
              file env w)
    as (wd & Hdbd & _ & Hsame
        & [(msg & E)|[(msg & n & w2' & E & _)
                     |(n & m & k & c & w4 & E & _ & _ & Hso & Hst'
                       & Hsrc & Hurl & Hourl & Hco & Hcs & Hcn & Hdb4 & _
                       & Hfs4)]]);
    rewrite E in Hrun; [done..|].
  pose proof (ingestImage_thumbnailUrl _ _ _ _ _ _ _ _ E) as Hturl.
  destruct (createAndRespond_cases owner file env c w4)
    as [(msg & Ec)|(uid & Huid & Hfree & Hne & Ec)]; rewrite Ec in Hrun;
    [done|].
  injection Hrun as <- <-. clear Hup Hst.
  set (baseUrl := "https://" +:+ Req.host req) in *.
  fold webp in Hurl, Hcn, Hturl. fold opt thumb in Hso, Hst', Hfs4.
  set (doc := {| _id := Env.objectId env;
                 fileName := c_newFileName c;
                 originalFileName := File.originalname file;
                 fileType := File.mimetype file;
                 fileSize := c_optimizedSize c;
                 fileUrl := c_fileUrl c;
                 thumbnailUrl := c_thumbnailUrl c;
                 userId := uid;
                 optimizedFileUrl := c_optimizedFileUrl c;
                 isOptimized := c_isOptimized c |}).
  set (w1 := emit (EvDbCreate doc)
               (with_db (<[Env.objectId env := doc]> (db w4)) w4)).
  pose proof (castObjectId_plain _ _ Huid) as Hplain.
  assert (thumb <> opt) as Hto.
  { intros Heq. symmetry in Heq. revert Heq.
    by apply optimized_not_thumbnail. }
  assert (Path.basename (c_fileUrl c) = webp) as Hb1.
  { rewrite Hurl.
    replace (baseUrl +:+ "/uploads/" +:+ owner +:+ "/" +:+ "images"
               +:+ "/optimized/" +:+ webp)
      with ((baseUrl +:+ "/uploads/" +:+ owner +:+ "/" +:+ "images"
               +:+ "/optimized") +:+ String Path.slash webp)
      by (rewrite !str_app_assoc; reflexivity).
    pose proof (webp_name_plain (File.filename file)) as Hp.
    apply basename_after; [by apply plain_slashFree|by apply plain_ne]. }
  assert (Path.basename (default "" (c_thumbnailUrl c)) = "thumb_" +:+ webp)
    as Hb2.
  { rewrite Hturl. simpl default.
    replace (baseUrl +:+ "/uploads/" +:+ owner +:+ "/thumbnails/"
               +:+ "thumb_" +:+ webp)
      with ((baseUrl +:+ "/uploads/" +:+ owner +:+ "/thumbnails")
               +:+ String Path.slash ("thumb_" +:+ webp))
      by (rewrite !str_app_assoc; reflexivity).
    pose proof (thumb_name_plain (File.filename file)) as Hp.
    apply basename_after; [by apply plain_slashFree|by apply plain_ne]. }
  assert (artifacts owner doc = [thumb; opt]) as Hart.
  { unfold artifacts, inOptimizedSubtree. simpl.
    rewrite (isImage_mediaTypeOf _ Hi), Hb2.
    assert (Js.includes (c_fileUrl c) "/optimized/" = true) as ->.
    { rewrite Hurl.
      replace (baseUrl +:+ "/uploads/" +:+ owner +:+ "/" +:+ "images"
                 +:+ "/optimized/" +:+ webp)
        with ((baseUrl +:+ "/uploads/" +:+ owner +:+ "/" +:+ "images")
                 +:+ "/optimized/" +:+ webp)
        by (rewrite !str_app_assoc; reflexivity).
      apply includes_app. }
    rewrite Hturl, Hourl. simpl.
    assert (Js.truthy (c_fileUrl c) = true) as -> by (by apply truthy_true).
    by rewrite Hb1. }
  assert (fs w1 !! thumb = Some (FileNode m)
          /\ fs w1 !! opt = Some (FileNode n)) as [Hft Hfo].
  { simpl. rewrite Hfs4.
    rewrite !lookup_delete_ne, lookup_insert_eq by done.
    split; [done|]. by rewrite lookup_insert_ne, lookup_insert_eq. }
  destruct (deleteFound_spec owner (Req.id dreq) doc w1) as
    (w2 & removed & Ed & Hfs2 & Hdb2 & _).
  { exact Hne. }
  { rewrite Hart. intros p Hp.
    apply elem_of_cons in Hp as [->|Hp]; [by rewrite Hft|].
    apply list_elem_of_singleton in Hp as ->. by rewrite Hfo. }
  exists w2. split.
  { unfold deleteMedia, handler. rewrite Hdu, bind_eq.
    rewrite (findOne_found (Req.id dreq) owner (Env.objectId env) uid doc w1);
      [|by rewrite Hdid|done|apply lookup_insert_eq|done].
    rewrite Ed. by rewrite Hdid. }
  rewrite Hart in Hfs2.
  assert (forall p, fs w2 !! p
                    = if decide (p ∈ [thumb; opt]) then None
                      else fs w4 !! p) as Hlook.
  { intros p. by rewrite Hfs2, lookup_deleteAll. }
  split.
  { rewrite Hdb2. simpl. rewrite Hdb4. apply delete_insert_id. by rewrite <- Hdb4. }
  split.
  { rewrite Hlook. case_decide; [done|]. rewrite Hfs4.
    apply lookup_delete_eq. }
  split.
  { rewrite Hlook. rewrite decide_True; [done|]. set_solver. }
  split.
  { rewrite Hlook. rewrite decide_True; [done|]. set_solver. }
  intros p n'. rewrite Hlook. case_decide as Hin.
  - split; [done|]. intros [_ Hp].
    apply elem_of_cons in Hin as [->|Hin]; [congruence|].
    apply list_elem_of_singleton in Hin as ->. congruence.
  - rewrite Hfs4. destruct (decide (p = File.path file)) as [->|Hps].
    + rewrite lookup_delete_eq. split; [done|]. by intros [? _].
    + rewrite lookup_delete_ne by done.
      rewrite !lookup_insert_ne by set_solver.
      rewrite (Hsame p n'). tauto.
Qed.

(** ** The disk storage and the resolver agree *)

(** *** [path.normalize] leaves what it returned as it is *)

Lemma rev_replicate {A} k (x : A) : rev (replicate k x) = replicate k x.
Proof.
  induction k as [|k IH]; [done|].
  simpl. rewrite IH. by rewrite <- replicate_S_end.
Qed.

Lemma fold_norm_dotdots k j :
  fold_left (Path.norm_step true) (replicate k "..") (replicate j "..")
  = replicate (k + j) "..".
Proof.
  revert j. induction k as [|k IH]; intros j; [done|].
  simpl replicate. simpl fold_left.
  assert (Path.norm_step true (replicate j "..") ".." = replicate (S j) "..")
    as -> by (by destruct j).
  rewrite IH. by rewrite Nat.add_succ_r.
Qed.

(** The stack of [normalizeString] always holds plain segments on top of
    ".." segments, and ".." segments only where they are allowed. *)
Lemma norm_step_normal allow P k seg :
  Forall (fun s => Path.plain s = true) P -> (allow = false -> k = 0) ->
  Path.slashFree seg = true ->
  exists P' k',
    Path.norm_step allow (P ++ replicate k "..") seg = P' ++ replicate k' ".."
    /\ Forall (fun s => Path.plain s = true) P'
    /\ (allow = false -> k' = 0).
Proof.
  intros HP Hk Hseg. unfold Path.norm_step.
  destruct (decide (seg = "")) as [->|H1]; [by exists P, k|].
  destruct (decide (seg = ".")) as [->|H2]; [by exists P, k|].
  rewrite !(bool_decide_eq_false_2 (seg = _)) by done. simpl.
  destruct (decide (seg = "..")) as [->|H3].
  - rewrite bool_decide_eq_true_2 by done.
    destruct P as [|top rest].
    + simpl. destruct k as [|k].
      * destruct allow; [by exists [], 1|by exists [], 0].
      * simpl. destruct allow; [|by exists [], (S k)].
        by exists [], (S (S k)).
    + inversion HP as [|?? Htop Hrest]; subst. simpl.
      apply plain_ne in Htop as (_ & _ & Htop).
      rewrite bool_decide_eq_false_2 by done. by exists rest, k.
  - rewrite bool_decide_eq_false_2 by done.
    exists (seg :: P), k. split; [done|]. split; [|done].
    constructor; [|done]. unfold Path.plain.
    by rewrite Hseg, !bool_decide_eq_false_2.
Qed.

Lemma fold_norm_normal allow segs :
  Forall (fun s => Path.slashFree s = true) segs ->
  forall P k,
    Forall (fun s => Path.plain s = true) P -> (allow = false -> k = 0) ->
    exists P' k',
      fold_left (Path.norm_step allow) segs (P ++ replicate k "..")
      = P' ++ replicate k' ".."
      /\ Forall (fun s => Path.plain s = true) P'
      /\ (allow = false -> k' = 0).
Proof.
  induction 1 as [|seg segs Hseg _ IH]; intros P k HP Hk; [by exists P, k|].
  simpl.
  destruct (norm_step_normal allow P k seg HP Hk Hseg)
    as (P1 & k1 & -> & HP1 & Hk1).
  by apply IH.
Qed.

Lemma norm_segments_normal allow s :
  exists k Q,
    Path.norm_segments allow (Path.segments s) = replicate k ".." ++ Q
    /\ Forall (fun x => Path.plain x = true) Q
    /\ (allow = false -> k = 0).
Proof.
  destruct (fold_norm_normal allow (Path.segments s)
              (segments_all_slashFree s) [] 0) as (P & k & E & HP & Hk);
    [done..|].
  exists k, (rev P). unfold Path.norm_segments.
  change (@nil string) with ([] ++ replicate 0 "..") at 1.
  rewrite E, rev_app_distr, rev_replicate. split; [done|]. split; [|done].
  apply Forall_forall. intros x Hx%list_elem_of_In%in_rev%list_elem_of_In.
  by apply (proj1 (Forall_forall _ _) HP).
Qed.

Lemma norm_segments_idem allow k Q :
  Forall (fun x => Path.plain x = true) Q -> (allow = false -> k = 0) ->
  Path.norm_segments allow (replicate k ".." ++ Q) = replicate k ".." ++ Q.
Proof.
  intros HQ Hk. unfold Path.norm_segments. rewrite fold_left_app.
  assert (fold_left (Path.norm_step allow) (replicate k "..") []
          = replicate k "..") as ->.
  { destruct allow.
    - change (@nil string) with (replicate 0 "..") at 1.
      rewrite fold_norm_dotdots. f_equal. lia.
    - by rewrite Hk. }
  rewrite fold_norm_plain by done.
  by rewrite rev_app_distr, rev_involutive, rev_replicate.
Qed.

Lemma dirs_app l1 l2 : Path.dirs (l1 ++ l2) = Path.dirs l1 +:+ Path.dirs l2.
Proof.
  induction l1 as [|x l1 IH]; [done|].
  simpl. by rewrite IH, !str_app_assoc.
Qed.

Lemma isAbsolute_unsegments x l :
  Path.slashFree x = true -> x <> "" ->
  Path.isAbsolute (Path.unsegments (x :: l)) = false.
Proof.
  intros Hs Hne. destruct x as [|c x]; [done|].
  simpl in Hs. apply andb_true_iff in Hs as [Hc _].
  apply negb_true_iff in Hc.
  destruct l as [|y l]; [done|].
  rewrite unsegments_cons, str_app_cons. done.
Qed.

(** The directory of a directory: [join] renders a path it returned, in
    front of further segments, as that path followed by a separator. *)
Lemma dirOf_app_plain b l :
  l <> [] -> Forall (fun s => Path.plain s = true) l ->
  Path.dirOf (Path.dirOf b +:+ Path.unsegments l)
  = Path.dirOf b +:+ Path.dirs l.
Proof.
  intros Hl Hall. unfold Path.dirOf at 2 3.
  set (abs := Path.isAbsolute b).
  destruct (norm_segments_normal (negb abs) b) as (k & Q & -> & HQ & Hk).
  set (N := replicate k ".." ++ Q).
  assert (Forall (fun s => Path.slashFree s = true /\ s <> "") (N ++ l)) as HN.
  { apply Forall_app. split; [apply Forall_app; split|].
    - apply Forall_forall. by intros x [-> _]%elem_of_replicate.
    - eapply Forall_impl; [exact HQ|]. intros x Hx.
      split; [by apply plain_slashFree|by apply plain_ne].
    - eapply Forall_impl; [exact Hall|]. intros x Hx.
      split; [by apply plain_slashFree|by apply plain_ne]. }
  assert (N ++ l <> []) as Hne by (by destruct N, l).
  assert (Path.segments (Path.unsegments (N ++ l)) = N ++ l) as Hseg.
  { apply segments_unsegments; [done|].
    eapply Forall_impl; [exact HN|]. by intros x [? _]. }
  assert (Path.norm_segments (negb abs) (N ++ l) = N ++ l) as Hnorm.
  { unfold N. rewrite <- (assoc (++)).
    apply norm_segments_idem; [by apply Forall_app|done]. }
  rewrite str_app_assoc, <- unsegments_app_dirs by done.
  unfold Path.dirOf. destruct abs; simpl negb in *.
  - rewrite str_app_cons, str_app_nil_l.
    change (Path.isAbsolute (String "/" (Path.unsegments (N ++ l))))
      with true. cbv iota.
    change (Path.segments (String "/" (Path.unsegments (N ++ l))))
      with ("" :: Path.segments (Path.unsegments (N ++ l))).
    rewrite Hseg.
    change (Path.norm_segments false ("" :: N ++ l))
      with (Path.norm_segments false (N ++ l)).
    rewrite Hnorm, dirs_app. by rewrite !str_app_assoc.
  - rewrite !str_app_nil_l.
    assert (Path.isAbsolute (Path.unsegments (N ++ l)) = false) as ->.
    { destruct (N ++ l) as [|x r] eqn:E; [done|].
      inversion HN as [|?? [Hx1 Hx2] _]; subst.
      by apply isAbsolute_unsegments. }
    rewrite str_app_nil_l. simpl negb. by rewrite Hseg, Hnorm, dirs_app.
Qed.

Lemma join_dir_plain b l f :
  l <> [] -> Forall (fun s => Path.plain s = true) l ->
  Path.plain f = true ->
  Path.join [Path.dirOf b +:+ Path.unsegments l; f]
  = Path.dirOf b +:+ Path.unsegments (l ++ [f]).
Proof.
  intros Hl Hall Hf.
  rewrite join_plain by (done || by repeat constructor).
  rewrite dirOf_app_plain by done.
  rewrite (unsegments_app_dirs l [f]) by done.
  by rewrite str_app_assoc.
Qed.

(** Resolving step by step, as the disk storage does, gives the path the
    resolver gives at once. *)
Lemma join_nested u t f :
  Path.plain u = true -> Path.plain t = true -> Path.plain f = true ->
  Path.join [Path.join [Path.join [BASE_UPLOAD_PATH; u]; t]; f]
  = getUserFilePath u t f.
Proof.
  intros Hu Ht Hf. unfold getUserFilePath.
  rewrite (join_plain BASE_UPLOAD_PATH [u]) by (done || by repeat constructor).
  rewrite (join_dir_plain BASE_UPLOAD_PATH [u] t)
    by (done || by repeat constructor).
  cbn [app].
  rewrite (join_dir_plain BASE_UPLOAD_PATH [u; t] f)
    by (done || by repeat constructor).
  cbn [app].
  by rewrite (join_plain BASE_UPLOAD_PATH [u; t; f])
    by (done || by repeat constructor).
Qed.

(** *** The disk storage of POST /api/media *)

Lemma forEach_ensureDir l w :
  exists w',
    forEach l ensureDir w = (Ok tt, w')
    /\ sameFiles (fs w) (fs w') /\ db w' = db w /\ jobs w' = jobs w.
Proof.
  revert w. induction l as [|d l IH]; intros w; [by exists w|].
  simpl. rewrite bind_eq.
  destruct (ensureDir_spec d w) as (w1 & -> & D1 & J1 & F1).
  destruct (IH w1) as (w2 & -> & F2 & D2 & J2).
  exists w2. split; [done|]. split; [|split; congruence].
  intros p n. rewrite (F2 p n). apply F1.
Qed.

Lemma storageDestination_spec account mimetype w :
  account <> "" ->
  exists w',
    storageDestination (Some account) mimetype w
    = (Ok (Path.join [Path.join [BASE_UPLOAD_PATH; account];
                      storageMediaType mimetype]), w')
    /\ sameFiles (fs w) (fs w') /\ db w' = db w /\ jobs w' = jobs w.
Proof.
  intros Hne%truthy_true. unfold storageDestination.
  change (Js.truthy_opt (Some account)) with (Js.truthy account).
  rewrite Hne. cbn [negb].
  change (default "" (Some account)) with account.
  rewrite bind_eq.
  match goal with
  | |- context [forEach ?l ensureDir w] =>
      destruct (forEach_ensureDir l w) as (w1 & -> & F1 & D1 & J1)
  end.
  rewrite bind_eq.
  match goal with
  | |- context [forEach ?l ensureDir w1] =>
      destruct (forEach_ensureDir l w1) as (w2 & -> & F2 & D2 & J2)
  end.
  exists w2. split; [done|]. split; [|split; congruence].
  intros p n. rewrite (F2 p n). apply F1.
Qed.

Lemma storageMediaType_plain m : Path.plain (storageMediaType m) = true.
Proof.
  unfold storageMediaType.
  destruct (Js.startsWith m "image/"); [done|].
  by destruct (Js.startsWith m "video/").
Qed.

Lemma extname_slashFree p : Path.slashFree (Path.extname p) = true.
Proof.
  unfold Path.extname, Path.ext_of_base.
  destruct (Path.lastDot _) as [[|i]|]; [done| |done].
  case_bool_decide; [done|].
  apply substring_slashFree, basename_slashFree.
Qed.

(** A plain name followed by an extension is plain. *)
Lemma plain_app_slashFree a b :
  Path.plain a = true -> Path.slashFree b = true ->
  Path.plain (a +:+ b) = true.
Proof.
  intros Ha Hb.
  pose proof (plain_slashFree a Ha) as Hs.
  destruct (plain_ne a Ha) as (H1 & H2 & H3).
  assert (a +:+ b <> "") as E1.
  { intros [? _]%str_app_eq_nil. done. }
  assert (a +:+ b <> ".") as E2.
  { intros E. destruct a as [|c [|c' a']]; [done| |].
    - rewrite str_app_cons, str_app_nil_l in E. injection E as -> _. done.
    - rewrite !str_app_cons in E. by injection E. }
  assert (a +:+ b <> "..") as E3.
  { intros E. destruct a as [|c [|c' a']]; [done| |].
    - rewrite str_app_cons, str_app_nil_l in E. injection E as -> _. done.
    - rewrite !str_app_cons in E. injection E as -> -> E.
      apply str_app_eq_nil in E as [-> _]. done. }
  unfold Path.plain. rewrite slashFree_app, Hs, Hb.
  by rewrite !bool_decide_eq_false_2.
Qed.

(** What [upload.single('file')] of POST /api/media does with a part. *)
Lemma multerSingle_stored account uuid part w :
  Path.plain account = true -> Path.plain uuid = true ->
  let filename := storageFilename uuid (part_originalname part) in
  let path :=
    getUserFilePath account (uploadMediaType (part_mimetype part)) filename in
  (exists e w',
     multerSingle fileFilter (storageDestination (Some account)) uuid
       (Some part) w = (Throw e, w')
     /\ (fileFilter (part_mimetype part) = false
         \/ (fileSizeLimit < part_bytes part)%N))
  \/ (fileFilter (part_mimetype part) = true
      /\ (part_bytes part <= fileSizeLimit)%N
      /\ exists dest w',
           multerSingle fileFilter (storageDestination (Some account)) uuid
             (Some part) w
           = (Ok (Some {| File.originalname := part_originalname part;
                          File.mimetype := part_mimetype part;
                          File.size := part_bytes part;
                          File.destination := dest;
                          File.filename := filename;
                          File.path := path |}), w')
           /\ fs w' !! path = Some (FileNode (part_bytes part))
           /\ (forall p n, p <> path ->
                 fs w' !! p = Some (FileNode n)
                 <-> fs w !! p = Some (FileNode n))
           /\ db w' = db w /\ jobs w' = jobs w).
Proof.
  intros Hu Hid filename path. unfold multerSingle.
  destruct (fileFilter (part_mimetype part)) eqn:Hf; simpl.
  2:{ left. eexists _, _. split; [reflexivity|by left]. }
  rewrite bind_eq.
  destruct (storageDestination_spec account (part_mimetype part) w)
    as (w1 & -> & F1 & D1 & J1); [by apply plain_ne|].
  assert (Path.join [Path.join [Path.join [BASE_UPLOAD_PATH; account];
                                storageMediaType (part_mimetype part)];
                     storageFilename uuid (part_originalname part)] = path)
    as ->.
  { unfold path. rewrite (proj1 (fileFilter_agree _ Hf)).
    apply join_nested; [done|apply storageMediaType_plain|].
    apply plain_app_slashFree; [done|apply extname_slashFree]. }
  destruct (fileSizeLimit <? part_bytes part)%N eqn:Hsz.
  - left. eexists _, _. split; [reflexivity|]. right. by apply N.ltb_lt.
  - right. split; [done|]. split; [by apply N.ltb_ge|].
    eexists _, _. split; [reflexivity|]. simpl.
    rewrite lookup_insert_eq. split; [done|]. split; [|done].
    intros p n Hp. rewrite lookup_insert_ne by done. apply F1.
Qed.


(** X21. A document uploaded through POST /api/media and deleted again
    leaves nothing behind.  When the route answers 201 for a part that is
    neither image nor video, the file is on disk at the path the resolver
    gives for the account, documents and the stored name.  When the URL of
    the record does not contain "/optimized/" (which deleteMedia takes as
    the mark of an optimized file), a following delete of the record by
    the account answers 200, after which that file is gone, every other
    file is as it was before the upload, and the collection is as it was
    before the upload. *)
Theorem X21_document_upload_then_delete_leaves_nothing
    (account host : string) (part : Part) (env : Env.t) (dreq : Req.t)
    (w : World) (r : Response) (w1 : World) :
  Path.plain (Env.fileUuid env) = true ->
  classify (part_mimetype part) = Document ->
  routeUpload account host (Some part) env w = (Responded r, w1) ->
  status r = 201 ->
  castObjectId (Env.objectId env) = Some (Env.objectId env) ->
  let filename :=
    storageFilename (Env.fileUuid env) (part_originalname part) in
  let path := getUserFilePath account "documents" filename in
  let url :=
    "https://" +:+ host +:+ "/uploads/" +:+ account +:+ "/documents/"
      +:+ filename in
  Js.includes url "/optimized/" = false ->
  Req.user dreq = Some account -> Req.id dreq = Env.objectId env ->
  (exists doc,
     body r = BUploaded doc /\ fileName doc = filename /\ fileUrl doc = url)
  /\ fs w1 !! path = Some (FileNode (part_bytes part))
  /\ exists w2,
       deleteMedia dreq w1
       = ({| status := 200; body := BDeleted (Env.objectId env) |}, w2)
       /\ db w2 = db w
       /\ fs w2 !! path = None
       /\ forall p n, p <> path ->
            fs w2 !! p = Some (FileNode n) <-> fs w !! p = Some (FileNode n).
Proof.
  intros Hid Hc Hroute Hst Hoid filename path url Hurl Hdu Hdid.
  destruct (classify_Document _ Hc) as [Hi Hv].
  unfold routeUpload in Hroute.
  destruct (multerSingle _ _ _ _ w) as [[file|e] w0] eqn:Em; [|done].
  destruct (uploadMedia _ env w0) as [r' w1'] eqn:Eu.
  injection Hroute as -> ->.
  destruct file as [file|].
  2:{ unfold uploadMedia, handler in Eu. simpl in Eu.
      injection Eu as <- _. done. }
  pose proof (fun Hf => uploadMedia_accepted _ env file w0 r w1 Hf Eu Hst)
    as Hacc.
  destruct (Hacc eq_refl) as (o & [= <-] & Hrun). clear Hacc.
  cbn [Req.host] in Hrun.
  assert (Path.plain account = true) as Hp.
  { rewrite bind_eq in Hrun.
    match type of Hrun with
    | match ?m w0 with _ => _ end = _ =>
        destruct (m w0) as [[c|e] wx]; [|done]
    end.
    destruct (createAndRespond_cases account file env c wx)
      as [(msg & E)|(uid & Huid & _)]; [by rewrite E in Hrun|].
    by apply (castObjectId_plain _ uid). }
  destruct (multerSingle_stored account (Env.fileUuid env) part w Hp Hid)
    as [(e & w' & E & _)|(Hf & _ & dest & w' & E & Hfile & Hothers & Hdb0 & _)];
    rewrite E in Em; [done|].
  injection Em as <- <-. cbn [File.mimetype] in Hrun.
  rewrite Hi, Hv in Hrun.
  assert (uploadMediaType (part_mimetype part) = "documents") as Hty.
  { rewrite (proj1 (fileFilter_agree _ Hf)). unfold storageMediaType.
    unfold isImage, isVideo in Hi, Hv. by rewrite Hi, Hv. }
  rewrite Hty in Hrun, Hfile, Hothers. fold filename path in Hfile, Hothers.
  rewrite bind_eq in Hrun. unfold ingestDocument at 1, ret at 1 in Hrun.
  match type of Hrun with
  | createAndRespond ?o ?f ?e ?c ?w0 = _ =>
      destruct (createAndRespond_cases o f e c w0)
        as [(msg & Ec)|(uid & Huid & Hfree & Hne & Ec)];
        rewrite Ec in Hrun; [done|]
  end.
  injection Hrun as <- <-. cbn [c_fileUrl c_thumbnailUrl c_optimizedFileUrl
    c_isOptimized c_optimizedSize c_newFileName File.originalname
    File.mimetype File.size File.filename] in *.
  assert (("https://" +:+ host) +:+ "/uploads/" +:+ account +:+ "/"
            +:+ "documents" +:+ "/"
            +:+ storageFilename (Env.fileUuid env) (part_originalname part)
          = url) as Eurl
    by (unfold url; rewrite !str_app_assoc; reflexivity).
  rewrite Eurl in *.
  match goal with
  | |- context [BUploaded ?d] => set (doc := d) in *
  end.
  set (w1 := emit (EvDbCreate doc)
               (with_db (<[Env.objectId env := doc]> (db w')) w')).
  split; [by exists doc|].
  split; [done|].
  assert (artifacts account doc = [path]) as Hart.
  { rewrite artifacts_unfold by done.
    cbn [doc fileUrl thumbnailUrl optimizedFileUrl fileType fileName
         Js.truthy_opt orb].
    assert (Js.truthy url = true) as -> by (by apply truthy_true).
    rewrite Hurl. cbn [negb andb app]. unfold mediaTypeOf.
    by rewrite Hi, Hv. }
  destruct (deleteFound_spec account (Req.id dreq) doc w1) as
    (w2 & removed & Ed & Hfs2 & Hdb2 & _).
  { exact Hne. }
  { rewrite Hart. intros p Hin%list_elem_of_singleton. subst p.
    simpl. by rewrite Hfile. }
  exists w2. split.
  { unfold deleteMedia, handler. rewrite Hdu, bind_eq.
    rewrite (findOne_found (Req.id dreq) account (Env.objectId env) uid doc w1);
      [|by rewrite Hdid|done|apply lookup_insert_eq|done].
    rewrite Ed. by rewrite Hdid. }
  rewrite Hart in Hfs2.
  split.
  { rewrite Hdb2. simpl. rewrite Hdb0. apply delete_insert_id.
    by rewrite <- Hdb0. }
  split.
  { rewrite Hfs2. simpl. apply lookup_delete_eq. }
  intros p n Hpn. rewrite Hfs2. simpl.
  rewrite lookup_delete_ne by done. by apply Hothers.
Qed.

(** ** Videos on the external route *)

Lemma castObjectId_length s u : castObjectId s = Some u -> String.length s = 24.
Proof.
  unfold castObjectId, isObjectIdString.
  destruct (String.length s =? 24)%nat eqn:E; [|done].
  intros _. by apply Nat.eqb_eq.
Qed.

(** The video branch of the external controller moves the file. *)
Lemma externalIngestVideo_moves owner baseUrl mediaType file env w n :
  fs w !! File.path file = Some (FileNode n) ->
  let dst := getUserFilePath owner mediaType (File.filename file) in
  File.path file <> dst ->
  (exists msg w1,
     externalIngestVideo owner baseUrl mediaType file env w
       = (Throw (LibError msg), w1))
  \/ (exists w1,
        externalIngestVideo owner baseUrl mediaType file env w
          = (Ok (videoComputed owner baseUrl mediaType file), w1)
        /\ db w1 = db w
        /\ jobs w1 = jobs w ++ [screenshotJob owner file;
                                transcodeJob owner baseUrl mediaType dst
                                  file env]
        /\ fs w1 !! dst = Some (FileNode n)
        /\ (forall k, fs w1 !! File.path file <> Some (FileNode k))
        /\ (forall p k, p <> dst -> p <> File.path file ->
              fs w1 !! p = Some (FileNode k)
              <-> fs w !! p = Some (FileNode k))).
Proof.
  intros Hsrc dst Hne. unfold externalIngestVideo. fold dst.
  destruct (ensureUserDirExists_spec owner (Some "thumbnails") w)
    as (w1 & r1 & E1 & D1 & J1 & F1).
  rewrite bind_eq, E1.
  destruct (ensureUserDirExists_spec owner (Some mediaType) w1)
    as (w2 & r2 & E2 & D2 & J2 & F2).
  rewrite bind_eq, E2, bind_eq, launch_eq.
  set (w3 := emit _ _). rewrite bind_eq.
  destruct (renameSync_cases (File.path file) dst w3)
    as [[msg Er]|(node & Hnode & Er)]; rewrite Er; [left; by eexists _, _|].
  assert (node = FileNode n) as ->.
  { change (fs w3) with (fs w2) in Hnode.
    apply (F1 _ n), (F2 _ n) in Hsrc. congruence. }
  set (w4 := emit _ _).
  destruct (ensureUserDirExists_spec owner (Some (mediaType +:+ "/optimized")) w4)
    as (w5 & r5 & E5 & D5 & J5 & F5).
  rewrite bind_eq, E5, bind_eq, launch_eq.
  right. eexists. split; [reflexivity|]. simpl.
  rewrite D5, J5. simpl. rewrite D2, J2, D1, J1, <- (assoc (++)).
  split; [done|]. split; [done|].
  assert (forall p k, fs w5 !! p = Some (FileNode k)
            <-> <[dst := FileNode n]> (delete (File.path file) (fs w2)) !! p
                = Some (FileNode k)) as F by (intros p k; apply F5).
  split; [apply F; apply lookup_insert_eq|].
  split.
  - intros k Hk. apply F in Hk.
    rewrite lookup_insert_ne, lookup_delete_eq in Hk by done. done.
  - intros p k Hp1 Hp2. rewrite F.
    rewrite lookup_insert_ne, lookup_delete_ne by done.
    rewrite (F2 p k). apply F1.
Qed.

(** X22. A video uploaded through POST /api/external/media is stored under
    uploads/videos and moved by the handler into the videos directory of
    the account.  When the route answers 201, the file is at the path the
    resolver gives for the account, no file is left where the disk storage
    had put it, and no other file is touched; the record names the moved
    file.  The transcode is launched on the moved file, but the screenshot
    job on the path the file was moved away from: when that job runs while
    there is no file at that path, it only logs an error. *)
Theorem X22_external_video_is_moved_to_the_owner
    (account host : string) (part : Part) (env : Env.t)
    (w : World) (r : Response) (w1 : World) :
  Path.plain (Env.fileUuid env) = true ->
  isVideo (part_mimetype part) = true ->
  externalRouteUpload account host (Some part) env w = (Responded r, w1) ->
  status r = 201 ->
  let filename :=
    storageFilename (Env.fileUuid env) (part_originalname part) in
  let stored := "uploads/videos/" +:+ filename in
  let path := getUserFilePath account "videos" filename in
  let file :=
    {| File.originalname := part_originalname part;
       File.mimetype := part_mimetype part;
       File.size := part_bytes part;
       File.destination := "uploads/videos";
       File.filename := filename;
       File.path := stored |} in
  stored <> path
  /\ fs w1 !! path = Some (FileNode (part_bytes part))
  /\ (forall n, fs w1 !! stored <> Some (FileNode n))
  /\ (forall p n, p <> path -> p <> stored ->
        fs w1 !! p = Some (FileNode n) <-> fs w !! p = Some (FileNode n))
  /\ (exists doc,
        body r = BUploaded doc
        /\ fileName doc = filename
        /\ fileUrl doc
           = "https://" +:+ host +:+ "/uploads/" +:+ account +:+ "/videos/"
               +:+ filename
        /\ db w1 = <[Env.objectId env := doc]> (db w))
  /\ jobs w1
     = jobs w ++ [screenshotJob account file;
                  transcodeJob account ("https://" +:+ host) "videos" path
                    file env]
  /\ forall outcome later,
       (forall n, fs later !! stored <> Some (FileNode n)) ->
       complete (screenshotJob account file) outcome later
       = emit (EvLog "Error generating video thumbnail:") later.
Proof.
  intros Hid Hv Hroute Hst filename stored path file.
  pose proof (isVideo_not_isImage _ Hv) as Hi.
  assert (Path.plain filename = true) as Hfn
    by (apply plain_app_slashFree; [done|apply extname_slashFree]).
  assert (Path.join [Path.join [externalUploadDir; "videos"]; filename]
          = stored) as Hstored.
  { change (Path.join [externalUploadDir; "videos"]) with "uploads/videos".
    rewrite (join_plain "uploads/videos" [filename])
      by (done || by repeat constructor).
    reflexivity. }
  unfold externalRouteUpload, multerSingle in Hroute.
  assert (externalFileFilter (part_mimetype part) = true) as Hf.
  { unfold externalFileFilter. unfold isVideo in Hv. by rewrite Hv, orb_true_r. }
  rewrite Hf in Hroute. cbn [negb] in Hroute.
  rewrite bind_eq in Hroute. unfold externalDestination in Hroute.
  unfold isImage in Hi. unfold isVideo in Hv. rewrite Hi, Hv in Hroute.
  unfold ret at 1 in Hroute. fold filename in Hroute.
  rewrite Hstored in Hroute.
  change (Path.join [externalUploadDir; "videos"]) with "uploads/videos"
    in Hroute.
  destruct (fileSizeLimit <? part_bytes part)%N; [done|].
  rewrite bind_eq in Hroute. unfold modify at 1, ret at 1 in Hroute.
  fold file in Hroute.
  set (w0 := emit (EvWrite stored (part_bytes part))
               (with_fs (<[stored := FileNode (part_bytes part)]> (fs w)) w))
    in *.
  destruct (externalUploadMedia _ env w0) as [r' w1'] eqn:Eu.
  injection Hroute as -> ->.
  pose proof (fun Hfile =>
                externalUploadMedia_accepted _ env file w0 r w1 Hfile Eu Hst)
    as Hacc.
  destruct (Hacc eq_refl) as (o & [= <-] & Hrun). clear Hacc.
  cbn [Req.host File.mimetype file] in Hrun.
  fold (isImage (part_mimetype part)) in Hi.
  fold (isVideo (part_mimetype part)) in Hv.
  rewrite Hi, Hv, (isVideo_uploadMediaType _ Hv) in Hrun.
  rewrite bind_eq in Hrun.
  destruct (externalIngestVideo account ("https://" +:+ host) "videos" file
              env w0) as [[c|e] wx] eqn:Ev; [|done].
  destruct (createAndRespond_cases account file env c wx)
    as [(msg & Ec)|(uid & Huid & Hfree & Hne & Ec)]; rewrite Ec in Hrun;
    [done|].
  injection Hrun as <- <-.
  pose proof (castObjectId_plain _ _ Huid) as Hp.
  pose proof (castObjectId_length _ _ Huid) as Hlen.
  assert (stored <> path) as Hdiff.
  { unfold path. rewrite getUserFilePath_plain by done.
    intros E. apply (f_equal String.length) in E.
    unfold stored in E. rewrite !str_length_app, Hlen in E.
    simpl in E. lia. }
  destruct (externalIngestVideo_moves account ("https://" +:+ host) "videos"
              file env w0 (part_bytes part))
    as [(msg & wy & Em)|(wy & Em & Hdb & Hjobs & Hat & Hgone & Hothers)].
  { simpl. apply lookup_insert_eq. }
  { exact Hdiff. }
  { rewrite Em in Ev. done. }
  rewrite Em in Ev. injection Ev as <- <-.
  split; [exact Hdiff|]. split; [exact Hat|]. split; [exact Hgone|].
  split.
  { intros p n Hp1 Hp2. simpl. rewrite (Hothers p n Hp1 Hp2). simpl.
    by rewrite lookup_insert_ne. }
  split.
  { eexists. split; [reflexivity|]. simpl. split; [done|].
    split; [by rewrite !str_app_assoc|]. by rewrite Hdb. }
  split; [exact Hjobs|].
  intros outcome later Hlater.
  unfold complete, screenshotJob, encode. cbn [File.path file].
  destruct (fs later !! stored) as [[k|]|] eqn:E; [by destruct (Hlater k)|..];
    reflexivity.
Qed.

End Config.

(** * Concrete instances *)

Lemma C9_layout_of_plain_segments_witness :
  Path.plain "64b7f0c2a1d3e4f5a6b7c8d9" = true
  /\ Path.plain "images" = true
  /\ Path.plain "123e4567-e89b-42d3-a456-426614174000.png" = true
  /\ layout None "64b7f0c2a1d3e4f5a6b7c8d9" "images"
       "123e4567-e89b-42d3-a456-426614174000.png"
  /\ isolated None "64b7f0c2a1d3e4f5a6b7c8d9" "images"
       "123e4567-e89b-42d3-a456-426614174000.png".
Proof.
  split; [reflexivity|]. split; [reflexivity|]. split; [reflexivity|].
  apply (C9_layout_of_plain_segments None); reflexivity.
Defined.

(** C9 fails as stated: the resolver normalises its result, so a file name
    with ".." segments resolves, for owner ...c8d9, to a path in the
    directory of owner ...c8da. *)
Lemma C9_counterexample :
  getUserFilePath None "64b7f0c2a1d3e4f5a6b7c8d9" "images"
    "../../64b7f0c2a1d3e4f5a6b7c8da/images/x.png"
  = "uploads/64b7f0c2a1d3e4f5a6b7c8da/images/x.png"
  /\ ~ layout None "64b7f0c2a1d3e4f5a6b7c8d9" "images"
         "../../64b7f0c2a1d3e4f5a6b7c8da/images/x.png"
  /\ ~ isolated None "64b7f0c2a1d3e4f5a6b7c8d9" "images"
         "../../64b7f0c2a1d3e4f5a6b7c8da/images/x.png".
Proof.
  split; [by vm_compute|]. split.
  - intros [H _]. vm_compute in H. discriminate.
  - intros H.
    destruct (H (getUserFilePath None "64b7f0c2a1d3e4f5a6b7c8d9" "images"
                   "../../64b7f0c2a1d3e4f5a6b7c8da/images/x.png"))
      as [H1 _].
    + apply elem_of_cons. by left.
    + vm_compute in H1. discriminate.
Qed.

Lemma C10_directory_agrees_with_branch_witness :
  (fileFilter "image/png" = true \/ externalFileFilter "image/png" = true)
  /\ uploadMediaType "image/png" = storageMediaType "image/png"
  /\ categoryOfDir (uploadMediaType "image/png") = classify "image/png"
  /\ (uploadMediaType "image/png" = "images" -> classify "image/png" = Image)
  /\ (uploadMediaType "image/png" = "videos" -> classify "image/png" = Video).
Proof.
  split; [left; reflexivity|].
  apply (C10_directory_agrees_with_branch "image/png"). left. reflexivity.
Defined.

Lemma exAfterImage_reachable : reachable None (exAfterImage None).
Proof.
  eapply reachable_step; [apply (reachable_init None exEmpty); reflexivity|].
  apply step_routeUpload.
Defined.

Lemma C4_reoptimize_optimized_is_noop_witness :
  reachable None (exAfterImage None)
  /\ Req.user exReq = Some exOwner
  /\ Media_findOne (Req.id exReq) exOwner (exAfterImage None)
       = (Ok (Some exImageRecord), exAfterImage None)
  /\ isOptimized exImageRecord = true
  /\ exists r,
       optimizeMedia None exReq exEnv (exAfterImage None)
         = (r, exAfterImage None)
       /\ optimizeMedia None exReq exEnvThumbFails
            (snd (optimizeMedia None exReq exEnv (exAfterImage None)))
          = (r, exAfterImage None)
       /\ status r = 200
       /\ (body r = BAlreadyOptimized (_id exImageRecord)
                      (optimizedFileUrl exImageRecord) true
           \/ body r = BImageAlreadyWebp (_id exImageRecord)
                         (fileUrl exImageRecord) true).
Proof.
  split; [exact exAfterImage_reachable|]. split; [reflexivity|].
  split; [vm_compute; reflexivity|]. split; [reflexivity|].
  apply (C4_reoptimize_optimized_is_noop None exReq exEnv exEnvThumbFails
           exOwner exImageRecord (exAfterImage None)).
  - exact exAfterImage_reachable.
  - reflexivity.
  - vm_compute. reflexivity.
  - reflexivity.
Defined.

(** ** C1: the transcode of an upload is bound to a uuid, not to the
    record *)

(** C1 (defect of the code).  clip.mp4 is uploaded through POST /api/media
    and accepted: the record is persisted under the ObjectId ...c8e0, and
    the transcode job is launched with the uuid 9f1c2b3a-... as its
    dbRecordId.  The two differ.  When the transcode completes successfully
    (the optimized file is written), the update call throws on the uuid,
    the error is logged, and the record returned from the upload is as it
    was: isOptimized = false, no optimized URL; the original file is still
    on disk. *)
Theorem C1_transcode_completion_misses_the_record :
  routeUpload None exOwner exHost (Some exVideoPart) exEnv exEmpty
    = (Responded {| status := 201; body := BUploaded exVideoRecord |},
       exAfterVideo None)
  /\ db (exAfterVideo None) !! _id exVideoRecord = Some exVideoRecord
  /\ jobs (exAfterVideo None) = [exScreenshot; exTranscode]
  /\ exTranscode
     = TranscodeUpload exVideoPath exVideoOptimizedPath exUuid
         "https://media.example/uploads/64b7f0c2a1d3e4f5a6b7c8d9/videos/optimized/opt_123e4567-e89b-42d3-a456-426614174000.mp4"
         exVideoPath "123e4567-e89b-42d3-a456-426614174000.mp4"
  /\ exUuid <> _id exVideoRecord
  /\ castObjectId exUuid = None
  /\ fs (exAfterTranscode None) !! exVideoOptimizedPath = Some (FileNode 4000)
  /\ db (exAfterTranscode None) !! _id exVideoRecord = Some exVideoRecord
  /\ isOptimized exVideoRecord = false
  /\ optimizedFileUrl exVideoRecord = None
  /\ fs (exAfterTranscode None) !! exVideoPath = Some (FileNode 9000)
  /\ last (trace (exAfterTranscode None))
     = Some (EvLog "Error updating media record after optimization:").
Proof. split_and!; by vm_compute. Qed.

(** ** C2 *)

Lemma C2_accepted_image_upload_witness :
  Req.file exUploadReq = Some exImageFile
  /\ isImage (File.mimetype exImageFile) = true
  /\ (uploadMedia None exUploadReq exEnv (exStoredImage None)
        = ({| status := 201; body := BUploaded exImageRecord |},
           exAfterImage None)
      \/ externalUploadMedia None exUploadReq exEnv (exStoredImage None)
        = ({| status := 201; body := BUploaded exImageRecord |},
           exAfterImage None))
  /\ status {| status := 201; body := BUploaded exImageRecord |} = 201
  /\ exists owner,
       (Req.user exUploadReq = Some owner \/ Req.userId exUploadReq = Some owner)
       /\ imageUploaded None owner (Req.host exUploadReq) exImageFile
            {| status := 201; body := BUploaded exImageRecord |}
            (exAfterImage None).
Proof.
  split; [reflexivity|]. split; [reflexivity|].
  split; [left; vm_compute; reflexivity|]. split; [reflexivity|].
  apply (C2_accepted_image_upload None exUploadReq exEnv exImageFile
           (exStoredImage None)).
  - reflexivity.
  - reflexivity.
  - left. vm_compute. reflexivity.
  - reflexivity.
Defined.

(** ** C3 *)

Lemma C3_failed_image_upload_aborts_witness :
  Req.file exUploadReq = Some exImageFile
  /\ isImage (File.mimetype exImageFile) = true
  /\ ingestImage None exOwner ("https://" +:+ Req.host exUploadReq)
       (uploadMediaType (File.mimetype exImageFile)) exImageFile
       exEnvThumbFails (exStoredImage None)
     = (Throw (LibError "encoder failed"),
        snd (uploadMedia None exUploadReq exEnvThumbFails (exStoredImage None)))
  /\ ((Req.user exUploadReq = Some exOwner ->
       exists r,
         uploadMedia None exUploadReq exEnvThumbFails (exStoredImage None)
         = (r, snd (uploadMedia None exUploadReq exEnvThumbFails
                      (exStoredImage None)))
         /\ ingestionAborted exImageFile
              (getOptimizedPath None exOwner "images"
                 (Path.parse_name (File.filename exImageFile) +:+ ".webp"))
              (exStoredImage None) r
              (snd (uploadMedia None exUploadReq exEnvThumbFails
                      (exStoredImage None))))
      /\ (Req.userId exUploadReq = Some exOwner ->
          User_findById exOwner (exStoredImage None)
            = (Ok true, exStoredImage None) ->
          exists r,
            externalUploadMedia None exUploadReq exEnvThumbFails
              (exStoredImage None)
            = (r, snd (uploadMedia None exUploadReq exEnvThumbFails
                         (exStoredImage None)))
            /\ ingestionAborted exImageFile
                 (getOptimizedPath None exOwner "images"
                    (Path.parse_name (File.filename exImageFile) +:+ ".webp"))
                 (exStoredImage None) r
                 (snd (uploadMedia None exUploadReq exEnvThumbFails
                         (exStoredImage None))))).
Proof.
  split; [reflexivity|]. split; [reflexivity|].
  split; [vm_compute; reflexivity|].
  apply (C3_failed_image_upload_aborts None exUploadReq exEnvThumbFails
           exImageFile exOwner (exStoredImage None)
           (LibError "encoder failed")).
  - reflexivity.
  - reflexivity.
  - vm_compute. reflexivity.
Defined.

(** C3 fails as stated: when the thumbnail run fails, the upload is
    answered with 500 and the optimized file that the attempt had written
    (it was not there before) is still on disk; nothing cleans it up. *)
Lemma C3_counterexample :
  status (fst (uploadMedia None exUploadReq exEnvThumbFails
                 (exStoredImage None))) = 500
  /\ fs (exStoredImage None) !! exOptimizedPath = None
  /\ fs (snd (uploadMedia None exUploadReq exEnvThumbFails
                (exStoredImage None))) !! exOptimizedPath
     = Some (FileNode 700)
  /\ db (snd (uploadMedia None exUploadReq exEnvThumbFails
                (exStoredImage None))) = ∅.
Proof. split_and!; by vm_compute. Qed.

(** ** C5 *)

(** C5 fails as stated: optimizeMedia on an image that is not optimized
    makes two update calls.  The first persists optimizedFileUrl,
    isOptimized and fileSize while fileUrl still names the original; the
    second, after the original file was removed, persists fileUrl. *)
Lemma C5_counterexample :
  let w' := snd (optimizeMedia None exReq exEnv exLegacy) in
  ~ singleUpdateCall exLegacy w'
  /\ exists p1 persisted1 p2 persisted2,
       dbUpdates (trace w')
       = [EvDbUpdate exId p1 persisted1; EvDbUpdate exId p2 persisted2]
       /\ isOptimized persisted1 = true
       /\ optimizedFileUrl persisted1 = Some exLegacyOptimizedUrl
       /\ fileUrl persisted1 = fileUrl exLegacyRecord
       /\ set_fileUrl p1 = None
       /\ fileUrl persisted2 = exLegacyOptimizedUrl
       /\ db w' !! exId = Some persisted2.
Proof.
  split.
  - intros (evs & T & Hlen). change (trace exLegacy) with (@nil Event) in T.
    simpl in T. subst evs. vm_compute in Hlen. lia.
  - do 4 eexists. split_and!; by vm_compute.
Qed.

(** ** C6 *)

Lemma C6_failed_thumbnail_is_only_logged_witness :
  Req.file exVideoUploadReq = Some exVideoFile
  /\ isVideo (File.mimetype exVideoFile) = true
  /\ (uploadMedia None exVideoUploadReq exEnv (exStoredVideo None)
        = ({| status := 201; body := BUploaded exVideoRecord |},
           exAfterVideo None)
      \/ externalUploadMedia None exVideoUploadReq exEnv (exStoredVideo None)
        = ({| status := 201; body := BUploaded exVideoRecord |},
           exAfterVideo None))
  /\ status {| status := 201; body := BUploaded exVideoRecord |} = 201
  /\ exists owner source,
       (Req.user exVideoUploadReq = Some owner
        \/ Req.userId exVideoUploadReq = Some owner)
       /\ videoUploaded None owner (Req.host exVideoUploadReq) source
            exVideoFile exEnv
            {| status := 201; body := BUploaded exVideoRecord |}
            (exAfterVideo None)
       /\ forall outcome later e w1,
            encode (File.path exVideoFile)
              (Path.join
                 [Path.join [BASE_UPLOAD_PATH None; owner; "thumbnails"];
                  "thumb_" +:+ Path.parse_name (File.filename exVideoFile)
                           +:+ ".jpg"])
              outcome later = (Throw e, w1) ->
            complete (screenshotJob None owner exVideoFile) outcome later
            = emit (EvLog "Error generating video thumbnail:") later.
Proof.
  split; [reflexivity|]. split; [reflexivity|].
  split; [left; vm_compute; reflexivity|]. split; [reflexivity|].
  apply (C6_failed_thumbnail_is_only_logged None exVideoUploadReq exEnv
           exVideoFile (exStoredVideo None)).
  - reflexivity.
  - reflexivity.
  - left. vm_compute. reflexivity.
  - reflexivity.
Defined.

(** C6 fails as stated: after the thumbnail extraction of the accepted
    upload of clip.mp4 failed, no thumbnail file exists, the failure is
    logged, and the persisted record's thumbnailUrl is still set. *)
Lemma C6_counterexample :
  exScreenshot ∈ jobs (exAfterVideo None)
  /\ trace (exAfterScreenshotFailed None)
     = trace (exAfterVideo None) ++ [EvLog "Error generating video thumbnail:"]
  /\ fs (exAfterScreenshotFailed None) !! exThumbnailPath = None
  /\ db (exAfterScreenshotFailed None) !! exId = Some exVideoRecord
  /\ thumbnailUrl exVideoRecord
     = Some "https://media.example/uploads/64b7f0c2a1d3e4f5a6b7c8d9/thumbnails/thumb_123e4567-e89b-42d3-a456-426614174000.jpg"
  /\ thumbnailUrl exVideoRecord <> None.
Proof.
  split; [vm_compute; apply elem_of_cons; by left|].
  split_and!; by vm_compute.
Qed.

(** ** C7 *)

Lemma C7_delete_removes_artifacts_then_record_witness :
  reachable None (exAfterImage None)
  /\ Req.user exReq = Some exOwner /\ Req.userId exReq = Some exOwner
  /\ Media_findOne (Req.id exReq) exOwner (exAfterImage None)
     = (Ok (Some exImageRecord), exAfterImage None)
  /\ (forall p, p ∈ artifacts None exOwner exImageRecord ->
                fs (exAfterImage None) !! p <> Some DirNode)
  /\ exists w' removed,
       deleteMedia None exReq (exAfterImage None)
         = ({| status := 200; body := BDeleted (Req.id exReq) |}, w')
       /\ externalDeleteMedia None exReq (exAfterImage None)
          = deleteMedia None exReq (exAfterImage None)
       /\ (forall p, p ∈ artifacts None exOwner exImageRecord ->
                     fs w' !! p = None)
       /\ (forall p, p ∉ artifacts None exOwner exImageRecord ->
                     fs w' !! p = fs (exAfterImage None) !! p)
       /\ db w' = delete (_id exImageRecord) (db (exAfterImage None))
       /\ db (exAfterImage None) !! _id exImageRecord = Some exImageRecord
       /\ trace w' = trace (exAfterImage None) ++ (EvUnlink <$> removed)
                       ++ [EvDbDelete (_id exImageRecord)]
       /\ (forall p, p ∈ removed -> p ∈ artifacts None exOwner exImageRecord)
       /\ deleteMedia None exReq w'
          = ({| status := 404; body := BError "Media not found" |}, w')
       /\ externalDeleteMedia None exReq w'
          = ({| status := 404; body := BError "Media not found" |}, w').
Proof.
  assert (forall p, p ∈ artifacts None exOwner exImageRecord ->
                    fs (exAfterImage None) !! p <> Some DirNode) as Hdir.
  { intros p Hp.
    assert (artifacts None exOwner exImageRecord
            = ["uploads/64b7f0c2a1d3e4f5a6b7c8d9/thumbnails/thumb_123e4567-e89b-42d3-a456-426614174000.webp";
               exOptimizedPath]) as E by (vm_compute; reflexivity).
    rewrite E in Hp.
    apply elem_of_cons in Hp as [->|Hp]; [vm_compute; discriminate|].
    apply elem_of_cons in Hp as [->|Hp]; [vm_compute; discriminate|].
    exfalso. exact (proj1 (elem_of_nil p) Hp). }
  split; [exact exAfterImage_reachable|]. split; [reflexivity|].
  split; [reflexivity|]. split; [vm_compute; reflexivity|].
  split; [exact Hdir|].
  apply (C7_delete_removes_artifacts_then_record None exReq exOwner
           exImageRecord (exAfterImage None)).
  - exact exAfterImage_reachable.
  - reflexivity.
  - reflexivity.
  - vm_compute. reflexivity.
  - exact Hdir.
Defined.

(** * Concrete instances of the further properties *)

Lemma exLegacy_worldOk : worldOk exLegacy.
Proof.
  split; [|constructor].
  intros id m H. change (db exLegacy) with ({[ exId := exLegacyRecord ]}
    : gmap string Media) in H.
  apply lookup_singleton_Some in H as [<- <-].
  split; [reflexivity|]. split; [discriminate|].
  split; discriminate.
Defined.

(** The result of a run whose answer is known. *)
Lemma pair_with_snd {A B} (p : A * B) (a : A) : fst p = a -> p = (a, snd p).
Proof. intros <-. by destruct p. Qed.

Lemma exKeys_reachable : keysReachable exKeys.
Proof.
  apply (keysReachable_step ∅); [constructor|].
  exact (keyStep_create (Some exOwner) " ci " exKeyEnv ∅).
Defined.

Lemma X1_delete_spares_other_records_witness :
  reachable None (exAfterImage None)
  /\ db (exAfterImage None) !! exId = Some exImageRecord
  /\ (db (snd (deleteMedia None exReq (exAfterImage None))) !! exId
      = Some exImageRecord
      \/ (status (fst (deleteMedia None exReq (exAfterImage None))) = 200
          /\ castObjectId (Req.id exReq) = Some exId
          /\ ownedBy (Req.user exReq) exImageRecord))
  /\ (db (snd (externalDeleteMedia None exReq (exAfterImage None))) !! exId
      = Some exImageRecord
      \/ (status (fst (externalDeleteMedia None exReq (exAfterImage None)))
          = 200
          /\ castObjectId (Req.id exReq) = Some exId
          /\ ownedBy (Req.userId exReq) exImageRecord)).
Proof.
  assert (db (exAfterImage None) !! exId = Some exImageRecord) as Hdb
    by (vm_compute; reflexivity).
  split; [exact exAfterImage_reachable|]. split; [exact Hdb|].
  apply (X1_delete_spares_other_records None exReq (exAfterImage None) exId
           exImageRecord).
  - exact exAfterImage_reachable.
  - exact Hdb.
Defined.

Lemma X3_document_upload_is_stored_as_is_witness :
  Req.file exDocUploadReq = Some exDocFile
  /\ classify (File.mimetype exDocFile) = Document
  /\ (uploadMedia None exDocUploadReq exEnv (exStoredDoc None)
        = ({| status := 201; body := BUploaded exDocRecord |},
           snd (uploadMedia None exDocUploadReq exEnv (exStoredDoc None)))
      \/ externalUploadMedia None exDocUploadReq exEnv (exStoredDoc None)
        = ({| status := 201; body := BUploaded exDocRecord |},
           snd (uploadMedia None exDocUploadReq exEnv (exStoredDoc None))))
  /\ status {| status := 201; body := BUploaded exDocRecord |} = 201
  /\ (exists owner,
        (Req.user exDocUploadReq = Some owner
         \/ Req.userId exDocUploadReq = Some owner)
        /\ documentUploaded owner (Req.host exDocUploadReq) exDocFile
             (exStoredDoc None)
             {| status := 201; body := BUploaded exDocRecord |}
             (snd (uploadMedia None exDocUploadReq exEnv (exStoredDoc None))))
  /\ (fileFilter (File.mimetype exDocFile) = true ->
      uploadMediaType (File.mimetype exDocFile) = "documents").
Proof.
  assert (uploadMedia None exDocUploadReq exEnv (exStoredDoc None)
          = ({| status := 201; body := BUploaded exDocRecord |},
           snd (uploadMedia None exDocUploadReq exEnv (exStoredDoc None)))) as Hup
    by (apply pair_with_snd; vm_compute; reflexivity).
  split; [reflexivity|]. split; [reflexivity|].
  split; [left; exact Hup|]. split; [reflexivity|].
  apply (X3_document_upload_is_stored_as_is None exDocUploadReq exEnv
           exDocFile (exStoredDoc None)).
  - reflexivity.
  - reflexivity.
  - left. exact Hup.
  - reflexivity.
Defined.


Lemma X6_optimized_image_then_noop_witness :
  worldOk exLegacy
  /\ Req.user exReq = Some exOwner
  /\ Media_findOne (Req.id exReq) exOwner exLegacy
     = (Ok (Some exLegacyRecord), exLegacy)
  /\ isImage (fileType exLegacyRecord) = true
  /\ isOptimized exLegacyRecord = false
  /\ Js.endsWith (fileName exLegacyRecord) ".webp" = false
  /\ optimizeMedia None exReq exEnv exLegacy
     = ({| status := 200;
           body := BImageOptimized exId exLegacyOptimizedUrl
                     (Some exLegacyOptimizedUrl) true 700 |},
        snd (optimizeMedia None exReq exEnv exLegacy))
  /\ let w' := snd (optimizeMedia None exReq exEnv exLegacy) in
     let baseUrl := Req.protocol exReq +:+ "://" +:+ Req.host exReq in
     let src := getUserFilePath None exOwner "images" (fileName exLegacyRecord) in
     let dst :=
       getOptimizedPath None exOwner "images"
         ("opt_" +:+ Path.parse_name (fileName exLegacyRecord) +:+ ".webp") in
     exists n,
       Env.encoded exEnv = Some n
       /\ let media' := reoptimizedImage exOwner baseUrl n exLegacyRecord in
          BImageOptimized exId exLegacyOptimizedUrl
            (Some exLegacyOptimizedUrl) true 700
          = BImageOptimized (_id exLegacyRecord) (fileUrl media')
              (optimizedFileUrl media') true n
          /\ optimizedFileUrl media' = Some (fileUrl media')
          /\ db w' = <[_id exLegacyRecord := media']> (db exLegacy)
          /\ fs w' !! dst = Some (FileNode n)
          /\ fs w' !! src = None
          /\ optimizeMedia None exReq exEnvThumbFails w'
             = ({| status := 200;
                   body := BAlreadyOptimized (_id exLegacyRecord)
                             (optimizedFileUrl media') true |}, w').
Proof.
  assert (Media_findOne (Req.id exReq) exOwner exLegacy
          = (Ok (Some exLegacyRecord), exLegacy)) as Hfind.
  { apply (findOne_found _ _ exId exOwner); [reflexivity..| |reflexivity].
    vm_compute. reflexivity. }
  assert (optimizeMedia None exReq exEnv exLegacy
          = ({| status := 200;
                body := BImageOptimized exId exLegacyOptimizedUrl
                          (Some exLegacyOptimizedUrl) true 700 |},
             snd (optimizeMedia None exReq exEnv exLegacy))) as Hrun
    by (apply pair_with_snd; vm_compute; reflexivity).
  split; [exact exLegacy_worldOk|]. split; [reflexivity|].
  split; [exact Hfind|]. split; [reflexivity|].
  split; [reflexivity|]. split; [reflexivity|].
  split; [exact Hrun|].
  apply (X6_optimized_image_then_noop None exReq exEnv exEnvThumbFails
           exOwner exLegacyRecord exLegacy
           {| status := 200;
              body := BImageOptimized exId exLegacyOptimizedUrl
                        (Some exLegacyOptimizedUrl) true 700 |}
           (snd (optimizeMedia None exReq exEnv exLegacy))).
  - exact exLegacy_worldOk.
  - reflexivity.
  - exact Hfind.
  - reflexivity.
  - reflexivity.
  - reflexivity.
  - exact Hrun.
  - reflexivity.
Defined.

Lemma X7_reachable_records_are_well_formed_witness :
  reachable None (exAfterImage None)
  /\ db (exAfterImage None) !! exId = Some exImageRecord
  /\ recordOk exId exImageRecord /\ schemaOk exImageRecord.
Proof.
  assert (db (exAfterImage None) !! exId = Some exImageRecord) as Hdb
    by (vm_compute; reflexivity).
  split; [exact exAfterImage_reachable|]. split; [exact Hdb|].
  apply (X7_reachable_records_are_well_formed None (exAfterImage None)).
  - exact exAfterImage_reachable.
  - exact Hdb.
Defined.




Lemma X12_api_key_lifecycle_witness :
  castObjectId (ke_objectId exKeyEnv) = Some (ke_objectId exKeyEnv)
  /\ createApiKey (Some exOwner) " ci " exKeyEnv ∅
     = ({| k_status := 201;
           k_body := KCreated exKeyId "ci" exKey 1700000000000 |},
        snd (createApiKey (Some exOwner) " ci " exKeyEnv ∅))
  /\ k_status {| k_status := 201;
                 k_body := KCreated exKeyId "ci" exKey 1700000000000 |} = 201
  /\ exists userId keys2,
       Some exOwner = Some userId
       /\ KCreated exKeyId "ci" exKey 1700000000000
          = KCreated (ke_objectId exKeyEnv) (trim " ci ")
              (ke_generated exKeyEnv) (ke_now exKeyEnv)
       /\ validateApiKey (Some (ke_generated exKeyEnv)) 1700000000500
            (snd (createApiKey (Some exOwner) " ci " exKeyEnv ∅))
          = (Passed userId, keys2)
       /\ deleteApiKey (Some exOwner) (ke_objectId exKeyEnv) keys2
          = ({| k_status := 200; k_body := KDeleted (ke_objectId exKeyEnv) |},
             ∅)
       /\ validateApiKey (Some (ke_generated exKeyEnv)) 1700000000900 ∅
          = (Rejected 401 "Invalid API key", ∅).
Proof.
  assert (createApiKey (Some exOwner) " ci " exKeyEnv ∅
          = ({| k_status := 201;
                k_body := KCreated exKeyId "ci" exKey 1700000000000 |},
             snd (createApiKey (Some exOwner) " ci " exKeyEnv ∅))) as Hnew
    by (apply pair_with_snd; vm_compute; reflexivity).
  split; [reflexivity|]. split; [exact Hnew|].
  split; [reflexivity|].
  apply (X12_api_key_lifecycle (Some exOwner) " ci " exKeyEnv 1700000000500
           1700000000900 ∅
           {| k_status := 201;
              k_body := KCreated exKeyId "ci" exKey 1700000000000 |}
           (snd (createApiKey (Some exOwner) " ci " exKeyEnv ∅))).
  - reflexivity.
  - exact Hnew.
  - reflexivity.
Defined.

Lemma X13_api_key_authenticates_its_owner_witness :
  keysReachable exKeys
  /\ (forall u keys',
        validateApiKey (Some exKey) 1700000000500 exKeys = (Passed u, keys') ->
        exists id doc,
          exKeys !! id = Some doc /\ k_key doc = exKey /\ k_userId doc = u
          /\ keys' = <[id := usedAt 1700000000500 doc]> exKeys)
  /\ (forall id doc,
        exKeys !! id = Some doc -> k_key doc = exKey ->
        validateApiKey (Some exKey) 1700000000500 exKeys
        = (Passed (k_userId doc), <[id := usedAt 1700000000500 doc]> exKeys))
  /\ ((forall id doc, exKeys !! id = Some doc -> k_key doc <> exKey) ->
      exists msg, validateApiKey (Some exKey) 1700000000500 exKeys
                  = (Rejected 401 msg, exKeys)).
Proof.
  split; [exact exKeys_reachable|].
  apply (X13_api_key_authenticates_its_owner exKeys exKey 1700000000500).
  exact exKeys_reachable.
Defined.

Lemma X14_api_keys_are_private_witness :
  (forall l : list ApiKey, id l ≡ₚ l)
  /\ keysReachable exKeys
  /\ (forall i k, exKeys !! i = Some k ->
        snd (deleteApiKey (Some exOther) exKeyId exKeys) !! i = Some k
        \/ (k_status (fst (deleteApiKey (Some exOther) exKeyId exKeys)) = 200
            /\ castObjectId exKeyId = Some i
            /\ Some exOther = Some (k_userId k)))
  /\ (forall shownKey,
        shownKey ∈ listed (fst (getUserApiKeys id (Some exOther) exKeys)) <->
        exists i k, exKeys !! i = Some k /\ Some exOther = Some (k_userId k)
                    /\ shownKey = masked k)
  /\ snd (getUserApiKeys id (Some exOther) exKeys) = exKeys
  /\ (forall id1 id2 k1 k2,
        exKeys !! id1 = Some k1 -> exKeys !! id2 = Some k2 ->
        k_userId k1 = k_userId k2 -> k_name k1 = k_name k2 -> id1 = id2).
Proof.
  split; [reflexivity|]. split; [exact exKeys_reachable|].
  apply (X14_api_keys_are_private id (Some exOther) exKeyId exKeys).
  - reflexivity.
  - exact exKeys_reachable.
Defined.

Lemma X15_masked_key_hides_the_middle_witness :
  String.length "0f1e2d3c" = 8 /\ String.length "6978" = 4
  /\ maskKey ("0f1e2d3c" +:+ "4b5a69780f1e2d3c4b5a" +:+ "6978")
     = "0f1e2d3c" +:+ "..." +:+ "6978".
Proof.
  split; [reflexivity|]. split; [reflexivity|].
  apply (X15_masked_key_hides_the_middle "0f1e2d3c" "4b5a69780f1e2d3c4b5a"
           "6978"); reflexivity.
Defined.

Lemma X19_image_upload_then_delete_leaves_nothing_witness :
  Req.file exUploadReq = Some exImageFile
  /\ isImage (File.mimetype exImageFile) = true
  /\ ((uploadMedia None exUploadReq exEnv (exStoredImage None)
         = ({| status := 201; body := BUploaded exImageRecord |},
            snd (uploadMedia None exUploadReq exEnv (exStoredImage None)))
       /\ Req.user exUploadReq = Some exOwner)
      \/ (externalUploadMedia None exUploadReq exEnv (exStoredImage None)
          = ({| status := 201; body := BUploaded exImageRecord |},
            snd (uploadMedia None exUploadReq exEnv (exStoredImage None)))
          /\ Req.userId exUploadReq = Some exOwner))
  /\ status {| status := 201; body := BUploaded exImageRecord |} = 201
  /\ castObjectId (Env.objectId exEnv) = Some (Env.objectId exEnv)
  /\ let webp := Path.parse_name (File.filename exImageFile) +:+ ".webp" in
     let opt := getOptimizedPath None exOwner "images" webp in
     let thumb := getThumbnailPath None exOwner ("thumb_" +:+ webp) in
     fs (exStoredImage None) !! opt = None
     /\ fs (exStoredImage None) !! thumb = None
     /\ Req.user exReq = Some exOwner
     /\ Req.id exReq = Env.objectId exEnv
     /\ exists w2,
          deleteMedia None exReq
            (snd (uploadMedia None exUploadReq exEnv (exStoredImage None)))
          = ({| status := 200; body := BDeleted (Env.objectId exEnv) |}, w2)
          /\ db w2 = db (exStoredImage None)
          /\ fs w2 !! File.path exImageFile = None
          /\ fs w2 !! opt = None /\ fs w2 !! thumb = None
          /\ forall p n,
               fs w2 !! p = Some (FileNode n) <->
               p <> File.path exImageFile
               /\ fs (exStoredImage None) !! p = Some (FileNode n).
Proof.
  assert (uploadMedia None exUploadReq exEnv (exStoredImage None)
          = ({| status := 201; body := BUploaded exImageRecord |},
            snd (uploadMedia None exUploadReq exEnv (exStoredImage None)))) as Hup
    by (apply pair_with_snd; vm_compute; reflexivity).
  assert (fs (exStoredImage None)
            !! getOptimizedPath None exOwner "images"
                 (Path.parse_name (File.filename exImageFile) +:+ ".webp")
          = None) as Hopt by (vm_compute; reflexivity).
  assert (fs (exStoredImage None)
            !! getThumbnailPath None exOwner
                 ("thumb_" +:+ Path.parse_name (File.filename exImageFile)
                           +:+ ".webp")
          = None) as Hthumb by (vm_compute; reflexivity).
  split; [reflexivity|]. split; [reflexivity|].
  split; [left; split; [exact Hup|reflexivity]|].
  split; [reflexivity|]. split; [reflexivity|].
  split; [exact Hopt|]. split; [exact Hthumb|].
  split; [reflexivity|]. split; [reflexivity|].
  apply (X19_image_upload_then_delete_leaves_nothing None exUploadReq exReq
           exEnv exImageFile exOwner (exStoredImage None)
           {| status := 201; body := BUploaded exImageRecord |}
           (snd (uploadMedia None exUploadReq exEnv (exStoredImage None)))).
  - reflexivity.
  - reflexivity.
  - left. split; [exact Hup|reflexivity].
  - reflexivity.
  - reflexivity.
  - exact Hopt.
  - exact Hthumb.
  - reflexivity.
  - reflexivity.
Defined.


Lemma X21_document_upload_then_delete_leaves_nothing_witness :
  Path.plain (Env.fileUuid exEnv) = true
  /\ classify (part_mimetype exDocPart) = Document
  /\ routeUpload None exOwner exHost (Some exDocPart) exEnv exEmpty
     = (Responded {| status := 201; body := BUploaded exDocRecord |},
        snd (routeUpload None exOwner exHost (Some exDocPart) exEnv exEmpty))
  /\ status {| status := 201; body := BUploaded exDocRecord |} = 201
  /\ castObjectId (Env.objectId exEnv) = Some (Env.objectId exEnv)
  /\ let filename :=
       storageFilename (Env.fileUuid exEnv) (part_originalname exDocPart) in
     let path := getUserFilePath None exOwner "documents" filename in
     let url :=
       "https://" +:+ exHost +:+ "/uploads/" +:+ exOwner +:+ "/documents/"
         +:+ filename in
     Js.includes url "/optimized/" = false
     /\ Req.user exReq = Some exOwner
     /\ Req.id exReq = Env.objectId exEnv
     /\ (exists doc,
           BUploaded exDocRecord = BUploaded doc
           /\ fileName doc = filename /\ fileUrl doc = url)
     /\ fs (snd (routeUpload None exOwner exHost (Some exDocPart) exEnv exEmpty)) !! path = Some (FileNode (part_bytes exDocPart))
     /\ exists w2,
          deleteMedia None exReq
            (snd (routeUpload None exOwner exHost (Some exDocPart) exEnv exEmpty))
          = ({| status := 200; body := BDeleted (Env.objectId exEnv) |}, w2)
          /\ db w2 = db exEmpty
          /\ fs w2 !! path = None
          /\ forall p n, p <> path ->
               fs w2 !! p = Some (FileNode n)
               <-> fs exEmpty !! p = Some (FileNode n).
Proof.
  assert (routeUpload None exOwner exHost (Some exDocPart) exEnv exEmpty
          = (Responded {| status := 201; body := BUploaded exDocRecord |},
             snd (routeUpload None exOwner exHost (Some exDocPart) exEnv exEmpty))) as Hup
    by (apply pair_with_snd; vm_compute; reflexivity).
  assert (Js.includes
            ("https://" +:+ exHost +:+ "/uploads/" +:+ exOwner
               +:+ "/documents/"
               +:+ storageFilename (Env.fileUuid exEnv)
                     (part_originalname exDocPart))
            "/optimized/" = false) as Hurl by (vm_compute; reflexivity).
  split; [reflexivity|]. split; [reflexivity|].
  split; [exact Hup|]. split; [reflexivity|].
  split; [reflexivity|]. split; [exact Hurl|].
  split; [reflexivity|]. split; [reflexivity|].
  apply (X21_document_upload_then_delete_leaves_nothing None exOwner exHost
           exDocPart exEnv exReq exEmpty
           {| status := 201; body := BUploaded exDocRecord |}
           (snd (routeUpload None exOwner exHost (Some exDocPart) exEnv exEmpty))).
  - reflexivity.
  - reflexivity.
  - exact Hup.
  - reflexivity.
  - reflexivity.
  - exact Hurl.
  - reflexivity.
  - reflexivity.
Defined.

Lemma X22_external_video_is_moved_to_the_owner_witness :
  Path.plain (Env.fileUuid exEnv) = true
  /\ isVideo (part_mimetype exVideoPart) = true
  /\ externalRouteUpload None exOwner exHost (Some exVideoPart) exEnv exEmpty
     = (Responded {| status := 201; body := BUploaded exVideoRecord |},
        snd (externalRouteUpload None exOwner exHost (Some exVideoPart) exEnv
               exEmpty))
  /\ status {| status := 201; body := BUploaded exVideoRecord |} = 201
  /\ let w1 :=
       snd (externalRouteUpload None exOwner exHost (Some exVideoPart) exEnv
              exEmpty) in
     let filename :=
       storageFilename (Env.fileUuid exEnv) (part_originalname exVideoPart) in
     let stored := "uploads/videos/" +:+ filename in
     let path := getUserFilePath None exOwner "videos" filename in
     let file :=
       {| File.originalname := part_originalname exVideoPart;
          File.mimetype := part_mimetype exVideoPart;
          File.size := part_bytes exVideoPart;
          File.destination := "uploads/videos";
          File.filename := filename;
          File.path := stored |} in
     stored <> path
     /\ fs w1 !! path = Some (FileNode (part_bytes exVideoPart))
     /\ (forall n, fs w1 !! stored <> Some (FileNode n))
     /\ (forall p n, p <> path -> p <> stored ->
           fs w1 !! p = Some (FileNode n)
           <-> fs exEmpty !! p = Some (FileNode n))
     /\ (exists doc,
           BUploaded exVideoRecord = BUploaded doc
           /\ fileName doc = filename
           /\ fileUrl doc
              = "https://" +:+ exHost +:+ "/uploads/" +:+ exOwner
                  +:+ "/videos/" +:+ filename
           /\ db w1 = <[Env.objectId exEnv := doc]> (db exEmpty))
     /\ jobs w1
        = jobs exEmpty
            ++ [screenshotJob None exOwner file;
                transcodeJob None exOwner ("https://" +:+ exHost) "videos"
                  path file exEnv]
     /\ forall outcome later,
          (forall n, fs later !! stored <> Some (FileNode n)) ->
          complete (screenshotJob None exOwner file) outcome later
          = emit (EvLog "Error generating video thumbnail:") later.
Proof.
  assert (externalRouteUpload None exOwner exHost (Some exVideoPart) exEnv
            exEmpty
          = (Responded {| status := 201; body := BUploaded exVideoRecord |},
             snd (externalRouteUpload None exOwner exHost (Some exVideoPart)
                    exEnv exEmpty))) as Hup
    by (apply pair_with_snd; vm_compute; reflexivity).
  split; [reflexivity|]. split; [reflexivity|]. split; [exact Hup|].
  split; [reflexivity|].
  apply (X22_external_video_is_moved_to_the_owner None exOwner exHost
           exVideoPart exEnv exEmpty
           {| status := 201; body := BUploaded exVideoRecord |}
           (snd (externalRouteUpload None exOwner exHost (Some exVideoPart)
                   exEnv exEmpty))).
  - reflexivity.
  - reflexivity.
  - exact Hup.
  - reflexivity.
Defined.
